(** * NVIDIA investment analytics dashboard: the Monte Carlo engine of [src/App.js]

    The five [useMemo] bodies of the [Dashboard] component ([simulations],
    [stats], [distribution], [trajectory], [scatter]) are embedded as Rocq
    functions over IEEE 754 binary64 numbers (Rocq's primitive floats, the
    same format as a JavaScript Number).  [Math.random] is an explicit
    stream of draws, [Math.log] and [Math.cos] are an interface of the host
    engine, a thrown exception is an explicit completion, and the array
    shared by the memoised values lives in a store. *)

From stdpp Require Import gmap strings list sorting pretty.
From Stdlib Require Import ZArith QArith Qabs Lqa Uint63 Floats Lia Permutation.

Set Warnings "-inexact-float".

(** ** JavaScript numbers and the parts of the runtime the engine uses *)
Module JS.

Local Open Scope float_scope.

(** Exceptions.  The engine has no [throw] of its own: the only exception it
    can raise is the runtime's [TypeError]. *)
Inductive exn : Type :=
| TypeError (msg : string).

Inductive completion (A : Type) : Type :=
| Normal (a : A)
| Throw (e : exn).
Arguments Normal {A} a.
Arguments Throw {A} e.

Definition is_throw {A} (c : completion A) : bool :=
  match c with Throw _ => true | Normal _ => false end.

(** [Math.PI] *)
Definition Math_PI : float := 0x1.921fb54442d18p+1.

(** [Math.max(a, b)]: NaN when an argument is NaN, [+0] above [-0]. *)
Definition Math_max (a b : float) : float :=
  if is_nan a || is_nan b then nan
  else if a <? b then b
  else if b <? a then a
  else if get_sign a then b else a.

(** [Math.min(a, b)]: NaN when an argument is NaN, [-0] below [+0]. *)
Definition Math_min (a b : float) : float :=
  if is_nan a || is_nan b then nan
  else if a <? b then a
  else if b <? a then b
  else if get_sign a then a else b.

(** [Math.min(...vals)] and [Math.max(...vals)]: the fold of the language
    definition, from [+Infinity] and from [-Infinity]. *)
Definition Math_min_list (vals : list float) : float :=
  fold_left Math_min vals infinity.
Definition Math_max_list (vals : list float) : float :=
  fold_left Math_max vals neg_infinity.

(** Conversion of an integer to a Number: exact up to [2^53] in magnitude,
    rounded to nearest up to [2^63]. *)
Definition of_Z (z : Z) : float :=
  if (z <? 0)%Z then - of_uint63 (Uint63.of_Z (- z)) else of_uint63 (Uint63.of_Z z).
Definition of_nat (n : nat) : float := of_uint63 (Uint63.of_Z (Z.of_nat n)).

(** [Math.floor] *)
Definition Math_floor (x : float) : float :=
  match Prim2SF x with
  | S754_finite s m e =>
      if (0 <=? e)%Z then x
      else
        let q := Z.shiftr (Zpos m) (- e) in
        let exact := (Z.shiftl q (- e) =? Zpos m)%Z in
        if s then
          (if exact then - of_Z q else - of_Z (q + 1))
        else of_Z q
  | _ => x
  end.

(** The property key of [a[x]] for a Number [x]: an array index when [x] is a
    non-negative integer ([-0] is the key ["0"]), no index otherwise. *)
Definition array_index (x : float) : option nat :=
  match Prim2SF x with
  | S754_zero _ => Some 0%nat
  | S754_finite false m e =>
      if (0 <=? e)%Z then Some (Z.to_nat (Z.shiftl (Zpos m) e))
      else
        let q := Z.shiftr (Zpos m) (- e) in
        if (Z.shiftl q (- e) =? Zpos m)%Z then Some (Z.to_nat q) else None
  | _ => None
  end.

(** The Number nearest to the ratio [n / d] of two positive integers, with
    sign [s]: what [Number(str)] yields on a decimal literal [n/d]. *)
Definition nearest_ratio (s : bool) (n d : positive) : float :=
  SF2Prim
    (let '(q, e, l) := SFdiv_core_binary prec emax (Zpos n) 0 (Zpos d) 0 in
     binary_round_aux prec emax s q e l).

(** [Number(x.toFixed(1))].  [toFixed] prints NaN and the infinities by name,
    a magnitude from [10^21] on in exponent form (both read back as [x]), and
    otherwise the integer [n] for which [n / 10] is closest to the magnitude
    of [x], the larger one on a tie, with a minus sign when [x < 0]. *)
Definition toFixed1_Number (x : float) : float :=
  match Prim2SF x with
  | S754_zero _ => 0
  | S754_finite s m e =>
      if (0 <=? e)%Z && (10 ^ 21 <=? Z.shiftl (Zpos m) e)%Z then x
      else
        let n :=
          if (0 <=? e)%Z then (10 * Z.shiftl (Zpos m) e)%Z
          else Z.shiftr (20 * Zpos m + Z.shiftl 1 (- e)) (1 - e) in
        match n with
        | Zpos p => nearest_ratio s p 10
        | _ => if s then neg_zero else 0
        end
  | _ => x
  end.

(** [ToNumber] of a value that is a Number or [undefined]. *)
Definition ToNumber (v : option float) : float :=
  match v with Some x => x | None => nan end.

(** The host's transcendental functions.  The language fixes them on a few
    arguments only and leaves the rest implementation-approximated. *)
Class MathLib : Type := {
  Math_log : float -> float;
  Math_cos : float -> float;
  Math_pow2 : float -> float;      (* [Math.pow(x, 2)] *)
  Math_log_zero : Math_log 0 = neg_infinity;
  Math_cos_zero : Math_cos 0 = 1;
}.

(** Vocabulary for statements about rounding: a result that is a zero, a
    finite number or an infinity of sign [sx], and the comparison of [x]
    with [z] that follows from those of [x] with [y] and [y] with [z]. *)
Definition signed_as (sx : bool) (r : spec_float) : Prop :=
  match r with
  | S754_zero s | S754_infinity s | S754_finite s _ _ => s = sx
  | S754_nan => False
  end.

(** The same without the zeros. *)
Definition nonzero_signed (sx : bool) (r : spec_float) : Prop :=
  match r with
  | S754_finite s _ _ | S754_infinity s => s = sx
  | _ => False
  end.

(** A zero or NaN: what a difference of equal Numbers is. *)
Definition zero_or_nan (r : spec_float) : Prop :=
  match r with
  | S754_zero _ | S754_nan => True
  | _ => False
  end.

Definition comp_trans (c1 c2 : comparison) : comparison :=
  match c1, c2 with Eq, Eq => Eq | _, _ => Lt end.

(** The exact value of a finite Number, as a rational. *)
Definition SF2Q (x : spec_float) : Q :=
  match x with
  | S754_finite s m e =>
      let v := if (0 <=? e)%Z then inject_Z (Z.shiftl (Zpos m) e)
               else Qmake (Zpos m) (Z.to_pos (Z.shiftl 1 (- e))) in
      if s then Qopp v else v
  | _ => 0%Q
  end.
Definition float2Q (x : float) : Q := SF2Q (Prim2SF x).

End JS.

(** ** A reference implementation of the host functions

    Any approximation is a conforming [Math.log] and [Math.cos]; this one
    (argument reduction and a truncated series, in binary64 arithmetic)
    makes the engine executable on concrete draws. *)
Module RefMath.

Local Open Scope float_scope.

Fixpoint atanh_series (k : nat) (t2 pow : float) (j : float) : float :=
  match k with
  | O => 0
  | S k' => pow / j + atanh_series k' t2 (pow * t2) (j + 2)
  end.

Definition ln2 : float := 0x1.62e42fefa39efp-1.

Definition log (x : float) : float :=
  if is_nan x then nan
  else if is_zero x then neg_infinity
  else if x <? 0 then nan
  else if is_infinity x then infinity
  else
    let '(m, e) := Z.frexp x in
    let t := (m - 1) / (m + 1) in
    JS.of_Z e * ln2 + 2 * atanh_series 24 (t * t) t 1.

Fixpoint cos_series (k : nat) (x2 term : float) (j : float) : float :=
  match k with
  | O => 0
  | S k' => term + cos_series k' x2 (- (term * x2) / ((j + 1) * (j + 2))) (j + 2)
  end.

Definition cos (x : float) : float :=
  if is_nan x || is_infinity x then nan
  else
    let t := x / (2 * JS.Math_PI) in
    let turns := (t + 0x1.8p+52) - 0x1.8p+52 in   (* [t] to the nearest integer *)
    let r := x - turns * (2 * JS.Math_PI) in
    cos_series 20 (r * r) 1 0.

Definition pow2 (x : float) : float := x * x.

#[export] Instance math : JS.MathLib :=
  {| JS.Math_log := log;
     JS.Math_cos := cos;
     JS.Math_pow2 := pow2;
     JS.Math_log_zero := eq_refl;
     JS.Math_cos_zero := eq_refl |}.

(** A reproducible stream standing for [Math.random]: a 32-bit integer
    hash of the draw number, scaled into [0, 1). *)
Definition hash32 (k : Z) : Z :=
  let a := ((k * 2654435761) mod 4294967296)%Z in
  let b := Z.lxor a (Z.shiftr a 15) in
  let c := ((b * 2246822519) mod 4294967296)%Z in
  Z.lxor c (Z.shiftr c 13).

Definition hash_draws (seed : Z) (n : N) : float :=
  JS.of_Z (hash32 (seed + Z.of_N n)) / 4294967296.

End RefMath.

(** ** The engine *)
Module Dashboard.

Import JS.
Local Open Scope float_scope.

(** *** Effects of [simulations]: the stream behind [Math.random]

    A computation reads the next draw of the stream and may stop with an
    exception; the state is the number of draws made so far, which stays
    observable when the computation throws. *)
Definition Rand (A : Type) : Type := (N -> float) -> N -> completion A * N.

Definition ret {A} (a : A) : Rand A := fun _ n => (Normal a, n).
Definition bind {A B} (c : Rand A) (k : A -> Rand B) : Rand B :=
  fun draws n =>
    match c draws n with
    | (Normal a, n') => k a draws n'
    | (Throw e, n') => (Throw e, n')
    end.
Definition lift {A} (c : completion A) : Rand A := fun _ n => (c, n).
Definition Math_random : Rand float := fun draws n => (Normal (draws n), N.succ n).

Notation "'let*' x ':=' c 'in' k" := (bind c (fun x => k))
  (at level 10, x name, c at level 100, k at level 200).

(** *** Object literals indexed by the scenario string

    [{...}[key]] finds an own property, else a property inherited from
    [Object.prototype] (a function or object, all of whose properties read
    here are [undefined]), else [undefined]. *)
Inductive lookup_result (A : Type) : Type :=
| Own (a : A)
| Inherited
| Undefined.
Arguments Own {A} a.
Arguments Inherited {A}.
Arguments Undefined {A}.

Definition object_prototype_names : gset string :=
  list_to_set
    [ "constructor"; "hasOwnProperty"; "isPrototypeOf"; "propertyIsEnumerable";
      "toLocaleString"; "toString"; "valueOf"; "__proto__";
      "__defineGetter__"; "__defineSetter__"; "__lookupGetter__";
      "__lookupSetter__" ]%string.

Definition object_get {A} (own : gmap string A) (key : string) : lookup_result A :=
  match own !! key with
  | Some a => Own a
  | None => if decide (key ∈ object_prototype_names) then Inherited else Undefined
  end.

(** [o.f] for a looked-up [o], read as a Number: a [TypeError] on
    [undefined], [ToNumber(undefined)] on an inherited object. *)
Definition get_number {A} (o : lookup_result A) (f : A -> float) : completion float :=
  match o with
  | Own a => Normal (f a)
  | Inherited => Normal nan
  | Undefined => Throw (TypeError "Cannot read properties of undefined")
  end.

(** *** [simulations] (lines 34-52) *)
Record scenario_params : Type := { p_mean : float; p_std : float; p_ms : float }.

Definition params_table : gmap string scenario_params :=
  list_to_map
    [ ("all"%string,          {| p_mean := 89.4;  p_std := 14.3; p_ms := 0.749 |});
      ("conservative"%string, {| p_mean := 74.2;  p_std := 8.5;  p_ms := 0.7 |});
      ("base"%string,         {| p_mean := 89.4;  p_std := 11.2; p_ms := 0.749 |});
      ("optimistic"%string,   {| p_mean := 108.7; p_std := 9.8;  p_ms := 0.82 |}) ].

Record sample : Type := { npv : float; ms : float }.

(** The Box-Muller variate of one iteration, from its two draws. *)
Definition box_muller `{MathLib} (u1 u2 : float) : float :=
  sqrt (-2 * Math_log u1) * Math_cos (2 * Math_PI * u2).

(** The body of the [for] loop, for the given number of remaining
    iterations. *)
Fixpoint simulations_loop `{MathLib} (params : lookup_result scenario_params)
    (remaining : nat) (results : list sample) : Rand (list sample) :=
  match remaining with
  | O => ret results
  | S remaining' =>
      let* u1 := Math_random in
      let* u2 := Math_random in
      let z := box_muller u1 u2 in
      let* mean := lift (get_number params p_mean) in
      let* std := lift (get_number params p_std) in
      let npv := Math_max 50 (mean + z * std) in
      let* pms := lift (get_number params p_ms) in
      let ms := Math_max 0.5 (Math_min 0.95 (pms + z * 0.08)) in
      simulations_loop params remaining' (results ++ [{| npv := npv; ms := ms |}])
  end.

Definition population_size : nat := Z.to_nat 10000.

Definition simulations `{MathLib} (scenario : string) : Rand (list sample) :=
  let params := object_get params_table scenario in
  simulations_loop params population_size [].

(** The selector values for which the tables have an own entry. *)
Definition recognized (scenario : string) : Prop :=
  scenario ∈ ["all"; "conservative"; "base"; "optimistic"]%string.

(** What the loop pushes, in closed form: the variates of [k] iterations
    started at draw number [n], and the sample built from a variate. *)
Fixpoint variates `{MathLib} (draws : N -> float) (n : N) (k : nat) : list float :=
  match k with
  | O => []
  | S k' => box_muller (draws n) (draws (N.succ n)) :: variates draws (N.succ (N.succ n)) k'
  end.

Definition sample_of (p : scenario_params) (z : float) : sample :=
  {| npv := Math_max 50 (p_mean p + z * p_std p);
     ms := Math_max 0.5 (Math_min 0.95 (p_ms p + z * 0.08)) |}.

(** The order of Numbers as a relation, and the floor of the data model. *)
Definition fle (x y : float) : Prop := (x <=? y) = true.
Definition ge50 (x : float) : Prop := (50 <=? x) = true.

(** The invariant of a sample of the data model. *)
Definition in_range (s : sample) : Prop :=
  (50 <=? npv s) = true /\ (0.5 <=? ms s) = true /\ (ms s <=? 0.95) = true.

(** *** [stats] (lines 55-84) *)

(** The comparator of [sort], and [Array.prototype.sort]: a stable sort in
    which [x] stays before [y] unless the comparator is positive on
    [(x, y)].  Every stable sort agrees with it on a comparator that is
    consistent, which [a.npv - b.npv] is when no [npv] is NaN. *)
Definition by_npv (a b : sample) : float := npv a - npv b.

Section Sort.
Context {A : Type} (cmp : A -> A -> float).

Fixpoint sort_insert (x : A) (l : list A) : list A :=
  match l with
  | [] => [x]
  | y :: l' => if 0 <? cmp x y then y :: sort_insert x l' else x :: l
  end.

Definition Array_sort (l : list A) : list A := foldr sort_insert [] l.

End Sort.

(** [arr.reduce(f)] without an initial value. *)
Definition reduce1 (f : float -> float -> float) (arr : list float) : completion float :=
  match arr with
  | [] => Throw (TypeError "Reduce of empty array with no initial value")
  | v :: vs => Normal (fold_left f vs v)
  end.

(** [arr[x]] for a Number [x]: [None] is [undefined]. *)
Definition at_index (arr : list float) (x : float) : option float :=
  match array_index x with
  | Some i => arr !! i
  | None => None
  end.

Module Stats.
Record t : Type := {
  mean : float;
  median : option float;
  p10 : option float;
  p90 : option float;
  min : float;
  max : float;
  std : float;
  positive : float;
  above80 : float;
  avgMs : float;
  msAbove75 : float;
}.
End Stats.

(** [simulations.filter(pred).length / simulations.length * 100] *)
Definition percent_where (pred : sample -> bool) (simulations : list sample) : float :=
  of_nat (length (List.filter pred simulations)) / of_nat (length simulations) * 100.

(** Lines 57-83, given the sorted copy and the population itself. *)
Definition stats_of `{MathLib} (sorted simulations : list sample) : completion Stats.t :=
  let vals := map npv sorted in
  let len := of_nat (length vals) in
  match reduce1 add vals with
  | Throw e => Throw e
  | Normal total =>
      let mean := total / len in
      let std :=
        sqrt (fold_left (fun sum v => sum + Math_pow2 (v - mean)) vals 0 / len) in
      Normal
        {| Stats.mean := mean;
           Stats.median := at_index vals (Math_floor (len * 0.5));
           Stats.p10 := at_index vals (Math_floor (len * 0.1));
           Stats.p90 := at_index vals (Math_floor (len * 0.9));
           Stats.min := Math_min_list vals;
           Stats.max := Math_max_list vals;
           Stats.std := std;
           Stats.positive := percent_where (fun s => 0 <? npv s) simulations;
           Stats.above80 := percent_where (fun s => 80 <? npv s) simulations;
           Stats.avgMs :=
             fold_left (fun sum s => sum + ms s) simulations 0
               / of_nat (length simulations) * 100;
           Stats.msAbove75 := percent_where (fun s => 0.75 <? ms s) simulations |}
  end.

(** The summary with its [avgMs] field replaced. *)
Definition with_avgMs (a : float) (st : Stats.t) : Stats.t :=
  {| Stats.mean := Stats.mean st; Stats.median := Stats.median st;
     Stats.p10 := Stats.p10 st; Stats.p90 := Stats.p90 st;
     Stats.min := Stats.min st; Stats.max := Stats.max st;
     Stats.std := Stats.std st; Stats.positive := Stats.positive st;
     Stats.above80 := Stats.above80 st; Stats.avgMs := a;
     Stats.msAbove75 := Stats.msAbove75 st |}.

(** [stats] as a function of the population: line 56 sorts a copy. *)
Definition stats `{MathLib} (simulations : list sample) : completion Stats.t :=
  stats_of (Array_sort by_npv simulations) simulations.

(** The same with the arrays in a store: [simulations] is a reference that
    [stats], [distribution] and [scatter] share; the spread allocates a new
    array and [sort] reorders that array in place. *)
Abbreviation loc := positive.
Abbreviation store := (gmap positive (list sample)).

Definition spread (r : loc) (h : store) : option (loc * store) :=
  match h !! r with
  | Some arr => let r' := fresh (dom h) in Some (r', <[r' := arr]> h)
  | None => None
  end.

Definition sort_in_place (cmp : sample -> sample -> float) (r : loc) (h : store) : store :=
  alter (Array_sort cmp) r h.

Definition stats_in `{MathLib} (simulations : loc) (h : store)
    : option (completion Stats.t * store) :=
  match spread simulations h with
  | None => None
  | Some (sorted, h1) =>
      let h2 := sort_in_place by_npv sorted h1 in
      match h2 !! sorted, h2 !! simulations with
      | Some sorted_arr, Some simulations_arr =>
          Some (stats_of sorted_arr simulations_arr, h2)
      | _, _ => None
      end
  end.

(** *** [distribution] (lines 87-101) *)
Module Bar.
Record t : Type := { x : float; y : float }.
End Bar.

Definition bins : nat := 40.

(** [dist[idx]++] on the array of counters: a key that is no index of the
    array leaves its elements alone.  The counters are integers far below
    [2^53], kept as [nat]. *)
Definition bin_index (st : Stats.t) (size : float) (s : sample) : float :=
  Math_min (of_nat bins - 1) (Math_floor ((npv s - Stats.min st) / size)).

Definition increment (dist : list nat) (idx : float) : list nat :=
  match array_index idx with
  | Some i => alter S i dist
  | None => dist
  end.

(** Line 89, the array after the [forEach] of lines 91-94, and the callback
    of the [map] of lines 96-99. *)
Definition bin_width (st : Stats.t) : float :=
  (Stats.max st - Stats.min st) / of_nat bins.

Definition counts (simulations : list sample) (st : Stats.t) : list nat :=
  fold_left (fun dist s => increment dist (bin_index st (bin_width st) s))
    simulations (replicate bins 0%nat).

Definition bar_of (st : Stats.t) (n : nat) (i count : nat) : Bar.t :=
  {| Bar.x := Stats.min st + (of_nat i + 0.5) * bin_width st;
     Bar.y := of_nat count / of_nat n * 100 |}.

Definition distribution (simulations : list sample) (st : Stats.t) : list Bar.t :=
  List.filter (fun d => 0 <? Bar.y d)
    (imap (bar_of st (length simulations)) (counts simulations st)).

(** Vocabulary for statements about the histogram: a sample whose value is
    finite and satisfies the floor; the (index, count) pairs of the bins
    with a count, in index order; the exact sum of the probabilities of a
    sequence of bars. *)
Definition finite_value (s : sample) : Prop :=
  ge50 (npv s) /\ is_finite (npv s) = true.

Fixpoint indexed_from {A} (i : nat) (l : list A) : list (nat * A) :=
  match l with
  | [] => []
  | a :: l' => (i, a) :: indexed_from (S i) l'
  end.

Definition nonzero_bins (dist : list nat) : list (nat * nat) :=
  List.filter (fun ic => (0 <? snd ic)%nat) (indexed_from 0 dist).

Definition Qsum (l : list Q) : Q := fold_right Qplus 0%Q l.

Definition total_percent (bars : list Bar.t) : Q :=
  Qsum (map (fun d => float2Q (Bar.y d)) bars).

(** The probability of a bin of [c] samples out of 10,000, and the facts
    about it that are checked by evaluation for every [c] up to 10,000: it is
    at most 100, positive unless [c] is 0, and within [10^-9] of [c / 100]. *)
Definition percent_of_Z (c : Z) : float :=
  of_uint63 (Uint63.of_Z c) / of_uint63 (Uint63.of_Z 10000) * 100.

Definition percent_ok (c : Z) : bool :=
  let y := percent_of_Z c in
  (y <=? 100) && ((c =? 0)%Z || (0 <? y)) &&
  Qle_bool (float2Q y - inject_Z c * (1 # 100)) (1 # 1000000000) &&
  Qle_bool (inject_Z c * (1 # 100) - float2Q y) (1 # 1000000000).

Fixpoint all_from (f : Z -> bool) (start : Z) (n : nat) : bool :=
  match n with
  | O => true
  | S n' => f start && all_from f (start + 1) n'
  end.

(** *** [trajectory] (lines 104-118) *)
Module Point.
Record t : Type := { year : string; expected : float; p90 : float; p10 : float }.
End Point.

Definition factors_table : gmap string (list float) :=
  list_to_map
    [ ("all"%string,          [0.15; 0.28; 0.42; 0.58; 0.75; 0.88]);
      ("conservative"%string, [0.1; 0.2; 0.32; 0.45; 0.6; 0.72]);
      ("base"%string,         [0.15; 0.28; 0.42; 0.58; 0.75; 0.88]);
      ("optimistic"%string,   [0.2; 0.38; 0.55; 0.72; 0.88; 1.05]) ].

(** [factors[i]], read as a Number. *)
Definition get_factor (factors : lookup_result (list float)) (i : nat) : completion float :=
  match factors with
  | Own l => Normal (ToNumber (l !! i))
  | Inherited => Normal nan
  | Undefined => Throw (TypeError "Cannot read properties of undefined")
  end.

(** [arr.map(f)] for a callback that may throw. *)
Fixpoint map_from {A B} (f : A -> nat -> completion B) (i : nat) (arr : list A)
    : completion (list B) :=
  match arr with
  | [] => Normal []
  | a :: arr' =>
      match f a i with
      | Throw e => Throw e
      | Normal b =>
          match map_from f (S i) arr' with
          | Throw e => Throw e
          | Normal bs => Normal (b :: bs)
          end
      end
  end.

Definition trajectory_point (factors : lookup_result (list float)) (st : Stats.t)
    (yr : Z) (i : nat) : completion Point.t :=
  match get_factor factors i with
  | Throw e => Throw e
  | Normal f =>
      Normal
        {| Point.year := pretty yr;
           Point.expected := toFixed1_Number (ToNumber (Stats.median st) * f);
           Point.p90 := toFixed1_Number (ToNumber (Stats.p90 st) * f * 1.05);
           Point.p10 := toFixed1_Number (ToNumber (Stats.p10 st) * f * 0.95) |}
  end.

Definition trajectory (scenario : string) (st : Stats.t) : completion (list Point.t) :=
  let factors := object_get factors_table scenario in
  map_from (trajectory_point factors st) 0 [2026; 2027; 2028; 2029; 2030; 2031]%Z.


(** *** [scatter] (lines 121-127) *)
Inductive risk_tier : Type := low | med | high.

Module Dot.
Record t : Type := { x : float; y : float; risk : risk_tier }.
End Dot.

Definition risk_of (s : sample) : risk_tier :=
  if 0.78 <? ms s then low else if 0.7 <? ms s then med else high.

Definition scatter_point (s : sample) : Dot.t :=
  {| Dot.x := toFixed1_Number (ms s * 100);
     Dot.y := toFixed1_Number (npv s);
     Dot.risk := risk_of s |}.

Definition scatter (simulations : list sample) : list Dot.t :=
  map scatter_point (take 800 simulations).

Definition scatter_in (simulations : loc) (h : store) : option (list Dot.t) :=
  scatter <$> h !! simulations.

(** *** Concrete inputs used to exercise the engine *)

(** A stream whose every first draw of an iteration is [0] and whose every
    second draw is [0.5]. *)
Definition zero_then_half (n : N) : float := if N.even n then 0 else 0.5.

(** Summary statistics with median 89.4, 10th percentile 74.2 and 90th
    percentile 108.7. *)
Definition example_stats : Stats.t :=
  {| Stats.mean := 89.4; Stats.median := Some 89.4;
     Stats.p10 := Some 74.2; Stats.p90 := Some 108.7;
     Stats.min := 50; Stats.max := 131.5; Stats.std := 11.2;
     Stats.positive := 100; Stats.above80 := 80.1;
     Stats.avgMs := 74.9; Stats.msAbove75 := 49.6 |}.

(** Three samples within the ranges of the data model. *)
Definition example_population : list sample :=
  [ {| npv := 60; ms := 0.5 |}; {| npv := 55; ms := 0.6 |}; {| npv := 70; ms := 0.55 |} ].

(** A stream whose first two draws are [0] and whose other draws are
    [0.5]: the first variate is [+Infinity]. *)
Definition zero_pair_first (n : N) : float := if (n <? 2)%N then 0 else 0.5.

(** Two samples of equal value. *)
Definition flat_population : list sample :=
  [ {| npv := 60; ms := 0.5 |}; {| npv := 60; ms := 0.6 |} ].

(** A population of 10,000 samples at two levels: one of value 70 and
    9,999 of value 60; and its summary statistics. *)
Definition two_level_population : list sample :=
  {| npv := 70; ms := 0.6 |} ::
  replicate (Nat.pred population_size) {| npv := 60; ms := 0.5 |}.

Definition two_level_stats : Stats.t :=
  {| Stats.mean := 60.000999999999998; Stats.median := Some 60;
     Stats.p10 := Some 60; Stats.p90 := Some 60;
     Stats.min := 60; Stats.max := 70; Stats.std := 0.099994999874993745;
     Stats.positive := 100; Stats.above80 := 0;
     Stats.avgMs := 50.001000000000005; Stats.msAbove75 := 0 |}.

(** The population that the [base] scenario produces on the stream
    [zero_pair_first]: its first sample has the value [+Infinity]; and its
    summary statistics. *)
Definition infinite_first_population : list sample :=
  {| npv := infinity; ms := 0.95 |} ::
  replicate (Nat.pred population_size)
    {| npv := 76.213007747826694; ms := 0.65480719819876199 |}.

Definition infinite_first_stats : Stats.t :=
  {| Stats.mean := infinity; Stats.median := Some 76.213007747826694;
     Stats.p10 := Some 76.213007747826694; Stats.p90 := Some 76.213007747826694;
     Stats.min := 76.213007747826694; Stats.max := infinity; Stats.std := nan;
     Stats.positive := 100; Stats.above80 := 0.01;
     Stats.avgMs := 65.483671747897262; Stats.msAbove75 := 0.01 |}.

(** The years of the projection horizon. *)
Definition years : list Z := [2026; 2027; 2028; 2029; 2030; 2031]%Z.

End Dashboard.

(** ** The component body around the engine

    The memoised values in the order in which a render computes them, and
    what the panels read from them. *)
Module Panels.

Import JS Dashboard.
Local Open Scope float_scope.

(** *** The [useMemo] chain (lines 34-127)

    A render evaluates the five callbacks in source order, each on the
    values of the earlier ones; an exception in one of them ends the
    render. *)
Module Memo.
Record t : Type := {
  simulations : list sample;
  stats : Stats.t;
  distribution : list Bar.t;
  trajectory : list Point.t;
  scatter : list Dot.t;
}.
End Memo.

Definition memos `{MathLib} (scenario : string) : Rand Memo.t :=
  let* sims := simulations scenario in
  let* st := lift (stats sims) in
  let dist := distribution sims st in
  let* traj := lift (trajectory scenario st) in
  ret {| Memo.simulations := sims; Memo.stats := st; Memo.distribution := dist;
         Memo.trajectory := traj; Memo.scatter := scatter sims |}.

(** *** The three series of the scatter chart (lines 578, 585, 592):
    [scatter.filter((d) => d.risk === r)] *)
Definition risk_eqb (a b : risk_tier) : bool :=
  match a, b with
  | low, low | med, med | high, high => true
  | _, _ => false
  end.

Definition series (r : risk_tier) (dots : list Dot.t) : list Dot.t :=
  List.filter (fun d => risk_eqb (Dot.risk d) r) dots.

(** *** Vocabulary for statements about the count-based fractions: the
    fraction of [c + 1] samples out of 10,000 exceeds that of [c]. *)
Definition percent_increasing (c : Z) : bool :=
  percent_of_Z c <? percent_of_Z (c + 1).

End Panels.

(** ** Vocabulary for statements about rounding to nearest

    The arithmetic of Numbers rounds an exact rational [p / q], scaled by a
    power of two, to the nearest representable one, the even one on a
    tie. *)
Module Rounding.

(** The integer nearest to [p / q], the even one on a tie. *)
Definition round_half_even (p q : Z) : Z :=
  let n := (p / q)%Z in
  match (2 * (p mod q) ?= q)%Z with
  | Lt => n
  | Eq => if Z.even n then n else (n + 1)%Z
  | Gt => (n + 1)%Z
  end.

(** Where [p / q] lies between its floor and the next integer. *)
Definition location_of (p q : Z) : location :=
  if (p mod q =? 0)%Z then loc_Exact else loc_Inexact (2 * (p mod q) ?= q)%Z.

(** A shift record that stands for the rational [p / q]. *)
Definition represents (r : shr_record) (p q : Z) : Prop :=
  shr_m r = (p / q)%Z /\ loc_of_shr_record r = location_of p q.

(** The Number of sign [s] with the integer significand [n <= 2^53] at the
    exponent [g]: a carry into the 54th bit moves to the next exponent, and
    an exponent above 971 is an infinity. *)
Definition canon (s : bool) (n g : Z) : spec_float :=
  match n with
  | Zpos p =>
      if (n <? 2 ^ 53)%Z then
        (if (g <=? 971)%Z then S754_finite s p g else S754_infinity s)
      else
        (if (g + 1 <=? 971)%Z then S754_finite s 4503599627370496 (g + 1)
         else S754_infinity s)
  | _ => S754_zero s
  end.

(** The signed significand and the exponent of a finite Number; a zero
    has the significand 0, at the exponent [e0]. *)
Definition signed_significand (e0 : Z) (x : spec_float) : Z * Z :=
  match x with
  | S754_finite s m e => (cond_Zopp s (Zpos m), e)
  | _ => (0%Z, e0)
  end.

(** A zero or a finite Number. *)
Definition zero_or_finite (x : spec_float) : Prop :=
  match x with
  | S754_zero _ | S754_finite _ _ _ => True
  | _ => False
  end.

(** The integer [n] of [toFixed(1)] for the magnitude [m 2^e]: the one for
    which [n / 10] is closest to it, the larger one on a tie. *)
Definition tenths (m : positive) (e : Z) : Z :=
  if (0 <=? e)%Z then (10 * Z.shiftl (Zpos m) e)%Z
  else Z.shiftr (20 * Zpos m + Z.shiftl 1 (- e)) (1 - e).

End Rounding.

(** * Vocabulary for the bars of the histogram *)
Module Bars.

Import JS Dashboard.
Local Open Scope float_scope.

(** The order of two bars along the value axis. *)
Definition bar_order (a b : Bar.t) : Prop := (Bar.x a <=? Bar.x b) = true.

(** The factor [i + 0.5] of the bin width in the coordinate of bar [i], and
    the check that it is a positive finite Number not above the next one. *)
Definition centre (i : nat) : float := of_nat i + 0.5.

Definition centre_ok (i : nat) : bool :=
  match Prim2SF (centre i) with
  | S754_finite false _ _ => (0 <=? centre i) && (centre i <=? centre (S i))
  | _ => false
  end.

End Bars.

(** * Vocabulary for the trajectory and the scatter chart *)
Module Projection.

Import JS Dashboard.
Local Open Scope float_scope.

(** A positive finite Number. *)
Definition positive_finite (f : float) : bool :=
  match Prim2SF f with
  | S754_finite false _ _ => true
  | _ => false
  end.

(** The point of year [yr], the [i]-th of the trajectory, for the growth
    factors [fs]. *)
Definition point_of (st : Stats.t) (fs : list float) (i : nat) (yr : Z) : Point.t :=
  let f := ToNumber (fs !! i) in
  {| Point.year := pretty yr;
     Point.expected := toFixed1_Number (ToNumber (Stats.median st) * f);
     Point.p90 := toFixed1_Number (ToNumber (Stats.p90 st) * f * 1.05);
     Point.p10 := toFixed1_Number (ToNumber (Stats.p10 st) * f * 0.95) |}.

(** The expected value of a point is inside its band. *)
Definition within_band (pt : Point.t) : Prop :=
  (Point.p10 pt <=? Point.expected pt) = true /\
  (Point.expected pt <=? Point.p90 pt) = true.

(** No curve is lower at [q] than at [p]. *)
Definition not_below (p q : Point.t) : Prop :=
  (Point.expected p <=? Point.expected q) = true /\
  (Point.p10 p <=? Point.p10 q) = true /\
  (Point.p90 p <=? Point.p90 q) = true.

(** The coordinates of a dot are those of a sample in range, and agree with
    the legend of its series: above 78 % for low risk, between 70 % and 78 %
    for medium risk, below 70 % for high risk, the ends included. *)
Definition dot_in_range (d : Dot.t) : Prop :=
  (50 <=? Dot.x d) = true /\ (Dot.x d <=? 95) = true /\ (50 <=? Dot.y d) = true.

Definition dot_in_tier (d : Dot.t) : Prop :=
  match Dot.risk d with
  | low => (78 <=? Dot.x d) = true
  | med => (70 <=? Dot.x d) = true /\ (Dot.x d <=? 78) = true
  | high => (Dot.x d <=? 70) = true
  end.

End Projection.

(** * The derived indicators of the cards (lines 230, 237, 414, 812, 860) *)
Module Indicators.

Import JS Dashboard.
Local Open Scope float_scope.

(** The Numbers that the cards format: the return multiple on the
    investment of 4.5, the return on investment in per cent, the average
    multiple, the spread between the 10th and the 90th percentile, and the
    downside probability. *)
Definition multiple (st : Stats.t) : float := ToNumber (Stats.median st) / 4.5.

Definition roi (st : Stats.t) : float := (ToNumber (Stats.median st) / 4.5 - 1) * 100.

Definition avg_multiple (st : Stats.t) : float := Stats.mean st / 4.5.

Definition spread (st : Stats.t) : float :=
  ToNumber (Stats.p90 st) - ToNumber (Stats.p10 st).

Definition downside (st : Stats.t) : float := 100 - Stats.positive st.

(** A host whose [Math.pow(x, 2)] is a Number that is not negative whenever
    [x] is a Number. *)
Definition square_not_negative `{MathLib} : Prop :=
  forall x, is_nan x = false -> signed_as false (Prim2SF (Math_pow2 x)).

End Indicators.
(** ** Facts about binary64 numbers *)
Module FloatFacts.

Import JS.
Local Open Scope float_scope.

(** **** Classification *)

Lemma SFcompare_refl (x : spec_float) :
  x <> S754_nan -> SFcompare x x = Some Eq.
Proof.
  destruct x as [s|s| |s m e]; try congruence; intros _; simpl.
  - reflexivity.
  - destruct s; reflexivity.
  - rewrite Z.compare_refl, Pos.compare_cont_refl. destruct s; reflexivity.
Qed.

Lemma SFcompare_nan_l (y : spec_float) : SFcompare S754_nan y = None.
Proof. destruct y; reflexivity. Qed.

Lemma SFcompare_nan_r (x : spec_float) : SFcompare x S754_nan = None.
Proof. destruct x; reflexivity. Qed.

Lemma SFcompare_some (x y : spec_float) :
  x <> S754_nan -> y <> S754_nan -> exists c, SFcompare x y = Some c.
Proof.
  destruct x, y; try congruence; intros _ _; simpl; eauto.
Qed.

Lemma SFcompare_none (x y : spec_float) :
  SFcompare x y = None -> x = S754_nan \/ y = S754_nan.
Proof. destruct x, y; simpl; auto; discriminate. Qed.

Lemma SFcompare_antisym (x y : spec_float) :
  SFcompare y x = option_map CompOpp (SFcompare x y).
Proof.
  destruct x as [sx|sx| |sx mx ex], y as [sy|sy| |sy my ey]; simpl;
    try reflexivity;
    try (destruct sx; reflexivity); try (destruct sy; reflexivity);
    try (destruct sx, sy; reflexivity).
  rewrite (Z.compare_antisym ex ey).
  assert (Hm : Pos.compare_cont Eq my mx = CompOpp (Pos.compare_cont Eq mx my))
    by (symmetry; apply (Pos.compare_cont_antisym mx my Eq)).
  rewrite Hm.
  destruct sx, sy; simpl; try reflexivity;
    destruct (ex ?= ey)%Z; simpl; try reflexivity.
Qed.

Lemma is_nan_true (x : float) : is_nan x = true <-> Prim2SF x = S754_nan.
Proof.
  unfold is_nan. rewrite eqb_spec. unfold SFeqb. split.
  - intros H. destruct (Prim2SF x) eqn:E; try reflexivity;
      rewrite SFcompare_refl in H by congruence; discriminate.
  - intros ->. reflexivity.
Qed.

Lemma is_nan_false (x : float) : is_nan x = false <-> Prim2SF x <> S754_nan.
Proof.
  rewrite <- is_nan_true. destruct (is_nan x); split; congruence.
Qed.

Lemma is_infinity_true (x : float) (s : bool) :
  Prim2SF x = S754_infinity s -> is_infinity x = true.
Proof.
  intros Hx. unfold is_infinity. rewrite eqb_spec, abs_spec, Hx. reflexivity.
Qed.

(** **** The order on Numbers *)

Lemma ltb_leb (x y : float) : (x <? y) = true -> (x <=? y) = true.
Proof.
  rewrite ltb_spec, leb_spec. unfold SFltb, SFleb.
  destruct (SFcompare _ _) as [[]|]; congruence.
Qed.

Lemma leb_not_ltb (x y : float) : (x <=? y) = true -> (y <? x) = false.
Proof.
  rewrite ltb_spec, leb_spec. unfold SFltb, SFleb.
  rewrite (SFcompare_antisym (Prim2SF x) (Prim2SF y)).
  destruct (SFcompare _ _) as [[]|]; simpl; congruence.
Qed.

Lemma ltb_not_ltb (x y : float) : (x <? y) = true -> (y <? x) = false.
Proof. intros H. apply leb_not_ltb, ltb_leb, H. Qed.

(** Two Numbers neither of which is NaN or below the other compare equal. *)
Lemma not_ltb_leb (x y : float) :
  is_nan x = false -> is_nan y = false -> (y <? x) = false -> (x <=? y) = true.
Proof.
  rewrite !is_nan_false, ltb_spec, leb_spec. unfold SFltb, SFleb.
  intros Hx Hy. rewrite (SFcompare_antisym (Prim2SF x) (Prim2SF y)).
  destruct (SFcompare_some _ _ Hx Hy) as [c ->]. destruct c; simpl; congruence.
Qed.

Lemma leb_not_nan_l (x y : float) : (x <=? y) = true -> is_nan x = false.
Proof.
  rewrite leb_spec, is_nan_false. unfold SFleb. intros H E. rewrite E in H.
  rewrite SFcompare_nan_l in H. discriminate.
Qed.

Lemma leb_not_nan_r (x y : float) : (x <=? y) = true -> is_nan y = false.
Proof.
  rewrite leb_spec, is_nan_false. unfold SFleb. intros H E. rewrite E in H.
  rewrite SFcompare_nan_r in H. discriminate.
Qed.

Lemma ltb_not_nan_l (x y : float) : (x <? y) = true -> is_nan x = false.
Proof. intros H. eapply leb_not_nan_l, ltb_leb, H. Qed.

Lemma ltb_not_nan_r (x y : float) : (x <? y) = true -> is_nan y = false.
Proof. intros H. eapply leb_not_nan_r, ltb_leb, H. Qed.

Ltac compare_cases :=
  repeat match goal with
         | H : context [(?a ?= ?b)%Z] |- _ => destruct (Z.compare_spec a b)
         | |- context [(?a ?= ?b)%Z] => destruct (Z.compare_spec a b)
         | H : context [(?a ?= ?b)%positive] |- _ => destruct (Pos.compare_spec a b)
         | |- context [(?a ?= ?b)%positive] => destruct (Pos.compare_spec a b)
         end.

Lemma SFcompare_trans (x y z : spec_float) (c1 c2 : comparison) :
  SFcompare x y = Some c1 -> SFcompare y z = Some c2 -> c1 <> Gt -> c2 <> Gt ->
  SFcompare x z = Some (comp_trans c1 c2).
Proof.
  destruct x as [sx|sx| |sx mx ex], y as [sy|sy| |sy my ey], z as [sz|sz| |sz mz ez];
    simpl; try discriminate;
    try (destruct sx; try destruct sy; try destruct sz; simpl;
         intros [= <-] [= <-]; simpl; congruence).
  all: rewrite ?Pos.compare_cont_spec; simpl.
  all: destruct sx, sy, sz; simpl; intros [= <-] [= <-]; simpl; try congruence.
  all: compare_cases; simpl; intros; try congruence; try lia.
Qed.

Lemma leb_trans (x y z : float) :
  (x <=? y) = true -> (y <=? z) = true -> (x <=? z) = true.
Proof.
  rewrite !leb_spec. unfold SFleb.
  destruct (SFcompare (Prim2SF x) (Prim2SF y)) as [c1|] eqn:E1; [|discriminate].
  destruct (SFcompare (Prim2SF y) (Prim2SF z)) as [c2|] eqn:E2; [|destruct c1; discriminate].
  intros H1 H2.
  rewrite (SFcompare_trans _ _ _ _ _ E1 E2) by (destruct c1, c2; congruence).
  destruct c1, c2; simpl; congruence.
Qed.

Lemma leb_ltb_trans (x y z : float) :
  (x <=? y) = true -> (y <? z) = true -> (x <? z) = true.
Proof.
  rewrite leb_spec, !ltb_spec. unfold SFleb, SFltb.
  destruct (SFcompare (Prim2SF x) (Prim2SF y)) as [c1|] eqn:E1; [|discriminate].
  destruct (SFcompare (Prim2SF y) (Prim2SF z)) as [c2|] eqn:E2; [|destruct c1; discriminate].
  intros H1 H2.
  rewrite (SFcompare_trans _ _ _ _ _ E1 E2) by (destruct c1, c2; congruence).
  destruct c1, c2; simpl; congruence.
Qed.

Lemma ltb_leb_trans (x y z : float) :
  (x <? y) = true -> (y <=? z) = true -> (x <? z) = true.
Proof.
  rewrite leb_spec, !ltb_spec. unfold SFleb, SFltb.
  destruct (SFcompare (Prim2SF x) (Prim2SF y)) as [c1|] eqn:E1; [|discriminate].
  destruct (SFcompare (Prim2SF y) (Prim2SF z)) as [c2|] eqn:E2; [|destruct c1; discriminate].
  intros H1 H2.
  rewrite (SFcompare_trans _ _ _ _ _ E1 E2) by (destruct c1, c2; congruence).
  destruct c1, c2; simpl; congruence.
Qed.

(** **** Rounding

    [binary_round_aux] on a non-negative significand yields a zero, a finite
    number or an infinity of the requested sign, never NaN. *)
Lemma signed_as_not_nan sx r : signed_as sx r -> r <> S754_nan.
Proof. destruct r; simpl; congruence. Qed.

Lemma shr_1_nonneg (r : shr_record) :
  (0 <= shr_m r)%Z -> (0 <= shr_m (shr_1 r))%Z.
Proof.
  destruct r as [m r s]; simpl. destruct m as [|[p|p|]|[p|p|]]; simpl; lia.
Qed.

Lemma iter_shr_1_nonneg (p : positive) (r : shr_record) :
  (0 <= shr_m r)%Z -> (0 <= shr_m (iter_pos shr_1 p r))%Z.
Proof.
  revert r. induction p as [p IH|p IH|]; intros r Hr; simpl.
  - apply IH, IH, shr_1_nonneg, Hr.
  - apply IH, IH, Hr.
  - apply shr_1_nonneg, Hr.
Qed.

Lemma shr_nonneg (r : shr_record) (e n : Z) :
  (0 <= shr_m r)%Z -> (0 <= shr_m (fst (shr r e n)))%Z.
Proof.
  intros Hr. unfold shr. destruct n; simpl; auto using iter_shr_1_nonneg.
Qed.

Lemma shr_record_of_loc_m (m : Z) (l : location) :
  shr_m (shr_record_of_loc m l) = m.
Proof. destruct l as [|[]]; reflexivity. Qed.

Lemma shr_fexp_nonneg (m e : Z) (l : location) :
  (0 <= m)%Z -> (0 <= shr_m (fst (shr_fexp prec emax m e l)))%Z.
Proof.
  intros Hm. unfold shr_fexp. apply shr_nonneg. now rewrite shr_record_of_loc_m.
Qed.

Lemma round_nearest_even_nonneg (m : Z) (l : location) :
  (0 <= m)%Z -> (0 <= round_nearest_even m l)%Z.
Proof.
  intros Hm. unfold round_nearest_even.
  destruct l as [|[]]; try destruct (Z.even m); lia.
Qed.

Lemma binary_round_aux_signed (sx : bool) (mx ex : Z) (lx : location) :
  (0 <= mx)%Z -> signed_as sx (binary_round_aux prec emax sx mx ex lx).
Proof.
  intros Hm. unfold binary_round_aux.
  pose proof (shr_fexp_nonneg mx ex lx Hm) as H1.
  destruct (shr_fexp prec emax mx ex lx) as [mrs' e']. simpl in H1.
  pose proof (shr_fexp_nonneg _ e' loc_Exact
                (round_nearest_even_nonneg _ (loc_of_shr_record mrs') H1)) as H2.
  destruct (shr_fexp prec emax _ e' loc_Exact) as [mrs'' e'']. simpl in H2.
  destruct (shr_m mrs'') as [|m|m]; simpl; try reflexivity; try lia.
  destruct (e'' <=? emax - prec)%Z; reflexivity.
Qed.

Lemma binary_round_signed (sx : bool) (mx : positive) (ex : Z) :
  signed_as sx (binary_round prec emax sx mx ex).
Proof.
  unfold binary_round. destruct (shl_align _ _ _) as [mz ez].
  apply binary_round_aux_signed. lia.
Qed.

Lemma binary_normalize_not_nan (m e : Z) (sz : bool) :
  binary_normalize prec emax m e sz <> S754_nan.
Proof.
  destruct m; simpl; try congruence;
    eapply signed_as_not_nan, binary_round_signed.
Qed.

(** A product with a finite non-zero Number, and a sum with a finite
    Number, are NaN only when the other operand is. *)
Lemma SFmul_finite_not_nan (x : spec_float) (s : bool) (m : positive) (e : Z) :
  x <> S754_nan -> SF64mul x (S754_finite s m e) <> S754_nan.
Proof.
  destruct x as [sx|sx| |sx mx ex]; simpl; try congruence. intros _.
  eapply signed_as_not_nan, binary_round_aux_signed. lia.
Qed.

Lemma SFadd_finite_not_nan (y : spec_float) (s : bool) (m : positive) (e : Z) :
  y <> S754_nan -> SF64add (S754_finite s m e) y <> S754_nan.
Proof.
  destruct y as [sy|sy| |sy my ey]; simpl; try congruence. intros _.
  apply binary_normalize_not_nan.
Qed.

Lemma mul_add_not_nan (a z b : float) (sa sb : bool) (ma mb : positive) (ea eb : Z) :
  Prim2SF a = S754_finite sa ma ea ->
  Prim2SF b = S754_finite sb mb eb ->
  is_nan z = false -> is_nan (a + z * b) = false.
Proof.
  intros Ha Hb Hz. apply is_nan_false in Hz. apply is_nan_false.
  rewrite add_spec, mul_spec, Ha, Hb.
  apply SFadd_finite_not_nan, SFmul_finite_not_nan, Hz.
Qed.

(** **** Significands *)

Lemma digits2_pos_bounds (m : positive) :
  (2 ^ (Zpos (digits2_pos m) - 1) <= Zpos m < 2 ^ Zpos (digits2_pos m))%Z.
Proof.
  induction m as [m IH|m IH|]; simpl digits2_pos.
  - rewrite Pos2Z.inj_succ, Z.pow_succ_r by lia.
    replace (Z.succ (Zpos (digits2_pos m)) - 1)%Z with (Z.succ (Zpos (digits2_pos m) - 1))%Z by lia.
    rewrite Z.pow_succ_r by lia. lia.
  - rewrite Pos2Z.inj_succ, Z.pow_succ_r by lia.
    replace (Z.succ (Zpos (digits2_pos m)) - 1)%Z with (Z.succ (Zpos (digits2_pos m) - 1))%Z by lia.
    rewrite Z.pow_succ_r by lia. lia.
  - simpl. lia.
Qed.

Lemma valid_finite (x : float) (s : bool) (m : positive) (e : Z) :
  Prim2SF x = S754_finite s m e ->
  (-1074 <= e <= 971)%Z /\ (Zpos m < 2 ^ 53)%Z /\ ((-1074 < e)%Z -> (2 ^ 52 <= Zpos m)%Z).
Proof.
  intros Hx. pose proof (Prim2SF_valid x) as Hv. rewrite Hx in Hv.
  unfold valid_binary, bounded, canonical_mantissa, fexp in Hv.
  change (SpecFloat.emin prec emax) with (-1074)%Z in Hv.
  change prec with 53%Z in Hv. change emax with 1024%Z in Hv.
  apply andb_prop in Hv. destruct Hv as [Hc He].
  apply Z.eqb_eq in Hc. apply Z.leb_le in He.
  pose proof (digits2_pos_bounds m) as [Hlo Hhi].
  set (d := Zpos (digits2_pos m)) in *.
  assert (Hd : (0 < d)%Z) by (unfold d; lia).
  split; [lia|]. split.
  - assert (d <= 53)%Z by lia.
    eapply Z.lt_le_trans; [exact Hhi|]. apply Z.pow_le_mono_r; lia.
  - intros Hn. assert (d = 53)%Z by lia.
    replace 52%Z with (d - 1)%Z by lia. exact Hlo.
Qed.


(** **** Shifting right never loses a whole positive significand *)

Lemma shr_1_m (r : shr_record) :
  (0 <= shr_m r)%Z -> shr_m (shr_1 r) = (shr_m r / 2)%Z.
Proof.
  destruct r as [m r s]. cbn [shr_m]. intros Hm.
  destruct m as [|[p|p|]|p]; cbn [shr_1 shr_m]; try lia; try reflexivity.
  - apply Z.div_unique with 1%Z; lia.
  - apply Z.div_unique with 0%Z; lia.
Qed.

Lemma iter_shr_1_m (p : positive) :
  forall r : shr_record, (0 <= shr_m r)%Z ->
    shr_m (iter_pos shr_1 p r) = (shr_m r / 2 ^ Zpos p)%Z.
Proof.
  induction p as [p IH|p IH|]; intros r Hr; simpl iter_pos.
  - rewrite IH by auto using iter_shr_1_nonneg, shr_1_nonneg.
    rewrite IH by auto using shr_1_nonneg. rewrite shr_1_m by assumption.
    rewrite !Z.div_div by lia. f_equal.
    replace (Zpos p~1) with (1 + Zpos p + Zpos p)%Z by lia.
    rewrite !Z.pow_add_r by lia. lia.
  - rewrite IH by auto using iter_shr_1_nonneg.
    rewrite IH by assumption.
    rewrite !Z.div_div by lia. f_equal.
    replace (Zpos p~0) with (Zpos p + Zpos p)%Z by lia.
    rewrite !Z.pow_add_r by lia. lia.
  - rewrite shr_1_m by assumption. reflexivity.
Qed.

Lemma shr_fexp_pos (m : positive) (e : Z) (l : location) :
  (-1074 <= e)%Z ->
  (0 < shr_m (fst (shr_fexp prec emax (Zpos m) e l)))%Z /\
  (-1074 <= snd (shr_fexp prec emax (Zpos m) e l))%Z.
Proof.
  intros He. unfold shr_fexp, shr, fexp. cbn [Zdigits2].
  change (SpecFloat.emin prec emax) with (-1074)%Z. change prec with 53%Z.
  pose proof (digits2_pos_bounds m) as [Hlo _].
  set (d := Zpos (digits2_pos m)) in *.
  destruct (Z.max (d + e - 53) (-1074) - e)%Z as [|p|p] eqn:En; cbn [fst snd];
    rewrite ?shr_record_of_loc_m; try lia.
  rewrite iter_shr_1_m by (rewrite shr_record_of_loc_m; lia).
  rewrite shr_record_of_loc_m. split; [|lia].
  assert (Hp : Zpos p = (d - 53)%Z) by lia.
  apply Z.div_str_pos. split; [apply Z.pow_pos_nonneg; lia|].
  etransitivity; [|exact Hlo]. apply Z.pow_le_mono_r; lia.
Qed.

Lemma binary_round_aux_nonzero (sx : bool) (m : positive) (e : Z) (l : location) :
  (-1074 <= e)%Z ->
  nonzero_signed sx (binary_round_aux prec emax sx (Zpos m) e l).
Proof.
  intros He. unfold binary_round_aux.
  destruct (shr_fexp_pos m e l He) as [H1 H1e].
  destruct (shr_fexp prec emax (Zpos m) e l) as [mrs' e']. cbn [fst snd] in H1, H1e.
  assert (Hr : (0 < round_nearest_even (shr_m mrs') (loc_of_shr_record mrs'))%Z).
  { unfold round_nearest_even.
    destruct (loc_of_shr_record mrs') as [|[]]; try destruct (Z.even _); lia. }
  destruct (round_nearest_even (shr_m mrs') (loc_of_shr_record mrs')) as [|m''|m''];
    try lia.
  destruct (shr_fexp_pos m'' e' loc_Exact H1e) as [H2 _].
  destruct (shr_fexp prec emax (Zpos m'') e' loc_Exact) as [mrs'' e'']. cbn [fst] in H2.
  destruct (shr_m mrs'') as [|q|q]; try lia.
  destruct (e'' <=? emax - prec)%Z; reflexivity.
Qed.

Lemma binary_round_nonzero (sx : bool) (m : positive) (e : Z) :
  (-1074 <= e)%Z -> nonzero_signed sx (binary_round prec emax sx m e).
Proof.
  intros He. unfold binary_round, shl_align, fexp.
  change (SpecFloat.emin prec emax) with (-1074)%Z.
  destruct (Z.max (Zpos (digits2_pos m) + e - prec) (-1074) - e)%Z eqn:En;
    apply binary_round_aux_nonzero; lia.
Qed.

Lemma binary_normalize_pos (m e : Z) :
  (0 < m)%Z -> (-1074 <= e)%Z ->
  nonzero_signed false (binary_normalize prec emax m e false).
Proof.
  intros Hm He. destruct m; try lia. now apply binary_round_nonzero.
Qed.

Lemma binary_normalize_neg (m e : Z) :
  (m < 0)%Z -> signed_as true (binary_normalize prec emax m e false).
Proof.
  intros Hm. destruct m; try lia. apply binary_round_signed.
Qed.

Lemma Pos_iter_xO (m d : positive) :
  Zpos (Pos.iter xO m d) = (Zpos m * 2 ^ Zpos d)%Z.
Proof.
  induction d as [|d IH] using Pos.peano_ind.
  - simpl. lia.
  - rewrite Pos.iter_succ, Pos2Z.inj_xO, IH, Pos2Z.inj_succ, Z.pow_succ_r by lia. lia.
Qed.

Lemma shl_align_value (m : positive) (e e' : Z) :
  (e' <= e)%Z -> Zpos (fst (shl_align m e e')) = (Zpos m * 2 ^ (e - e'))%Z.
Proof.
  intros He. unfold shl_align.
  destruct (e' - e)%Z as [|d|d] eqn:Ed; cbn [fst]; try lia.
  - replace (e - e')%Z with 0%Z by lia. lia.
  - rewrite Pos_iter_xO. f_equal. f_equal. lia.
Qed.

(** The sign of a difference of two normal positive Numbers is the sign
    of their comparison: the comparator [a - b] of [sort] is positive
    exactly when [b < a]. *)
Lemma SFsub_pos_iff (mx my : positive) (ex ey : Z) :
  (2 ^ 52 <= Zpos mx < 2 ^ 53)%Z -> (2 ^ 52 <= Zpos my < 2 ^ 53)%Z ->
  (-1074 <= ex)%Z -> (-1074 <= ey)%Z ->
  SFltb (S754_zero false) (SF64sub (S754_finite false mx ex) (S754_finite false my ey)) =
  SFltb (S754_finite false my ey) (S754_finite false mx ex).
Proof.
  intros Hmx Hmy Hex Hey. unfold SF64sub, SFsub. cbn [cond_Zopp].
  set (ez := Z.min ex ey).
  assert (Hx : Zpos (fst (shl_align mx ex ez)) = (Zpos mx * 2 ^ (ex - ez))%Z)
    by (apply shl_align_value; lia).
  assert (Hy : Zpos (fst (shl_align my ey ez)) = (Zpos my * 2 ^ (ey - ez))%Z)
    by (apply shl_align_value; lia).
  set (D := (Zpos (fst (shl_align mx ex ez)) - Zpos (fst (shl_align my ey ez)))%Z).
  assert (HD : (D = Zpos mx * 2 ^ (ex - ez) - Zpos my * 2 ^ (ey - ez))%Z)
    by (unfold D; lia).
  clearbody D. clear Hx Hy.
  assert (Hez : (-1074 <= ez)%Z) by lia.
  assert (Hpow : forall k, (0 < k)%Z -> (2 <= 2 ^ k)%Z).
  { intros k Hk. change 2%Z with (2 ^ 1)%Z at 1. apply Z.pow_le_mono_r; lia. }
  unfold SFltb at 2. cbn [SFcompare]. rewrite Pos.compare_cont_spec. cbn [Pos.switch_Eq].
  destruct (Z.compare_spec ey ex) as [He|He|He].
  - (* equal exponents *)
    subst ey. replace (ex - ez)%Z with 0%Z in HD by lia.
    rewrite Z.pow_0_r, !Z.mul_1_r in HD.
    destruct (Pos.compare_spec my mx) as [Hm|Hm|Hm].
    + subst my. replace D with 0%Z by lia. reflexivity.
    + pose proof (binary_normalize_pos D ez ltac:(lia) Hez) as Hs.
      destruct (binary_normalize prec emax D ez false) as [|[]| |[]]; simpl in Hs;
        try contradiction; try discriminate; reflexivity.
    + pose proof (binary_normalize_neg D ez ltac:(lia)) as Hs.
      destruct (binary_normalize prec emax D ez false) as [[]|[]| |[]]; simpl in Hs;
        try contradiction; try discriminate; reflexivity.
  - (* y has the smaller exponent *)
    replace (ey - ez)%Z with 0%Z in HD by lia.
    rewrite Z.pow_0_r, Z.mul_1_r in HD.
    pose proof (Hpow (ex - ez)%Z ltac:(lia)).
    assert (0 < D)%Z by nia.
    pose proof (binary_normalize_pos D ez ltac:(lia) Hez) as Hs.
    destruct (binary_normalize prec emax D ez false) as [|[]| |[]]; simpl in Hs;
      try contradiction; try discriminate; reflexivity.
  - replace (ex - ez)%Z with 0%Z in HD by lia.
    rewrite Z.pow_0_r, Z.mul_1_r in HD.
    pose proof (Hpow (ey - ez)%Z ltac:(lia)).
    assert (D < 0)%Z by nia.
    pose proof (binary_normalize_neg D ez ltac:(lia)) as Hs.
    destruct (binary_normalize prec emax D ez false) as [[]|[]| |[]]; simpl in Hs;
      try contradiction; try discriminate; reflexivity.
Qed.

End FloatFacts.

(** ** The sampler *)
Module SamplerFacts.

Import JS Dashboard FloatFacts.
Local Open Scope float_scope.

Lemma leb_refl (a : float) : is_nan a = false -> (a <=? a) = true.
Proof.
  rewrite is_nan_false, leb_spec. unfold SFleb. intros Ha.
  now rewrite SFcompare_refl.
Qed.

Lemma Math_max_not_nan (a b : float) :
  is_nan a = false -> is_nan b = false -> is_nan (Math_max a b) = false.
Proof.
  intros Ha Hb. unfold Math_max. rewrite Ha, Hb. simpl.
  repeat match goal with |- context [if ?c then _ else _] => destruct c end; assumption.
Qed.

Lemma Math_min_not_nan (a b : float) :
  is_nan a = false -> is_nan b = false -> is_nan (Math_min a b) = false.
Proof.
  intros Ha Hb. unfold Math_min. rewrite Ha, Hb. simpl.
  repeat match goal with |- context [if ?c then _ else _] => destruct c end; assumption.
Qed.

Lemma Math_max_lower (a x : float) :
  is_nan a = false -> is_nan x = false -> (a <=? Math_max a x) = true.
Proof.
  intros Ha Hx. unfold Math_max. rewrite Ha, Hx. simpl.
  destruct (a <? x) eqn:E1; [now apply ltb_leb|].
  destruct (x <? a) eqn:E2; [now apply leb_refl|].
  destruct (get_sign a); [now apply not_ltb_leb | now apply leb_refl].
Qed.

Lemma Math_max_upper (a b c : float) :
  (a <=? c) = true -> (b <=? c) = true -> (Math_max a b <=? c) = true.
Proof.
  intros Ha Hb. unfold Math_max.
  rewrite (leb_not_nan_l _ _ Ha), (leb_not_nan_l _ _ Hb). simpl.
  repeat match goal with |- context [if ?c then _ else _] => destruct c end; assumption.
Qed.

Lemma Math_min_upper (a y : float) :
  is_nan a = false -> is_nan y = false -> (Math_min a y <=? a) = true.
Proof.
  intros Ha Hy. unfold Math_min. rewrite Ha, Hy. simpl.
  destruct (a <? y) eqn:E1; [now apply leb_refl|].
  destruct (y <? a) eqn:E2; [now apply ltb_leb|].
  destruct (get_sign a); [now apply leb_refl | now apply not_ltb_leb].
Qed.

(** The clamps of one iteration put a sample in range unless the value
    clamped is NaN. *)
Lemma sample_of_in_range (p : scenario_params) (z : float) :
  is_nan (p_mean p + z * p_std p) = false ->
  is_nan (p_ms p + z * 0.08) = false ->
  in_range (sample_of p z).
Proof.
  intros Hv Hm. unfold in_range, sample_of. simpl. repeat split.
  - now apply Math_max_lower.
  - apply Math_max_lower; [reflexivity|]. now apply Math_min_not_nan.
  - apply Math_max_upper; [reflexivity|]. now apply Math_min_upper.
Qed.

(** The four parameter sets. *)
Lemma recognized_params (scenario : string) :
  recognized scenario ->
  exists p, object_get params_table scenario = Own p /\
    exists m1 e1 m2 e2 m3 e3,
      Prim2SF (p_mean p) = S754_finite false m1 e1 /\
      Prim2SF (p_std p) = S754_finite false m2 e2 /\
      Prim2SF (p_ms p) = S754_finite false m3 e3.
Proof.
  unfold recognized. rewrite !elem_of_cons, elem_of_nil.
  intros [->|[->|[->|[->|[]]]]];
    (eexists; split; [vm_compute; reflexivity|]);
    do 6 eexists; repeat split; vm_compute; reflexivity.
Qed.

Lemma simulations_loop_step `{MathLib} (p : scenario_params) (k : nat)
    (results : list sample) (draws : N -> float) (n : N) :
  simulations_loop (Own p) (S k) results draws n =
  simulations_loop (Own p) k
    (results ++ [sample_of p (box_muller (draws n) (draws (N.succ n)))])
    draws (N.succ (N.succ n)).
Proof. reflexivity. Qed.

(** The loop in closed form: it makes two draws an iteration and pushes the
    sample of their variate. *)
Lemma simulations_loop_own `{MathLib} (p : scenario_params) (k : nat) :
  forall (results : list sample) (draws : N -> float) (n : N),
    simulations_loop (Own p) k results draws n =
    (Normal (results ++ map (sample_of p) (variates draws n k)),
     (n + 2 * N.of_nat k)%N).
Proof.
  induction k as [|k IH]; intros results draws n.
  - simpl. unfold ret. now rewrite app_nil_r, N.add_0_r.
  - rewrite simulations_loop_step, IH. f_equal; [|lia].
    f_equal. rewrite <- app_assoc. reflexivity.
Qed.

Lemma length_variates `{MathLib} (draws : N -> float) (k : nat) :
  forall n, length (variates draws n k) = k.
Proof. induction k as [|k IH]; intros n; simpl; [reflexivity|now rewrite IH]. Qed.

(** The variate of iteration [i] is made from the draws [n + 2i] and
    [n + 2i + 1]. *)
Lemma variates_lookup `{MathLib} (draws : N -> float) (k : nat) :
  forall (n : N) (i : nat), (i < k)%nat ->
    variates draws n k !! i =
    Some (box_muller (draws (n + 2 * N.of_nat i)%N) (draws (n + 2 * N.of_nat i + 1)%N)).
Proof.
  induction k as [|k IH]; intros n i Hi; [lia|].
  destruct i as [|i]; simpl.
  - now rewrite N.add_0_r, N.add_1_r.
  - rewrite IH by lia. do 3 f_equal; lia.
Qed.

Lemma map_replicate {A B} (f : A -> B) (k : nat) (x : A) :
  map f (replicate k x) = replicate k (f x).
Proof. induction k as [|k IH]; simpl; [reflexivity|now rewrite IH]. Qed.

(** On a stream of period two every iteration sees the same pair of draws. *)
Lemma variates_periodic `{MathLib} (draws : N -> float) (a b : float) (k : nat) :
  forall n,
    (forall j, draws (n + 2 * j)%N = a) ->
    (forall j, draws (n + 2 * j + 1)%N = b) ->
    variates draws n k = replicate k (box_muller a b).
Proof.
  induction k as [|k IH]; intros n Ha Hb; simpl; [reflexivity|].
  f_equal.
  - f_equal.
    + rewrite <- (Ha 0%N). f_equal. lia.
    + rewrite <- (Hb 0%N). f_equal. lia.
  - apply IH; intros j.
    + rewrite <- (Ha (j + 1)%N). f_equal. lia.
    + rewrite <- (Hb (j + 1)%N). f_equal. lia.
Qed.

Lemma zero_then_half_even (j : N) : zero_then_half (0 + 2 * j)%N = 0.
Proof.
  unfold zero_then_half. rewrite N.add_0_l, N.even_mul. reflexivity.
Qed.

Lemma zero_then_half_odd (j : N) : zero_then_half (0 + 2 * j + 1)%N = 0.5.
Proof.
  unfold zero_then_half. rewrite N.add_0_l, N.even_add, N.even_mul. reflexivity.
Qed.

Lemma population_size_succ : exists k, population_size = S k.
Proof.
  destruct population_size as [|k] eqn:E; [|now exists k].
  unfold population_size in E. lia.
Qed.

Lemma N_population_size : N.of_nat population_size = 10000%N.
Proof. unfold population_size. lia. Qed.

(** A run on a recognized key whose variates are not NaN. *)
Lemma simulations_result `{MathLib} (scenario : string) (draws : N -> float) (n0 : N) :
  recognized scenario ->
  Forall (fun z => is_nan z = false) (variates draws n0 population_size) ->
  exists pop,
    simulations scenario draws n0 = (Normal pop, (n0 + 20000)%N) /\
    length pop = population_size /\
    Forall in_range pop.
Proof.
  intros Hrec Hz.
  destruct (recognized_params scenario Hrec)
    as (p & Hp & m1 & e1 & m2 & e2 & m3 & e3 & Hmean & Hstd & Hms).
  unfold simulations. rewrite Hp, simulations_loop_own, N_population_size.
  cbn [app]. eexists. split; [reflexivity|]. split.
  - now rewrite length_map, length_variates.
  - apply Forall_map. eapply Forall_impl; [exact Hz|]. intros z Hnan.
    apply sample_of_in_range.
    + eapply mul_add_not_nan; [exact Hmean | exact Hstd | exact Hnan].
    + eapply (mul_add_not_nan _ _ 0.08);
        [exact Hms | vm_compute; reflexivity | exact Hnan].
Qed.

(** On a key inherited from [Object.prototype] the loop never throws. *)
Lemma simulations_loop_inherited `{MathLib} (k : nat) :
  forall (results : list sample) (draws : N -> float) (n : N),
    is_throw (fst (simulations_loop Inherited k results draws n)) = false.
Proof.
  induction k as [|k IH]; intros results draws n; [reflexivity|].
  change (simulations_loop Inherited (S k) results draws n)
    with (simulations_loop Inherited k
            (results ++ [{| npv := Math_max 50 (nan + box_muller (draws n) (draws (N.succ n)) * nan);
                            ms := Math_max 0.5 (Math_min 0.95
                                    (nan + box_muller (draws n) (draws (N.succ n)) * 0.08)) |}])
            draws (N.succ (N.succ n))).
  apply IH.
Qed.

End SamplerFacts.

(** ** The aggregator *)
Module StatsFacts.

Import JS Dashboard FloatFacts SamplerFacts.
Local Open Scope float_scope.

(** **** Values that satisfy the floor of the data model *)

Lemma ge50_shape (x : float) :
  (50 <=? x) = true ->
  Prim2SF x = S754_infinity false \/
  exists m e, Prim2SF x = S754_finite false m e /\ (-47 <= e)%Z /\
              (2 ^ 52 <= Zpos m < 2 ^ 53)%Z.
Proof.
  rewrite leb_spec.
  assert (E50 : exists e50, e50 = (-47)%Z /\
            Prim2SF 50 = S754_finite false 7036874417766400 e50) by (eexists; split; reflexivity).
  destruct E50 as (e50 & He50 & ->).
  destruct (Prim2SF x) as [s|s| |s m e] eqn:E; unfold SFleb; intros Hc;
    try destruct s; simpl in Hc; try discriminate; auto.
  right. exists m, e. split; [reflexivity|].
  destruct (valid_finite x _ _ _ E) as (He & Hm & Hn).
  assert (-47 <= e)%Z by (destruct (Z.compare_spec e50 e); try lia; discriminate).
  split; [assumption|]. split; [apply Hn; lia|assumption].
Qed.

(** The comparator of [sort] agrees with the order of the values. *)
Lemma sub_pos_iff (x y : float) :
  (50 <=? x) = true -> (50 <=? y) = true -> (0 <? x - y) = (y <? x).
Proof.
  intros Hx Hy. rewrite !ltb_spec, sub_spec.
  change (Prim2SF 0) with (S754_zero false).
  destruct (ge50_shape x Hx) as [Ex|(mx & ex & Ex & Hex & Hmx)],
           (ge50_shape y Hy) as [Ey|(my & ey & Ey & Hey & Hmy)];
    rewrite Ex, Ey; try reflexivity.
  apply SFsub_pos_iff; lia.
Qed.

Lemma leb_antisym (x y : float) :
  (50 <=? x) = true -> (50 <=? y) = true ->
  (x <=? y) = true -> (y <=? x) = true -> x = y.
Proof.
  intros Hx Hy. rewrite !leb_spec. unfold SFleb.
  rewrite (SFcompare_antisym (Prim2SF x) (Prim2SF y)).
  intros H1 H2. apply Prim2SF_inj.
  destruct (ge50_shape x Hx) as [Ex|(mx & ex & Ex & _)],
           (ge50_shape y Hy) as [Ey|(my & ey & Ey & _)];
    rewrite Ex, Ey in *; simpl in H1, H2; try discriminate; try reflexivity.
  rewrite Pos.compare_cont_spec in H1, H2. simpl in H1, H2.
  destruct (Z.compare_spec ex ey); simpl in H1, H2; try discriminate.
  destruct (Pos.compare_spec mx my); simpl in H1, H2; try discriminate.
  now subst.
Qed.

(** **** [sort] *)

Lemma map_sort_insert (x : sample) (l : list sample) :
  map npv (sort_insert by_npv x l) = sort_insert sub (npv x) (map npv l).
Proof.
  induction l as [|y l IH]; simpl; [reflexivity|].
  unfold by_npv at 1. destruct (0 <? npv x - npv y); simpl; [now rewrite IH|reflexivity].
Qed.

Lemma map_Array_sort (l : list sample) :
  map npv (Array_sort by_npv l) = Array_sort sub (map npv l).
Proof.
  induction l as [|x l IH]; simpl; [reflexivity|].
  now rewrite map_sort_insert, IH.
Qed.

Lemma sort_insert_Permutation {A} (cmp : A -> A -> float) (x : A) (l : list A) :
  sort_insert cmp x l ≡ₚ x :: l.
Proof.
  induction l as [|y l IH]; simpl; [reflexivity|].
  destruct (0 <? cmp x y); [|reflexivity].
  rewrite IH. apply perm_swap.
Qed.

Lemma Array_sort_Permutation {A} (cmp : A -> A -> float) (l : list A) :
  Array_sort cmp l ≡ₚ l.
Proof.
  induction l as [|x l IH]; simpl; [reflexivity|].
  now rewrite sort_insert_Permutation, IH.
Qed.

Lemma length_Array_sort {A} (cmp : A -> A -> float) (l : list A) :
  length (Array_sort cmp l) = length l.
Proof. apply Permutation_length, Array_sort_Permutation. Qed.

Lemma sort_insert_sorted (x : float) (l : list float) :
  ge50 x -> Forall ge50 l ->
  StronglySorted fle l -> StronglySorted fle (sort_insert sub x l).
Proof.
  intros Hx Hl Hs. induction Hs as [|y l Hs IH Hy]; simpl.
  - repeat constructor.
  - apply Forall_cons in Hl. destruct Hl as [Hy50 Hl].
    rewrite (sub_pos_iff x y Hx Hy50).
    destruct (y <? x) eqn:E.
    + constructor; [apply IH, Hl|].
      rewrite (sort_insert_Permutation sub x l). constructor; [|exact Hy].
      apply ltb_leb, E.
    + assert (Hxy : fle x y).
      { apply not_ltb_leb; [eapply leb_not_nan_r, Hx|eapply leb_not_nan_r, Hy50|exact E]. }
      constructor; [now constructor|]. constructor; [exact Hxy|].
      eapply Forall_impl; [exact Hy|]. intros z Hz. eapply leb_trans; eassumption.
Qed.

Lemma Array_sort_sorted (l : list float) :
  Forall ge50 l -> StronglySorted fle (Array_sort sub l).
Proof.
  induction l as [|x l IH]; intros Hl; simpl; [constructor|].
  apply Forall_cons in Hl. destruct Hl as [Hx Hl].
  apply sort_insert_sorted; auto.
  now rewrite Array_sort_Permutation.
Qed.

(** The sorted values depend on the multiset of values only. *)
Lemma sorted_vals_Permutation (p p' : list sample) :
  p ≡ₚ p' -> Forall (fun s => ge50 (npv s)) p ->
  map npv (Array_sort by_npv p) = map npv (Array_sort by_npv p').
Proof.
  intros Hp Hall. rewrite !map_Array_sort.
  assert (H1 : Forall ge50 (map npv p)) by now apply Forall_map.
  assert (H2 : Forall ge50 (map npv p')).
  { apply Forall_map. now rewrite <- Hp. }
  apply (StronglySorted_unique_strong fle).
  - intros x y Hx Hy. apply leb_antisym.
    + rewrite Array_sort_Permutation in Hx. eapply Forall_forall in H1; eauto.
    + rewrite Array_sort_Permutation in Hy. eapply Forall_forall in H2; eauto.
  - now apply Array_sort_sorted.
  - now apply Array_sort_sorted.
  - rewrite !Array_sort_Permutation. now apply Permutation_map.
Qed.

(** **** The summary *)

Lemma filter_length_Permutation {A} (f : A -> bool) (l l' : list A) :
  l ≡ₚ l' -> length (List.filter f l) = length (List.filter f l').
Proof.
  induction 1 as [|x l l' _ IH|x y l|l l' l'' _ IH1 _ IH2]; simpl.
  - reflexivity.
  - destruct (f x); simpl; now rewrite IH.
  - destruct (f x), (f y); reflexivity.
  - now rewrite IH1.
Qed.

Lemma percent_where_Permutation (f : sample -> bool) (l l' : list sample) :
  l ≡ₚ l' -> percent_where f l = percent_where f l'.
Proof.
  intros Hp. unfold percent_where.
  now rewrite (filter_length_Permutation f l l' Hp), (Permutation_length Hp).
Qed.

Lemma filter_all {A} (f : A -> bool) (l : list A) :
  Forall (fun a => f a = true) l -> List.filter f l = l.
Proof.
  induction 1 as [|x l Hx _ IH]; simpl; [reflexivity|]. now rewrite Hx, IH.
Qed.

(** [stats] of a population that is not empty is a summary, whose fields
    are those of lines 64-82. *)
Lemma stats_nonempty `{MathLib} (simulations : list sample) :
  simulations <> [] ->
  exists total,
    reduce1 add (map npv (Array_sort by_npv simulations)) = Normal total /\
    stats simulations =
      Normal
        (let vals := map npv (Array_sort by_npv simulations) in
         let len := of_nat (length vals) in
         let mean := total / len in
         {| Stats.mean := mean;
            Stats.median := at_index vals (Math_floor (len * 0.5));
            Stats.p10 := at_index vals (Math_floor (len * 0.1));
            Stats.p90 := at_index vals (Math_floor (len * 0.9));
            Stats.min := Math_min_list vals;
            Stats.max := Math_max_list vals;
            Stats.std :=
              sqrt (fold_left (fun sum v => sum + Math_pow2 (v - mean)) vals 0 / len);
            Stats.positive := percent_where (fun s => 0 <? npv s) simulations;
            Stats.above80 := percent_where (fun s => 80 <? npv s) simulations;
            Stats.avgMs :=
              fold_left (fun sum s => sum + ms s) simulations 0
                / of_nat (length simulations) * 100;
            Stats.msAbove75 := percent_where (fun s => 0.75 <? ms s) simulations |}).
Proof.
  intros Hne. unfold stats, stats_of.
  destruct (map npv (Array_sort by_npv simulations)) as [|v vs] eqn:E.
  - exfalso. apply Hne. apply (f_equal (@length float)) in E.
    rewrite length_map, length_Array_sort in E. now destruct simulations.
  - eexists. split; reflexivity.
Qed.

End StatsFacts.

Module SamplerClaims.

Import JS Dashboard FloatFacts SamplerFacts.
Local Open Scope float_scope.



(** **** Zero draws *)

Lemma infinity_mul_not_finite (c : float) : is_finite (infinity * c) = false.
Proof.
  unfold is_finite. apply negb_false_iff, orb_true_iff.
  destruct (Prim2SF (infinity * c)) eqn:E.
  - rewrite mul_spec in E. change (Prim2SF infinity) with (S754_infinity false) in E.
    destruct (Prim2SF c); discriminate.
  - right. eapply is_infinity_true, E.
  - left. now apply is_nan_true.
  - rewrite mul_spec in E. change (Prim2SF infinity) with (S754_infinity false) in E.
    destruct (Prim2SF c); discriminate.
Qed.

Lemma box_muller_zero `{MathLib} (u2 : float) :
  Math_log 0 = neg_infinity /\ is_finite (box_muller 0 u2) = false.
Proof.
  split; [apply Math_log_zero|].
  unfold box_muller. rewrite Math_log_zero.
  change (sqrt (-2 * neg_infinity)) with infinity.
  apply infinity_mul_not_finite.
Qed.

(** C2 (as stated, refuted): on a stream whose first draw is [0], that draw
    is the [u1] of the first iteration: the logarithm is applied to it, the
    variate is [-Infinity], and the 10,000 samples consume exactly 20,000
    draws, so no draw is ever repeated. *)
Lemma box_muller_zero_draw_counterexample :
  zero_then_half 0%N = 0 /\
  @box_muller RefMath.math (zero_then_half 0%N) (zero_then_half 1%N) = neg_infinity /\
  @simulations RefMath.math "base" zero_then_half 0%N =
    (Normal (replicate population_size {| npv := 50; ms := 0.5 |}), 20000%N).
Proof.
  split; [reflexivity|]. split; [vm_compute; reflexivity|].
  unfold simulations.
  replace (object_get params_table "base")
    with (Own {| p_mean := 89.4; p_std := 11.2; p_ms := 0.749 |})
    by (vm_compute; reflexivity).
  rewrite simulations_loop_own.
  rewrite (variates_periodic _ 0 0.5) by auto using zero_then_half_even, zero_then_half_odd.
  rewrite map_replicate, N_population_size, app_nil_l.
  repeat f_equal; vm_compute; reflexivity.
Qed.

(** C2 (amended): [u1] is the raw draw, made once an iteration with no guard
    and no redraw: a run makes exactly two draws a sample, iteration [i]
    uses the draws [n0 + 2i] and [n0 + 2i + 1], and when the first of them
    is [0] the logarithm is applied to [0], is [-Infinity], and the variate
    is an infinity or NaN. *)
Theorem simulations_uses_raw_draws `{MathLib} (scenario : string)
    (draws : N -> float) (n0 : N) :
  recognized scenario ->
  exists p,
    object_get params_table scenario = Own p /\
    simulations scenario draws n0 =
      (Normal (map (sample_of p) (variates draws n0 population_size)),
       (n0 + 20000)%N) /\
    forall i, (i < population_size)%nat ->
      let u1 := draws (n0 + 2 * N.of_nat i)%N in
      let u2 := draws (n0 + 2 * N.of_nat i + 1)%N in
      variates draws n0 population_size !! i = Some (box_muller u1 u2) /\
      (u1 = 0 -> Math_log u1 = neg_infinity /\ is_finite (box_muller u1 u2) = false).
Proof.
  intros Hrec. destruct (recognized_params scenario Hrec) as (p & Hp & _).
  exists p. split; [exact Hp|]. split.
  - unfold simulations. rewrite Hp, simulations_loop_own. reflexivity.
  - intros i Hi u1 u2. split; [now apply variates_lookup|].
    intros ->. apply box_muller_zero.
Qed.

Lemma simulations_uses_raw_draws_witness :
  exists p,
    object_get params_table "optimistic" = Own p /\
    @simulations RefMath.math "optimistic" zero_then_half 7%N =
      (Normal (map (sample_of p) (@variates RefMath.math zero_then_half 7%N population_size)),
       20007%N) /\
    forall i, (i < population_size)%nat ->
      let u1 := zero_then_half (7 + 2 * N.of_nat i)%N in
      let u2 := zero_then_half (7 + 2 * N.of_nat i + 1)%N in
      @variates RefMath.math zero_then_half 7%N population_size !! i
        = Some (@box_muller RefMath.math u1 u2) /\
      (u1 = 0 -> @Math_log RefMath.math u1 = neg_infinity /\
                 is_finite (@box_muller RefMath.math u1 u2) = false).
Proof.
  apply (@simulations_uses_raw_draws RefMath.math "optimistic" zero_then_half 7%N).
  unfold recognized. set_solver.
Defined.

(** **** Selectors without an entry *)

Lemma object_get_undefined {A} (l : list (string * A)) (key : string) :
  key ∉ l.*1 -> key ∉ object_prototype_names ->
  object_get (list_to_map l) key = Undefined.
Proof.
  intros Hown Hproto. unfold object_get.
  rewrite (not_elem_of_list_to_map_1 _ _ Hown).
  now destruct (decide (key ∈ object_prototype_names)).
Qed.

(** C3 (as stated, refuted): ["constructor"] is outside the recognized set,
    yet neither [simulations] nor [trajectory] fails on it: the lookup finds
    the property inherited from [Object.prototype] and both return. *)
Lemma unknown_scenario_counterexample :
  ~ recognized "constructor" /\
  is_throw (fst (@simulations RefMath.math "constructor" (RefMath.hash_draws 1) 0%N)) = false /\
  is_throw (trajectory "constructor" example_stats) = false.
Proof.
  split; [|split].
  - unfold recognized. rewrite !elem_of_cons, elem_of_nil.
    intros [?|[?|[?|[?|[]]]]]; discriminate.
  - unfold simulations.
    replace (object_get params_table "constructor")
      with (@Inherited scenario_params) by (vm_compute; reflexivity).
    apply simulations_loop_inherited.
  - vm_compute. reflexivity.
Qed.

(** C3 (amended): for a selector that is neither recognized nor the name of a
    property of [Object.prototype], the lookup is [undefined] and both
    functions throw the runtime's [TypeError] (the only error there is; no
    default parameter set is substituted and no result is returned):
    [simulations] in its first iteration, after its first two draws, and
    [trajectory] at its first point. *)
Theorem unknown_scenario_throws `{MathLib} (scenario : string)
    (draws : N -> float) (n0 : N) (st : Stats.t) :
  ~ recognized scenario ->
  scenario ∉ object_prototype_names ->
  simulations scenario draws n0 =
    (Throw (TypeError "Cannot read properties of undefined"), (n0 + 2)%N) /\
  trajectory scenario st = Throw (TypeError "Cannot read properties of undefined").
Proof.
  intros Hrec Hproto. split.
  - unfold simulations, params_table. rewrite object_get_undefined by assumption.
    destruct population_size_succ as [k ->]. cbn. f_equal. lia.
  - unfold trajectory, factors_table. rewrite object_get_undefined by assumption.
    reflexivity.
Qed.

Lemma unknown_scenario_throws_witness :
  @simulations RefMath.math "extreme" (RefMath.hash_draws 1) 5%N =
    (Throw (TypeError "Cannot read properties of undefined"), 7%N) /\
  trajectory "extreme" example_stats =
    Throw (TypeError "Cannot read properties of undefined").
Proof.
  apply (@unknown_scenario_throws RefMath.math "extreme" (RefMath.hash_draws 1) 5%N
           example_stats).
  - unfold recognized. rewrite !elem_of_cons, elem_of_nil.
    intros [?|[?|[?|[?|[]]]]]; discriminate.
  - vm_compute. intros Hin. discriminate.
Defined.

End SamplerClaims.

(** ** Claims about the aggregator *)
Module StatsClaims.

Import JS Dashboard FloatFacts SamplerFacts StatsFacts.
Local Open Scope float_scope.



(** C4 (as stated, refuted): reversing a population of three samples changes
    the scaled average retention that [stats] reports: the sum of the
    retentions is a floating-point sum taken in population order. *)
Lemma stats_permutation_counterexample :
  rev example_population ≡ₚ example_population /\
  exists st st',
    @stats RefMath.math example_population = Normal st /\
    @stats RefMath.math (rev example_population) = Normal st' /\
    Stats.avgMs st = 0x1.b800000000001p+5 /\
    Stats.avgMs st' = 0x1.b7fffffffffffp+5 /\
    st <> st'.
Proof.
  split; [symmetry; apply Permutation_rev|].
  eexists _, _. split; [vm_compute; reflexivity|]. split; [vm_compute; reflexivity|].
  split; [reflexivity|]. split; [reflexivity|].
  intros Heq. apply (f_equal (fun st => Stats.avgMs st <? 55)) in Heq.
  vm_compute in Heq. discriminate.
Qed.

(** C4 (amended): for every population that is not empty and whose values
    satisfy the floor of the data model ([npv >= 50], hence not NaN), and
    every permutation of it, [stats] returns the same mean, standard
    deviation, median, percentiles, minimum, maximum and count-based
    fractions; the scaled average retention alone is a sum in population
    order. *)
Theorem stats_permutation_invariant `{MathLib} (p p' : list sample) :
  p ≡ₚ p' -> p <> [] -> Forall (fun s => ge50 (npv s)) p ->
  exists st st',
    stats p = Normal st /\ stats p' = Normal st' /\
    st' = with_avgMs (Stats.avgMs st') st.
Proof.
  intros Hp Hne Hall.
  assert (Hne' : p' <> []).
  { intros ->. apply Hne. now apply Permutation_nil_r. }
  destruct (stats_nonempty p Hne) as (total & Hred & Hst).
  destruct (stats_nonempty p' Hne') as (total' & Hred' & Hst').
  rewrite <- (sorted_vals_Permutation p p' Hp Hall) in Hred', Hst'.
  assert (total' = total) by congruence. subst total'.
  rewrite !(percent_where_Permutation _ p p' Hp) in Hst.
  eexists _, _. split; [exact Hst|]. split; [exact Hst'|].
  reflexivity.
Qed.

Lemma stats_permutation_invariant_witness :
  exists st st',
    @stats RefMath.math (rev example_population) = Normal st /\
    @stats RefMath.math example_population = Normal st' /\
    st' = with_avgMs (Stats.avgMs st') st.
Proof.
  apply (@stats_permutation_invariant RefMath.math (rev example_population)
           example_population).
  - symmetry. apply Permutation_rev.
  - discriminate.
  - repeat constructor.
Defined.

End StatsClaims.

(** ** The trajectory and the scatter *)
Module ProjectionClaims.

Import JS Dashboard FloatFacts.
Local Open Scope float_scope.

Lemma object_get_own {A} (own : gmap string A) (key : string) (a : A) :
  own !! key = Some a -> object_get own key = Own a.
Proof. intros Hk. unfold object_get. now rewrite Hk. Qed.

(** C8: for a scenario with growth factors [fs], [trajectory]
    (projectTrajectory) yields for each year [i] the point with
    [expected = round1 (median * fs[i])], [p90 = round1 (p90 * fs[i] * 1.05)]
    and [p10 = round1 (p10 * fs[i] * 0.95)], where [round1] is
    [Number(x.toFixed(1))]; and on median 89.4, p10 74.2, p90 108.7 the first
    point of scenario base is expected 13.4, p90 17.1, p10 10.6. *)
Theorem trajectory_points (scenario : string) (fs : list float) (st : Stats.t) :
  factors_table !! scenario = Some fs ->
  trajectory scenario st =
    Normal
      (imap (fun i yr =>
               let f := ToNumber (fs !! i) in
               {| Point.year := pretty yr;
                  Point.expected := toFixed1_Number (ToNumber (Stats.median st) * f);
                  Point.p90 := toFixed1_Number (ToNumber (Stats.p90 st) * f * 1.05);
                  Point.p10 := toFixed1_Number (ToNumber (Stats.p10 st) * f * 0.95) |})
            years) /\
  factors_table !! "base"%string = Some [0.15; 0.28; 0.42; 0.58; 0.75; 0.88] /\
  (Stats.median st = Some 89.4 -> Stats.p10 st = Some 74.2 ->
   Stats.p90 st = Some 108.7 ->
   exists rest,
     trajectory "base" st =
       Normal ({| Point.year := "2026"; Point.expected := 13.4;
                  Point.p90 := 17.1; Point.p10 := 10.6 |} :: rest)).
Proof.
  intros Hfs. split; [|split].
  - unfold trajectory. rewrite (object_get_own _ _ _ Hfs). reflexivity.
  - reflexivity.
  - intros Hmed H10 H90. unfold trajectory.
    rewrite (object_get_own factors_table "base" [0.15; 0.28; 0.42; 0.58; 0.75; 0.88])
      by reflexivity.
    cbn [map_from trajectory_point get_factor].
    rewrite Hmed, H10, H90. eexists. vm_compute. reflexivity.
Qed.

Lemma trajectory_points_witness :
  exists rest,
    trajectory "base" example_stats =
      Normal ({| Point.year := "2026"; Point.expected := 13.4;
                 Point.p90 := 17.1; Point.p10 := 10.6 |} :: rest).
Proof.
  refine (proj2 (proj2 (trajectory_points "optimistic"
                         [0.2; 0.38; 0.55; 0.72; 0.88; 1.05] example_stats _)) _ _ _);
    reflexivity.
Defined.

(** C7: [risk_of], the tier of a scatter point: retention exactly 0.78 is
    medium and exactly 0.70 is high; above 0.78 is low, above 0.70 and at
    most 0.78 is medium, at most 0.70 is high. *)
Theorem risk_tier_boundaries (s : sample) :
  (ms s = 0.78 -> risk_of s = med) /\
  (ms s = 0.7 -> risk_of s = high) /\
  ((0.78 <? ms s) = true -> risk_of s = low) /\
  ((0.7 <? ms s) = true -> (ms s <=? 0.78) = true -> risk_of s = med) /\
  ((ms s <=? 0.7) = true -> risk_of s = high) /\
  forall simulations i,
    (i < 800)%nat -> simulations !! i = Some s ->
    Dot.risk <$> scatter simulations !! i = Some (risk_of s).
Proof.
  unfold risk_of. repeat split.
  - intros ->. reflexivity.
  - intros ->. reflexivity.
  - intros ->. reflexivity.
  - intros Hlo Hhi. now rewrite (leb_not_ltb _ _ Hhi), Hlo.
  - intros Hhi. rewrite (leb_not_ltb _ _ Hhi).
    assert (Hlt : (ms s <? 0.78) = true)
      by (apply (leb_ltb_trans _ 0.7); [exact Hhi|reflexivity]).
    now rewrite (ltb_not_ltb _ _ Hlt).
  - intros simulations i Hi Hs. unfold scatter.
    rewrite list_lookup_fmap, lookup_take_lt, Hs by assumption. reflexivity.
Qed.

Lemma risk_tier_boundaries_witness :
  risk_of {| npv := 90; ms := 0.75 |} = med.
Proof.
  refine (proj1 (proj2 (proj2 (proj2
            (risk_tier_boundaries {| npv := 90; ms := 0.75 |})))) _ _);
    reflexivity.
Defined.

(** C10: [stats] leaves the population alone.  Run on a store in which
    [simulations] refers to the array [arr], it computes the statistics of
    [arr], allocates and sorts a copy, and returns a store that differs from
    the old one at the copy's fresh reference only; [scatter] on the new
    store still maps the first 800 samples of [arr] in their order. *)
Theorem stats_preserves_population `{MathLib} (simulations : loc) (h : store)
    (arr : list sample) :
  h !! simulations = Some arr ->
  exists h',
    stats_in simulations h = Some (stats arr, h') /\
    h' !! simulations = Some arr /\
    (forall r, r ∈ dom h -> h' !! r = h !! r) /\
    scatter_in simulations h' = Some (map scatter_point (take 800 arr)) /\
    scatter_in simulations h' = scatter_in simulations h.
Proof.
  intros Harr. unfold stats_in, spread. rewrite Harr.
  set (r' := fresh (dom h)).
  assert (Hfresh : r' ∉ dom h) by apply is_fresh.
  assert (Hne : r' <> simulations).
  { intros ->. apply Hfresh, elem_of_dom. eauto. }
  unfold sort_in_place.
  rewrite lookup_alter_eq, lookup_insert_eq. simpl.
  rewrite lookup_alter_ne, lookup_insert_ne, Harr by congruence.
  eexists. split; [reflexivity|].
  assert (Hframe : forall r, r ∈ dom h ->
            alter (Array_sort by_npv) r' (<[r':=arr]> h) !! r = h !! r).
  { intros r Hr. assert (r' <> r) by (intros ->; contradiction).
    now rewrite lookup_alter_ne, lookup_insert_ne. }
  assert (Hsim : alter (Array_sort by_npv) r' (<[r':=arr]> h) !! simulations = Some arr).
  { rewrite Hframe, Harr; [reflexivity|]. apply elem_of_dom. eauto. }
  repeat split.
  - exact Hsim.
  - exact Hframe.
  - unfold scatter_in. now rewrite Hsim.
  - unfold scatter_in. now rewrite Hsim, Harr.
Qed.

Lemma stats_preserves_population_witness :
  exists h',
    @stats_in RefMath.math 1%positive
      {[ 1%positive := [ {| npv := 60; ms := 0.5 |}; {| npv := 55; ms := 0.6 |} ] ]}
      = Some (@stats RefMath.math [ {| npv := 60; ms := 0.5 |}; {| npv := 55; ms := 0.6 |} ], h') /\
    h' !! 1%positive = Some [ {| npv := 60; ms := 0.5 |}; {| npv := 55; ms := 0.6 |} ] /\
    (forall r, r ∈ dom ({[ 1%positive := [ {| npv := 60; ms := 0.5 |}; {| npv := 55; ms := 0.6 |} ] ]} : store)
               -> h' !! r = ({[ 1%positive := [ {| npv := 60; ms := 0.5 |}; {| npv := 55; ms := 0.6 |} ] ]} : store) !! r) /\
    scatter_in 1%positive h' =
      Some (map scatter_point (take 800 [ {| npv := 60; ms := 0.5 |}; {| npv := 55; ms := 0.6 |} ])) /\
    scatter_in 1%positive h' =
      scatter_in 1%positive {[ 1%positive := [ {| npv := 60; ms := 0.5 |}; {| npv := 55; ms := 0.6 |} ] ]}.
Proof.
  apply (@stats_preserves_population RefMath.math 1%positive
           {[ 1%positive := [ {| npv := 60; ms := 0.5 |}; {| npv := 55; ms := 0.6 |} ] ]}).
  reflexivity.
Defined.

End ProjectionClaims.

(** ** The distribution binner *)
Module BinnerFacts.

Import JS Dashboard FloatFacts SamplerFacts StatsFacts.
Local Open Scope float_scope.

(** **** Minimum and maximum of a list *)

Lemma Math_min_cases (a b : float) :
  is_nan (Math_min a b) = false ->
  (Math_min a b = a \/ Math_min a b = b) /\
  (Math_min a b <=? a) = true /\ (Math_min a b <=? b) = true.
Proof.
  unfold Math_min. destruct (is_nan a || is_nan b) eqn:En; [discriminate|].
  apply orb_false_elim in En. destruct En as [Ha Hb]. intros _.
  destruct (a <? b) eqn:E1; [auto using leb_refl, ltb_leb|].
  destruct (b <? a) eqn:E2; [auto using leb_refl, ltb_leb|].
  destruct (get_sign a); auto using leb_refl, not_ltb_leb.
Qed.

Lemma Math_max_cases (a b : float) :
  is_nan (Math_max a b) = false ->
  (Math_max a b = a \/ Math_max a b = b) /\
  (a <=? Math_max a b) = true /\ (b <=? Math_max a b) = true.
Proof.
  unfold Math_max. destruct (is_nan a || is_nan b) eqn:En; [discriminate|].
  apply orb_false_elim in En. destruct En as [Ha Hb]. intros _.
  destruct (a <? b) eqn:E1; [auto using leb_refl, ltb_leb|].
  destruct (b <? a) eqn:E2; [auto using leb_refl, ltb_leb|].
  destruct (get_sign a); auto using leb_refl, not_ltb_leb.
Qed.

Lemma fold_min_spec (l : list float) :
  forall acc, is_nan (fold_left Math_min l acc) = false ->
    (fold_left Math_min l acc <=? acc) = true /\
    Forall (fun v => (fold_left Math_min l acc <=? v) = true) l /\
    (fold_left Math_min l acc = acc \/ fold_left Math_min l acc ∈ l).
Proof.
  induction l as [|x l IH]; intros acc Hn; simpl in *.
  - split; [now apply leb_refl|]. split; [constructor|now left].
  - destruct (IH _ Hn) as (H1 & H2 & H3).
    destruct (Math_min_cases acc x (leb_not_nan_r _ _ H1)) as (Hc & Ha & Hx).
    split; [eapply leb_trans; eassumption|]. split.
    + constructor; [eapply leb_trans; eassumption|exact H2].
    + destruct H3 as [H3|H3]; [|right; now constructor].
      rewrite H3. destruct Hc as [->| ->]; [now left|right; constructor].
Qed.

Lemma fold_max_spec (l : list float) :
  forall acc, is_nan (fold_left Math_max l acc) = false ->
    (acc <=? fold_left Math_max l acc) = true /\
    Forall (fun v => (v <=? fold_left Math_max l acc) = true) l /\
    (fold_left Math_max l acc = acc \/ fold_left Math_max l acc ∈ l).
Proof.
  induction l as [|x l IH]; intros acc Hn; simpl in *.
  - split; [now apply leb_refl|]. split; [constructor|now left].
  - destruct (IH _ Hn) as (H1 & H2 & H3).
    destruct (Math_max_cases acc x (leb_not_nan_l _ _ H1)) as (Hc & Ha & Hx).
    split; [eapply leb_trans; eassumption|]. split.
    + constructor; [eapply leb_trans; eassumption|exact H2].
    + destruct H3 as [H3|H3]; [|right; now constructor].
      rewrite H3. destruct Hc as [->| ->]; [now left|right; constructor].
Qed.

(** **** Equal extremes *)

Lemma leb_leb_compare (x y : float) :
  (x <=? y) = true -> (y <=? x) = true ->
  SFcompare (Prim2SF x) (Prim2SF y) = Some Eq.
Proof.
  rewrite !leb_spec. unfold SFleb.
  rewrite (SFcompare_antisym (Prim2SF x) (Prim2SF y)).
  destruct (SFcompare (Prim2SF x) (Prim2SF y)) as [[]|]; simpl; congruence.
Qed.

Lemma SFsub_equal (a b : spec_float) :
  SFcompare a b = Some Eq -> zero_or_nan (SF64sub a b).
Proof.
  intros Hc.
  destruct a as [sa|sa| |sa ma ea], b as [sb|sb| |sb mb eb];
    try (destruct sa); try (destruct sb); simpl in Hc; try discriminate;
    try exact I.
  all: unfold SF64sub, SFsub.
  all: assert (He : ea = eb /\ ma = mb)
    by (rewrite Pos.compare_cont_spec in Hc; simpl in Hc;
        destruct (Z.compare_spec ea eb); try discriminate;
        destruct (Pos.compare_spec ma mb); try discriminate; auto).
  all: destruct He as (-> & ->); rewrite Z.min_id; unfold cond_Zopp;
    rewrite ?Z.sub_diag; try exact I.
  all: replace (- Zpos (fst (shl_align mb eb eb)) - - Zpos (fst (shl_align mb eb eb)))%Z
    with 0%Z by lia; exact I.
Qed.

Lemma SFdiv_zero_or_nan_finite (a : spec_float) (s : bool) (m : positive) (e : Z) :
  zero_or_nan a -> zero_or_nan (SF64div a (S754_finite s m e)).
Proof. destruct a; simpl; intros; try contradiction; exact I. Qed.

Lemma SFdiv_zero_or_nan (a b : spec_float) :
  zero_or_nan a -> zero_or_nan b -> SF64div a b = S754_nan.
Proof. destruct a, b; simpl; intros; try contradiction; reflexivity. Qed.

Lemma SFdiv_zero_l (b : spec_float) (s : bool) :
  zero_or_nan (SF64div (S754_zero s) b).
Proof. destruct b; simpl; exact I. Qed.

Lemma SFmul_zero_or_nan_finite (a : spec_float) (s : bool) (m : positive) (e : Z) :
  zero_or_nan a -> zero_or_nan (SF64mul a (S754_finite s m e)).
Proof. destruct a; simpl; intros; try contradiction; exact I. Qed.

Lemma ltb_zero_or_nan (x : float) :
  zero_or_nan (Prim2SF x) -> (0 <? x) = false.
Proof.
  rewrite ltb_spec. change (Prim2SF 0) with (S754_zero false).
  destruct (Prim2SF x); simpl; intros; try contradiction; reflexivity.
Qed.

(** A sample whose quotient is NaN increments no counter. *)
Lemma increment_nan (dist : list nat) (q : float) :
  is_nan q = true -> increment dist (Math_min (of_nat bins - 1) (Math_floor q)) = dist.
Proof.
  intros Hq. apply is_nan_true in Hq.
  assert (Hf : Math_floor q = q) by (unfold Math_floor; now rewrite Hq).
  rewrite Hf. unfold Math_min. rewrite (proj2 (is_nan_true q) Hq), orb_true_r.
  reflexivity.
Qed.

Lemma fold_increment_nan (st : Stats.t) (l : list sample) :
  forall dist,
    Forall (fun s => is_nan ((npv s - Stats.min st) / bin_width st) = true) l ->
    fold_left (fun dist s => increment dist (bin_index st (bin_width st) s)) l dist = dist.
Proof.
  induction l as [|s l IH]; intros dist Hall; simpl; [reflexivity|].
  apply Forall_cons in Hall. destruct Hall as [Hs Hall].
  unfold bin_index at 2. rewrite increment_nan by exact Hs. now apply IH.
Qed.

Lemma filter_imap_nil {A B} (f : B -> bool) (g : nat -> A -> B) (l : list A) :
  (forall i a, a ∈ l -> f (g i a) = false) -> List.filter f (imap g l) = [].
Proof.
  revert g. induction l as [|a l IH]; intros g Hg; simpl; [reflexivity|].
  rewrite Hg by constructor. apply IH. intros i b Hb. apply Hg. now constructor.
Qed.

Lemma bar_of_zero (st : Stats.t) (n i : nat) : (0 <? Bar.y (bar_of st n i 0)) = false.
Proof.
  apply ltb_zero_or_nan. cbn [bar_of Bar.y]. rewrite mul_spec, div_spec.
  change (Prim2SF (of_nat 0)) with (S754_zero false).
  let v := eval vm_compute in (Prim2SF 100) in change (Prim2SF 100) with v.
  apply SFmul_zero_or_nan_finite, SFdiv_zero_l.
Qed.

Lemma stats_fields `{MathLib} (simulations : list sample) (st : Stats.t) :
  stats simulations = Normal st ->
  simulations <> [] /\
  Stats.min st = Math_min_list (map npv (Array_sort by_npv simulations)) /\
  Stats.max st = Math_max_list (map npv (Array_sort by_npv simulations)).
Proof.
  intros Hst.
  assert (Hne : simulations <> []) by (intros ->; discriminate).
  destruct (stats_nonempty simulations Hne) as (total & _ & Hst').
  rewrite Hst in Hst'. injection Hst' as ->. auto.
Qed.

Lemma elem_of_sorted_vals (s : sample) (simulations : list sample) :
  s ∈ simulations -> npv s ∈ map npv (Array_sort by_npv simulations).
Proof.
  intros Hs. apply list_elem_of_In, in_map. apply list_elem_of_In.
  now rewrite Array_sort_Permutation.
Qed.

End BinnerFacts.

Module BinnerClaims.

Import JS Dashboard FloatFacts SamplerFacts StatsFacts BinnerFacts.
Local Open Scope float_scope.

(** C5 (as stated, refuted): on two samples of equal value [stats.max]
    equals [stats.min], and [distribution] (buildHistogram) returns
    normally, with the empty sequence. *)
Lemma degenerate_range_counterexample :
  exists st,
    @stats RefMath.math flat_population = Normal st /\
    Stats.max st = 60 /\ Stats.min st = 60 /\
    distribution flat_population st = [].
Proof. eexists. repeat split; vm_compute; reflexivity. Qed.

(** C5 (amended): whenever [stats.max] equals [stats.min], [distribution]
    raises no error: the bin width is zero or NaN, every sample's index is
    NaN, no counter is incremented, and the result is the empty sequence. *)
Theorem distribution_degenerate `{MathLib} (simulations : list sample) (st : Stats.t) :
  stats simulations = Normal st ->
  (Stats.max st =? Stats.min st) = true ->
  distribution simulations st = [].
Proof.
  intros Hst Heq. destruct (stats_fields simulations st Hst) as (Hne & Hmin & Hmax).
  set (vals := map npv (Array_sort by_npv simulations)) in *.
  assert (Hc : SFcompare (Prim2SF (Stats.max st)) (Prim2SF (Stats.min st)) = Some Eq).
  { rewrite eqb_spec in Heq. unfold SFeqb in Heq.
    destruct (SFcompare _ _) as [[]|]; congruence. }
  assert (Hle : (Stats.max st <=? Stats.min st) = true)
    by (rewrite leb_spec; unfold SFleb; now rewrite Hc).
  assert (Hnmin : is_nan (Stats.min st) = false) by (eapply leb_not_nan_r, Hle).
  assert (Hnmax : is_nan (Stats.max st) = false) by (eapply leb_not_nan_l, Hle).
  destruct (fold_min_spec vals infinity) as (_ & Hlo & _);
    [unfold Math_min_list in Hmin; now rewrite <- Hmin|].
  destruct (fold_max_spec vals neg_infinity) as (_ & Hhi & _);
    [unfold Math_max_list in Hmax; now rewrite <- Hmax|].
  fold (Math_min_list vals) in Hlo. fold (Math_max_list vals) in Hhi.
  rewrite <- Hmin in Hlo. rewrite <- Hmax in Hhi.
  assert (Hw : zero_or_nan (Prim2SF (bin_width st))).
  { unfold bin_width. rewrite div_spec, sub_spec.
    let v := eval vm_compute in (Prim2SF (of_nat bins)) in
      change (Prim2SF (of_nat bins)) with v.
    apply SFdiv_zero_or_nan_finite, SFsub_equal, Hc. }
  assert (Hcounts : counts simulations st = replicate bins 0%nat).
  { unfold counts. apply fold_increment_nan. apply Forall_forall. intros s Hs.
    apply is_nan_true. rewrite div_spec, sub_spec.
    apply SFdiv_zero_or_nan; [|exact Hw].
    apply SFsub_equal, leb_leb_compare.
    - eapply leb_trans; [|exact Hle].
      apply (proj1 (Forall_forall _ _) Hhi). now apply elem_of_sorted_vals.
    - apply (proj1 (Forall_forall _ _) Hlo). now apply elem_of_sorted_vals. }
  unfold distribution. rewrite Hcounts. apply filter_imap_nil.
  intros i c Hc0. apply elem_of_replicate in Hc0. destruct Hc0 as [-> _].
  apply bar_of_zero.
Qed.

Lemma distribution_degenerate_witness :
  distribution flat_population
    {| Stats.mean := 60; Stats.median := Some 60; Stats.p10 := Some 60;
       Stats.p90 := Some 60; Stats.min := 60; Stats.max := 60; Stats.std := 0;
       Stats.positive := 100; Stats.above80 := 0; Stats.avgMs := 55.000000000000007;
       Stats.msAbove75 := 0 |} = [].
Proof.
  apply (@distribution_degenerate RefMath.math); vm_compute; reflexivity.
Defined.

End BinnerClaims.

(** ** Rounding of differences, quotients and small integers *)
Module RoundingFacts.

Import JS Dashboard FloatFacts.
Local Open Scope float_scope.

Lemma fexp_eq (t : Z) : fexp prec emax t = Z.max (t - 53) (-1074).
Proof. reflexivity. Qed.

Lemma digits2_pos_le (m : positive) (k : Z) :
  (Zpos m < 2 ^ k)%Z -> (Zpos (digits2_pos m) <= k)%Z.
Proof.
  intros Hm. pose proof (digits2_pos_bounds m) as [Hlo _].
  destruct (Z_lt_le_dec k (Zpos (digits2_pos m))) as [Hk|Hk]; [|exact Hk].
  exfalso. assert (2 ^ k <= 2 ^ (Zpos (digits2_pos m) - 1))%Z; [|lia].
  destruct (Z_lt_le_dec k 0) as [Hn|Hn].
  - rewrite (Z.pow_neg_r 2 k Hn). apply Z.pow_nonneg. lia.
  - apply Z.pow_le_mono_r; lia.
Qed.

Lemma shr_fexp_spec (m : positive) (e : Z) (l : location) :
  (-1074 <= e)%Z ->
  let e1 := Z.max e (fexp prec emax (Zpos (digits2_pos m) + e)) in
  snd (shr_fexp prec emax (Zpos m) e l) = e1 /\
  shr_m (fst (shr_fexp prec emax (Zpos m) e l)) = (Zpos m / 2 ^ (e1 - e))%Z /\
  (e1 = e -> fst (shr_fexp prec emax (Zpos m) e l) = shr_record_of_loc (Zpos m) l).
Proof.
  intros He e1. unfold shr_fexp, shr. cbn [Zdigits2]. fold e1.
  destruct (fexp prec emax (Zpos (digits2_pos m) + e) - e)%Z as [|p|p] eqn:En;
    cbn [fst snd].
  - assert (e1 = e) as -> by lia. rewrite Z.sub_diag, Z.pow_0_r, Z.div_1_r.
    now rewrite shr_record_of_loc_m.
  - assert (e1 = e + Zpos p)%Z as -> by lia.
    rewrite iter_shr_1_m by (rewrite shr_record_of_loc_m; lia).
    rewrite shr_record_of_loc_m. replace (e + Zpos p - e)%Z with (Zpos p) by lia.
    repeat split; lia.
  - assert (e1 = e) as -> by lia. rewrite Z.sub_diag, Z.pow_0_r, Z.div_1_r.
    now rewrite shr_record_of_loc_m.
Qed.

(** The two shifts of [binary_round_aux], and when the result is finite. *)
Lemma binary_round_aux_cases (sx : bool) (m : positive) (e : Z) (l : location) :
  (-1074 <= e)%Z ->
  let e1 := Z.max e (fexp prec emax (Zpos (digits2_pos m) + e)) in
  let m1 := (Zpos m / 2 ^ (e1 - e))%Z in
  exists m2 : positive,
    (Zpos m2 = m1 \/ Zpos m2 = m1 + 1)%Z /\
    (e1 = e -> l = loc_Exact -> Zpos m2 = Zpos m) /\
    let e2 := Z.max e1 (fexp prec emax (Zpos (digits2_pos m2) + e1)) in
    ((e2 <= 971)%Z ->
     exists q, binary_round_aux prec emax sx (Zpos m) e l = S754_finite sx q e2 /\
               Zpos q = (Zpos m2 / 2 ^ (e2 - e1))%Z).
Proof.
  intros He e1 m1. unfold binary_round_aux.
  destruct (shr_fexp_spec m e l He) as (Hs & Hm & Hx). fold e1 in Hs, Hm, Hx.
  destruct (shr_fexp_pos m e l He) as [Hpos _].
  destruct (shr_fexp prec emax (Zpos m) e l) as [mrs' e']. cbn [fst snd] in *.
  subst e'. fold m1 in Hm.
  assert (Hr : (round_nearest_even (shr_m mrs') (loc_of_shr_record mrs') = m1 \/
                round_nearest_even (shr_m mrs') (loc_of_shr_record mrs') = m1 + 1)%Z).
  { rewrite Hm. unfold round_nearest_even.
    destruct (loc_of_shr_record mrs') as [|[]]; try destruct (Z.even m1); auto. }
  assert (Hr0 : e1 = e -> l = loc_Exact ->
                round_nearest_even (shr_m mrs') (loc_of_shr_record mrs') = Zpos m).
  { intros H1 ->. rewrite (Hx H1). reflexivity. }
  destruct (round_nearest_even (shr_m mrs') (loc_of_shr_record mrs')) as [|m2|m2];
    try lia.
  exists m2. split; [exact Hr|]. split; [exact Hr0|].
  set (e2 := Z.max e1 (fexp prec emax (Zpos (digits2_pos m2) + e1))). intros He2.
  assert (He1 : (-1074 <= e1)%Z) by (unfold e1; lia).
  destruct (shr_fexp_spec m2 e1 loc_Exact He1) as (Hs2 & Hm2 & _).
  destruct (shr_fexp_pos m2 e1 loc_Exact He1) as [Hpos2 _].
  destruct (shr_fexp prec emax (Zpos m2) e1 loc_Exact) as [mrs'' e'']. cbn [fst snd] in *.
  fold e2 in Hs2, Hm2. subst e''.
  destruct (shr_m mrs'') as [|q|q]; try lia.
  exists q. change (emax - prec)%Z with 971%Z.
  destruct (Z.leb_spec e2 971); [auto|lia].
Qed.

(** A positive integer [D 2^ez] below [B 2^(ez + k)], [B < 2^53], rounds to a
    finite Number whose exponent is at least [min ez (digits D + ez - 53)]. *)
Lemma binary_round_bounded (D : positive) (ez B k : Z) :
  (-1074 <= ez)%Z -> (0 <= k)%Z -> (ez + k <= 971)%Z ->
  (Zpos D < B * 2 ^ k)%Z -> (B < 2 ^ 53)%Z ->
  exists q e,
    binary_round prec emax false D ez = S754_finite false q e /\
    (Z.min ez (Zpos (digits2_pos D) + ez - 53) <= e)%Z.
Proof.
  intros Hez Hk Hsum HD HB.
  pose proof (digits2_pos_bounds D) as [Hlo Hhi].
  set (d := Zpos (digits2_pos D)) in *.
  assert (Hd0 : (0 < d)%Z) by (unfold d; lia).
  assert (HB0 : (0 < B)%Z).
  { destruct (Z_lt_le_dec 0 B); [assumption|].
    assert (B * 2 ^ k <= 0)%Z by (apply Z.mul_nonpos_nonneg; [lia|apply Z.pow_nonneg; lia]).
    lia. }
  assert (Hdk : (d <= 53 + k)%Z).
  { apply digits2_pos_le. rewrite Z.pow_add_r by lia.
    eapply Z.lt_le_trans; [exact HD|]. apply Z.mul_le_mono_nonneg_r; [|lia].
    apply Z.pow_nonneg. lia. }
  unfold binary_round, shl_align. rewrite fexp_eq. fold d.
  destruct (Z.max (d + ez - 53) (-1074) - ez)%Z as [|p|p] eqn:En.
  - (* no shift, at most 53 digits *)
    destruct (binary_round_aux_cases false D ez loc_Exact Hez) as (m2 & _ & Hx & Hfin).
    fold d in Hx, Hfin. rewrite fexp_eq in Hx, Hfin.
    assert (H1 : Z.max ez (Z.max (d + ez - 53) (-1074)) = ez) by lia.
    rewrite H1 in Hfin. specialize (Hx H1 eq_refl). injection Hx as ->.
    fold d in Hfin. rewrite fexp_eq, H1 in Hfin.
    destruct (Hfin ltac:(lia)) as [q [Hq _]]. exists q, ez. split; [exact Hq|lia].
  - (* more than 53 digits: rounded *)
    assert (Hd : (53 < d)%Z) by lia.
    destruct (binary_round_aux_cases false D ez loc_Exact Hez) as (m2 & Hm2 & _ & Hfin).
    fold d in Hm2, Hfin. rewrite fexp_eq in Hm2, Hfin.
    assert (H1 : Z.max ez (Z.max (d + ez - 53) (-1074)) = (ez + (d - 53))%Z) by lia.
    rewrite H1 in Hm2, Hfin. replace (ez + (d - 53) - ez)%Z with (d - 53)%Z in Hm2 by lia.
    assert (Hq1 : (Zpos D / 2 ^ (d - 53) < 2 ^ 53)%Z).
    { apply Z.div_lt_upper_bound; [apply Z.pow_pos_nonneg; lia|].
      rewrite <- Z.pow_add_r by lia. replace (d - 53 + 53)%Z with d by lia. exact Hhi. }
    assert (Hm2' : (Zpos m2 <= 2 ^ 53)%Z) by lia.
    assert (Hd2 : (Zpos (digits2_pos m2) <= 54)%Z).
    { apply digits2_pos_le. change (2 ^ 54)%Z with (2 * 2 ^ 53)%Z. lia. }
    rewrite fexp_eq in Hfin.
    destruct (Z_lt_le_dec d (53 + k)) as [Hlt|Hge].
    + destruct (Hfin ltac:(lia)) as [q [Hq _]]. eexists q, _. split; [exact Hq|lia].
    + assert (d = 53 + k)%Z by lia.
      assert (Hq2 : (Zpos D / 2 ^ (d - 53) < B)%Z).
      { apply Z.div_lt_upper_bound; [apply Z.pow_pos_nonneg; lia|].
        replace (d - 53)%Z with k by lia. lia. }
      assert (Hd3 : (Zpos (digits2_pos m2) <= 53)%Z) by (apply digits2_pos_le; lia).
      destruct (Hfin ltac:(lia)) as [q [Hq _]]. eexists q, _. split; [exact Hq|lia].
  - (* shifted left to 53 digits or to the least exponent: exact *)
    set (mz := Pos.iter xO D p).
    set (e0 := (Z.max (d + ez - 53) (-1074))%Z) in *.
    assert (He0 : (-1074 <= e0)%Z) by (unfold e0; lia).
    assert (Hmz : Zpos mz = (Zpos D * 2 ^ Zpos p)%Z) by apply Pos_iter_xO.
    assert (Hp : Zpos p = (ez - e0)%Z) by lia.
    assert (Hdz : (Zpos (digits2_pos mz) + e0 - 53 <= e0)%Z).
    { assert (Zpos (digits2_pos mz) <= 53)%Z; [|lia].
      apply digits2_pos_le. rewrite Hmz.
      assert (d + Zpos p <= 53)%Z by lia.
      eapply Z.lt_le_trans with (2 ^ d * 2 ^ Zpos p)%Z.
      - apply Z.mul_lt_mono_pos_r; [apply Z.pow_pos_nonneg; lia|exact Hhi].
      - rewrite <- Z.pow_add_r by lia. apply Z.pow_le_mono_r; lia. }
    destruct (binary_round_aux_cases false mz e0 loc_Exact He0) as (m2 & _ & Hx & Hfin).
    rewrite fexp_eq in Hx, Hfin.
    assert (H1 : Z.max e0 (Z.max (Zpos (digits2_pos mz) + e0 - 53) (-1074)) = e0) by lia.
    rewrite H1 in Hfin. specialize (Hx H1 eq_refl). injection Hx as ->.
    rewrite fexp_eq, H1 in Hfin.
    destruct (Hfin ltac:(lia)) as [q [Hq _]]. exists q, e0. split; [exact Hq|unfold e0; lia].
Qed.

(** A positive integer of at most 53 digits is rounded to itself. *)
Lemma binary_round_exact (D : positive) (ez : Z) :
  (-1074 <= ez <= 971)%Z -> (Zpos (digits2_pos D) <= 53)%Z ->
  exists q e,
    binary_round prec emax false D ez = S754_finite false q e /\
    e = Z.min ez (Z.max (Zpos (digits2_pos D) + ez - 53) (-1074)) /\
    Zpos q = (Zpos D * 2 ^ (ez - e))%Z.
Proof.
  intros Hez Hd.
  pose proof (digits2_pos_bounds D) as [Hlo Hhi].
  set (d := Zpos (digits2_pos D)) in *.
  unfold binary_round, shl_align. rewrite fexp_eq. fold d.
  destruct (Z.max (d + ez - 53) (-1074) - ez)%Z as [|p|p] eqn:En; try lia.
  - destruct (binary_round_aux_cases false D ez loc_Exact ltac:(lia)) as (m2 & _ & Hx & Hfin).
    fold d in Hx, Hfin. rewrite fexp_eq in Hx, Hfin.
    assert (H1 : Z.max ez (Z.max (d + ez - 53) (-1074)) = ez) by lia.
    rewrite H1 in Hfin. specialize (Hx H1 eq_refl). injection Hx as ->.
    fold d in Hfin. rewrite fexp_eq, H1 in Hfin.
    destruct (Hfin ltac:(lia)) as [q [Hq Hv]]. exists q, ez. split; [exact Hq|].
    split; [lia|]. rewrite Hv, !Z.sub_diag, Z.pow_0_r, Z.div_1_r. lia.
  - set (mz := Pos.iter xO D p).
    set (e0 := (Z.max (d + ez - 53) (-1074))%Z) in *.
    assert (He0 : (-1074 <= e0)%Z) by (unfold e0; lia).
    assert (Hmz : Zpos mz = (Zpos D * 2 ^ Zpos p)%Z) by apply Pos_iter_xO.
    assert (Hp : Zpos p = (ez - e0)%Z) by lia.
    assert (Hdz : (Zpos (digits2_pos mz) + e0 - 53 <= e0)%Z).
    { assert (Zpos (digits2_pos mz) <= 53)%Z; [|lia].
      apply digits2_pos_le. rewrite Hmz.
      assert (d + Zpos p <= 53)%Z by lia.
      eapply Z.lt_le_trans with (2 ^ d * 2 ^ Zpos p)%Z.
      - apply Z.mul_lt_mono_pos_r; [apply Z.pow_pos_nonneg; lia|exact Hhi].
      - rewrite <- Z.pow_add_r by lia. apply Z.pow_le_mono_r; lia. }
    destruct (binary_round_aux_cases false mz e0 loc_Exact He0) as (m2 & _ & Hx & Hfin).
    rewrite fexp_eq in Hx, Hfin.
    assert (H1 : Z.max e0 (Z.max (Zpos (digits2_pos mz) + e0 - 53) (-1074)) = e0) by lia.
    rewrite H1 in Hfin. specialize (Hx H1 eq_refl). injection Hx as ->.
    rewrite fexp_eq, H1 in Hfin.
    destruct (Hfin ltac:(lia)) as [q [Hq Hv]]. exists q, e0. split; [exact Hq|].
    split; [lia|]. rewrite Hv, !Z.sub_diag, Z.pow_0_r, Z.div_1_r, Hmz, Hp. reflexivity.
Qed.

Lemma digits2_pos_normal (m : positive) :
  (2 ^ 52 <= Zpos m < 2 ^ 53)%Z -> Zpos (digits2_pos m) = 53%Z.
Proof.
  intros [Hlo Hhi]. pose proof (digits2_pos_bounds m) as [Hl Hh].
  pose proof (digits2_pos_le m 53 Hhi).
  destruct (Z_lt_le_dec (Zpos (digits2_pos m)) 53) as [Hlt|Hge]; [|lia].
  exfalso. assert (2 ^ Zpos (digits2_pos m) <= 2 ^ 52)%Z by (apply Z.pow_le_mono_r; lia).
  lia.
Qed.

(** **** Differences of values at least 50 *)

(** For finite [y <= x], both at least 50, [x - y] is [+0] when they are
    equal and otherwise a positive finite Number of exponent at least -99. *)
Lemma SFsub_ordered (mx my : positive) (ex ey : Z) :
  (2 ^ 52 <= Zpos mx < 2 ^ 53)%Z -> (2 ^ 52 <= Zpos my < 2 ^ 53)%Z ->
  (-47 <= ey)%Z -> (ex <= 971)%Z ->
  SFleb (S754_finite false my ey) (S754_finite false mx ex) = true ->
  (SFltb (S754_finite false my ey) (S754_finite false mx ex) = false /\
   SF64sub (S754_finite false mx ex) (S754_finite false my ey) = S754_zero false) \/
  (SFltb (S754_finite false my ey) (S754_finite false mx ex) = true /\
   exists q e,
     SF64sub (S754_finite false mx ex) (S754_finite false my ey) = S754_finite false q e /\
     (-99 <= e)%Z).
Proof.
  intros Hmx Hmy Hey Hex Hle.
  unfold SFleb, SFltb in *. cbn [SFcompare] in *.
  rewrite Pos.compare_cont_spec in *. cbn [Pos.switch_Eq] in *.
  unfold SF64sub, SFsub. cbn [cond_Zopp].
  assert (Hpow : forall k, (0 < k)%Z -> (2 <= 2 ^ k)%Z).
  { intros k Hk. change 2%Z with (2 ^ 1)%Z at 1. apply Z.pow_le_mono_r; lia. }
  destruct (Z.compare_spec ey ex) as [He|He|He]; try discriminate.
  - subst ey. rewrite Z.min_id.
    rewrite !shl_align_value by lia. rewrite Z.sub_diag, Z.pow_0_r, !Z.mul_1_r.
    destruct (Pos.compare_spec my mx) as [Hm|Hm|Hm]; try discriminate.
    + left. subst my. now rewrite Z.sub_diag.
    + right. split; [reflexivity|].
      destruct (Zpos mx - Zpos my)%Z as [|D|D] eqn:ED; try lia.
      cbn [binary_normalize].
      destruct (binary_round_bounded D ex (Zpos mx) 0) as (q & e & Hq & Hqe); try lia.
      exists q, e. split; [exact Hq|].
      pose proof (Pos2Z.is_pos (digits2_pos D)). lia.
  - right. split; [reflexivity|].
    replace (Z.min ex ey) with ey by lia.
    rewrite !shl_align_value by lia. rewrite Z.sub_diag, Z.pow_0_r, Z.mul_1_r.
    pose proof (Hpow (ex - ey)%Z ltac:(lia)).
    destruct (Zpos mx * 2 ^ (ex - ey) - Zpos my)%Z as [|D|D] eqn:ED; try nia.
    cbn [binary_normalize].
    destruct (binary_round_bounded D ey (Zpos mx) (ex - ey)) as (q & e & Hq & Hqe); try lia.
    exists q, e. split; [exact Hq|].
    pose proof (Pos2Z.is_pos (digits2_pos D)). lia.
Qed.

(** **** Quotients *)

Lemma SFdiv_core_nonneg (m1 m2 : positive) (e1 e2 : Z) :
  (0 <= fst (fst (SFdiv_core_binary prec emax (Zpos m1) e1 (Zpos m2) e2)))%Z.
Proof.
  unfold SFdiv_core_binary.
  set (s := (e1 - e2 - _)%Z).
  set (m' := match s with Zpos _ => Z.shiftl (Zpos m1) s | 0%Z => Zpos m1 | Zneg _ => 0%Z end).
  assert (Hm' : (0 <= m')%Z).
  { unfold m'. destruct s; try lia. apply Z.shiftl_nonneg. lia. }
  pose proof (Z_div_mod m' (Zpos m2) ltac:(lia)) as Hdm.
  destruct (Z.div_eucl m' (Zpos m2)) as [q r]. cbn [fst]. nia.
Qed.

(** A zero or positive finite Number over a positive or infinite one is a
    Number of positive sign. *)
Lemma SFdiv_signed (a w : spec_float) :
  (a = S754_zero false \/ exists m e, a = S754_finite false m e) ->
  nonzero_signed false w ->
  signed_as false (SF64div a w).
Proof.
  intros [->|(m & e & ->)] Hw; destruct w as [sw|sw| |sw mw ew]; simpl in Hw;
    try contradiction; subst; try reflexivity.
  unfold SF64div, SFdiv.
  pose proof (SFdiv_core_nonneg m mw e ew) as Hq.
  destruct (SFdiv_core_binary prec emax (Zpos m) e (Zpos mw) ew) as [[q e'] l].
  cbn [fst] in Hq. now apply binary_round_aux_signed.
Qed.

(** A normal positive Number of exponent at least -99 over 40 is not zero. *)
Lemma SFdiv_by_bins (mb : positive) (eb : Z) :
  (2 ^ 52 <= Zpos mb < 2 ^ 53)%Z -> (-99 <= eb)%Z ->
  nonzero_signed false (SF64div (S754_finite false mb eb) (Prim2SF (of_nat bins))).
Proof.
  intros Hmb Heb.
  let v := eval vm_compute in (Prim2SF (of_nat bins)) in
    change (Prim2SF (of_nat bins)) with v.
  unfold SF64div, SFdiv, SFdiv_core_binary. cbn [Zdigits2 xorb].
  rewrite (digits2_pos_normal mb Hmb).
  change (Zpos (digits2_pos 5629499534213120)) with 53%Z.
  rewrite fexp_eq.
  replace (Z.min (Z.max (53 + eb - (53 + -47) - 53) (-1074)) (eb - -47))
    with (eb - 6)%Z by lia.
  replace (eb - -47 - (eb - 6))%Z with 53%Z by lia.
  rewrite Z.shiftl_mul_pow2 by lia.
  pose proof (Z_div_mod (Zpos mb * 2 ^ 53) 5629499534213120 ltac:(lia)) as Hdm.
  destruct (Z.div_eucl (Zpos mb * 2 ^ 53) 5629499534213120) as [q r].
  assert (Hq : (0 < q)%Z) by nia.
  destruct q as [|q|q]; try lia.
  apply binary_round_aux_nonzero. lia.
Qed.

End RoundingFacts.

(** ** The bin of a sample *)
Module BinIndexFacts.

Import JS Dashboard FloatFacts SamplerFacts StatsFacts BinnerFacts RoundingFacts.
Local Open Scope float_scope.

Lemma of_Z_small (n : Z) :
  (0 <= n < 2 ^ 53)%Z -> Prim2SF (of_Z n) = binary_normalize prec emax n 0 false.
Proof.
  intros Hn. unfold of_Z. destruct (Z.ltb_spec n 0); [lia|].
  rewrite of_uint63_spec, Uint63.of_Z_spec, Z.mod_small; [reflexivity|].
  change wB with (2 ^ 63)%Z. split; [lia|].
  eapply Z.lt_le_trans; [apply Hn|]. apply Z.pow_le_mono_r; lia.
Qed.

(** The Number of a positive integer [n] below [2^53] is [n], exactly, and
    as an array key it is the index [n]. *)
Lemma integer_shape (n : positive) :
  (Zpos n < 2 ^ 53)%Z ->
  exists q e,
    binary_normalize prec emax (Zpos n) 0 false = S754_finite false q e /\
    e = (Zpos (digits2_pos n) - 53)%Z /\ (e <= 0)%Z /\
    Zpos q = (Zpos n * 2 ^ (- e))%Z.
Proof.
  intros Hn. pose proof (digits2_pos_le n 53 Hn) as Hd.
  destruct (binary_round_exact n 0 ltac:(lia) Hd) as (q & e & Hq & He & Hv).
  exists q, e. split; [exact Hq|].
  pose proof (Pos2Z.is_pos (digits2_pos n)).
  assert (e = Zpos (digits2_pos n) - 53)%Z by lia.
  repeat split; try lia. rewrite Hv. reflexivity.
Qed.

Lemma array_index_integer (f : float) (q : positive) (e n : Z) :
  Prim2SF f = S754_finite false q e -> (e <= 0)%Z -> (0 <= n)%Z ->
  Zpos q = (n * 2 ^ (- e))%Z ->
  array_index f = Some (Z.to_nat n).
Proof.
  intros Hf He Hn Hq. unfold array_index. rewrite Hf.
  destruct (Z.leb_spec 0 e).
  - assert (e = 0)%Z as -> by lia. simpl in Hq. rewrite Z.shiftl_0_r. do 2 f_equal. lia.
  - rewrite Z.shiftr_div_pow2, Z.shiftl_mul_pow2 by lia.
    assert (Hdiv : (Zpos q / 2 ^ (- e) = n)%Z).
    { rewrite Hq. apply Z.div_mul. apply Z.pow_nonzero; lia. }
    rewrite Hdiv, <- Hq, Z.eqb_refl. reflexivity.
Qed.

Lemma last_bin : Prim2SF (of_nat bins - 1) = S754_finite false 5488762045857792 (-47).
Proof. reflexivity. Qed.

Lemma index_of_last_bin : array_index (of_nat bins - 1) = Some 39%nat.
Proof. reflexivity. Qed.

(** [Math.min(bins - 1, f)] for the Number [f] of an integer is an index
    below [bins]. *)
Lemma index_valid_integer (f : float) (n : Z) :
  (0 <= n < 2 ^ 53)%Z ->
  Prim2SF f = binary_normalize prec emax n 0 false ->
  exists i, array_index (Math_min (of_nat bins - 1) f) = Some i /\ (i < bins)%nat.
Proof.
  intros Hn Hf. destruct n as [|n|n]; try lia.
  - cbn [binary_normalize] in Hf.
    assert (Hm : Math_min (of_nat bins - 1) f = f).
    { unfold Math_min.
      assert (is_nan f = false) as -> by (apply is_nan_false; rewrite Hf; discriminate).
      change (is_nan (of_nat bins - 1)) with false. cbn [orb].
      rewrite !ltb_spec, Hf, last_bin. reflexivity. }
    rewrite Hm. exists 0%nat. unfold array_index. rewrite Hf. split; [reflexivity|].
    unfold bins. lia.
  - destruct (integer_shape n ltac:(lia)) as (q & e & Hq & He & He0 & Hv).
    rewrite Hq in Hf.
    assert (Hnan : is_nan f = false) by (apply is_nan_false; rewrite Hf; discriminate).
    unfold Math_min. rewrite Hnan. change (is_nan (of_nat bins - 1)) with false.
    cbn [orb].
    destruct (of_nat bins - 1 <? f) eqn:E1.
    { exists 39%nat. split; [exact index_of_last_bin|unfold bins; lia]. }
    assert (Hres : (if f <? of_nat bins - 1 then f
                    else if get_sign (of_nat bins - 1) then of_nat bins - 1 else f) = f).
    { destruct (f <? of_nat bins - 1); [reflexivity|].
      change (get_sign (of_nat bins - 1)) with false. reflexivity. }
    rewrite Hres. exists (Z.to_nat (Zpos n)).
    split; [eapply array_index_integer; eauto; lia|].
    rewrite ltb_spec, Hf, last_bin in E1. unfold SFltb in E1. cbn [SFcompare] in E1.
    rewrite Pos.compare_cont_spec in E1. cbn [Pos.switch_Eq] in E1.
    pose proof (digits2_pos_bounds n) as [_ Hhi].
    assert (Zpos n < 40)%Z; [|unfold bins; lia].
    destruct (Z.compare_spec (-47) e) as [He1|He1|He1]; try discriminate.
    + destruct (Pos.compare_spec 5488762045857792 q) as [Hc|Hc|Hc]; try discriminate.
      * replace (- e)%Z with 47%Z in Hv by lia.
        change (2 ^ 47)%Z with 140737488355328%Z in Hv.
        assert (Zpos q = 5488762045857792)%Z by (now rewrite <- Hc). lia.
      * apply Pos2Z.pos_lt_pos in Hc.
        replace (- e)%Z with 47%Z in Hv by lia.
        change (2 ^ 47)%Z with 140737488355328%Z in Hv. lia.
    + assert (Zpos (digits2_pos n) <= 5)%Z by lia.
      assert (2 ^ Zpos (digits2_pos n) <= 2 ^ 5)%Z by (apply Z.pow_le_mono_r; lia).
      change (2 ^ 5)%Z with 32%Z in *. lia.
Qed.

(** The index of a quotient that is zero, positive or [+Infinity]. *)
Lemma index_valid (q : float) :
  signed_as false (Prim2SF q) ->
  exists i,
    array_index (Math_min (of_nat bins - 1) (Math_floor q)) = Some i /\ (i < bins)%nat.
Proof.
  intros Hq. destruct (Prim2SF q) as [s|s| |s m e] eqn:E; simpl in Hq;
    try contradiction; subst s.
  - apply (index_valid_integer _ 0); [lia|].
    unfold Math_floor. now rewrite E.
  - assert (Hm : Math_min (of_nat bins - 1) (Math_floor q) = of_nat bins - 1).
    { unfold Math_floor. rewrite E. unfold Math_min.
      assert (is_nan q = false) as -> by (apply is_nan_false; rewrite E; discriminate).
      change (is_nan (of_nat bins - 1)) with false. cbn [orb].
      rewrite ltb_spec, E, last_bin. reflexivity. }
    rewrite Hm. exists 39%nat. split; [exact index_of_last_bin|unfold bins; lia].
  - destruct (valid_finite q _ _ _ E) as (He & Hm & _).
    unfold Math_floor. rewrite E. destruct (Z.leb_spec 0 e) as [He0|He0].
    + assert (Hmin : Math_min (of_nat bins - 1) q = of_nat bins - 1).
      { unfold Math_min.
        assert (is_nan q = false) as -> by (apply is_nan_false; rewrite E; discriminate).
        change (is_nan (of_nat bins - 1)) with false. cbn [orb].
        rewrite ltb_spec, E, last_bin. unfold SFltb. cbn [SFcompare].
        destruct (Z.compare_spec (-47) e); try lia. reflexivity. }
      rewrite Hmin. exists 39%nat. split; [exact index_of_last_bin|unfold bins; lia].
    + assert (Hn : (0 <= Z.shiftr (Zpos m) (- e) < 2 ^ 53)%Z).
      { rewrite Z.shiftr_div_pow2 by lia. split.
        - apply Z.div_pos; [lia|apply Z.pow_pos_nonneg; lia].
        - eapply Z.le_lt_trans; [|exact Hm].
          apply Z.div_le_upper_bound; [apply Z.pow_pos_nonneg; lia|].
          pose proof (Z.pow_pos_nonneg 2 (- e) ltac:(lia) ltac:(lia)). nia. }
      apply (index_valid_integer _ _ Hn), of_Z_small, Hn.
Qed.

End BinIndexFacts.


(** ** The histogram of a population of finite values *)
Module HistogramFacts.

Import JS Dashboard FloatFacts SamplerFacts StatsFacts BinnerFacts RoundingFacts
  BinIndexFacts.
Local Open Scope float_scope.

Lemma finite_shape (x : float) :
  ge50 x -> is_finite x = true ->
  exists m e, Prim2SF x = S754_finite false m e /\ (-47 <= e <= 971)%Z /\
              (2 ^ 52 <= Zpos m < 2 ^ 53)%Z.
Proof.
  intros Hx Hf. destruct (ge50_shape x Hx) as [Ex|(m & e & Ex & He & Hm)].
  - unfold is_finite in Hf. rewrite (is_infinity_true x _ Ex), orb_true_r in Hf.
    discriminate.
  - exists m, e. destruct (valid_finite x _ _ _ Ex) as (He' & _).
    split; [exact Ex|]. split; lia.
Qed.

(** Every value between the minimum and a larger maximum falls in a bin. *)
Lemma bin_index_valid (v m0 M : float) :
  ge50 v -> is_finite v = true -> ge50 m0 -> is_finite m0 = true ->
  ge50 M -> is_finite M = true ->
  (m0 <=? v) = true -> (m0 <? M) = true ->
  exists i,
    array_index
      (Math_min (of_nat bins - 1)
         (Math_floor ((v - m0) / ((M - m0) / of_nat bins)))) = Some i /\
    (i < bins)%nat.
Proof.
  intros Hv Hvf Hm Hmf HM HMf Hle Hlt.
  destruct (finite_shape v Hv Hvf) as (mv & ev & Ev & Hev & Hmv).
  destruct (finite_shape m0 Hm Hmf) as (mm & em & Em & Hem & Hmm).
  destruct (finite_shape M HM HMf) as (mM & eM & EM & HeM & HmM).
  apply index_valid. rewrite div_spec. apply SFdiv_signed.
  - rewrite sub_spec, Ev, Em. rewrite leb_spec, Em, Ev in Hle.
    destruct (SFsub_ordered mv mm ev em) as [[_ ->]|(_ & q & e & -> & _)];
      try lia; eauto.
  - rewrite div_spec.
    pose proof (ltb_leb _ _ Hlt) as Hle'.
    rewrite leb_spec, Em, EM in Hle'. rewrite ltb_spec, Em, EM in Hlt.
    destruct (SFsub_ordered mM mm eM em) as [[Hc _]|(_ & q & e & Hq & He)];
      try lia; try assumption; [congruence|].
    assert (Eb : Prim2SF (M - m0) = S754_finite false q e)
      by (now rewrite sub_spec, EM, Em).
    destruct (valid_finite _ _ _ _ Eb) as (_ & Hq1 & Hq2).
    rewrite Eb. apply SFdiv_by_bins; [split; [apply Hq2; lia|exact Hq1]|exact He].
Qed.

(** **** The extremes of a population of finite values *)

Lemma min_of_finite (vals : list float) :
  vals <> [] -> Forall (fun v => ge50 v /\ is_finite v = true) vals ->
  is_nan (Math_min_list vals) = false ->
  Math_min_list vals ∈ vals /\
  Forall (fun v => (Math_min_list vals <=? v) = true) vals.
Proof.
  intros Hne Hall Hn. unfold Math_min_list in *.
  destruct (fold_min_spec vals infinity Hn) as (_ & Hlo & [Hinf|Hin]); [|auto].
  exfalso. destruct vals as [|v vals]; [congruence|].
  apply Forall_cons in Hlo. destruct Hlo as [Hlo _]. rewrite Hinf in Hlo.
  apply Forall_cons in Hall. destruct Hall as [[Hv Hf] _].
  destruct (finite_shape v Hv Hf) as (m & e & Ev & _).
  rewrite leb_spec, Ev in Hlo. discriminate.
Qed.

Lemma max_of_finite (vals : list float) :
  vals <> [] -> Forall (fun v => ge50 v /\ is_finite v = true) vals ->
  is_nan (Math_max_list vals) = false ->
  Math_max_list vals ∈ vals /\
  Forall (fun v => (v <=? Math_max_list vals) = true) vals.
Proof.
  intros Hne Hall Hn. unfold Math_max_list in *.
  destruct (fold_max_spec vals neg_infinity Hn) as (_ & Hhi & [Hinf|Hin]); [|auto].
  exfalso. destruct vals as [|v vals]; [congruence|].
  apply Forall_cons in Hhi. destruct Hhi as [Hhi _]. rewrite Hinf in Hhi.
  apply Forall_cons in Hall. destruct Hall as [[Hv Hf] _].
  destruct (finite_shape v Hv Hf) as (m & e & Ev & _).
  rewrite leb_spec, Ev in Hhi. discriminate.
Qed.

(** **** The counters *)

Lemma alter_S_spec (dist : list nat) :
  forall i, (i < length dist)%nat ->
    length (alter S i dist) = length dist /\
    sum_list (alter S i dist) = S (sum_list dist).
Proof.
  induction dist as [|c dist IH]; intros i Hi; simpl in Hi; [lia|].
  destruct i as [|i]; [simpl; split; lia|].
  destruct (IH i ltac:(lia)) as [H1 H2].
  change (alter S (S i) (c :: dist)) with (c :: alter S i dist).
  cbn [length sum_list_with]. rewrite H1, H2. unfold id. split; lia.
Qed.

Lemma counts_fold (st : Stats.t) (w : float) (l : list sample) :
  Forall (fun s => exists i, array_index (bin_index st w s) = Some i /\ (i < bins)%nat) l ->
  forall dist, length dist = bins ->
    length (fold_left (fun dist s => increment dist (bin_index st w s)) l dist) = bins /\
    sum_list (fold_left (fun dist s => increment dist (bin_index st w s)) l dist)
      = (sum_list dist + length l)%nat.
Proof.
  induction 1 as [|s l (i & Hi & Hlt) _ IH]; intros dist Hd; simpl.
  - split; [exact Hd|lia].
  - unfold increment at 2 4. rewrite Hi.
    destruct (alter_S_spec dist i ltac:(lia)) as [Hl Hs].
    destruct (IH (alter S i dist) ltac:(lia)) as [-> ->]. split; [reflexivity|lia].
Qed.

Lemma sum_list_replicate_0 (n : nat) : sum_list (replicate n 0%nat) = 0%nat.
Proof. induction n; simpl; auto. Qed.

Lemma elem_of_le_sum (c : nat) (l : list nat) : c ∈ l -> (c <= sum_list l)%nat.
Proof. induction 1; simpl; lia. Qed.

(** On a population of finite values with [min < max], every sample
    increments exactly one of the 40 counters. *)
Lemma counts_total `{MathLib} (simulations : list sample) (st : Stats.t) :
  Forall finite_value simulations ->
  stats simulations = Normal st ->
  (Stats.min st <? Stats.max st) = true ->
  length (counts simulations st) = bins /\
  sum_list (counts simulations st) = length simulations.
Proof.
  intros Hall Hst Hlt.
  destruct (stats_fields simulations st Hst) as (Hne & Hmin & Hmax).
  set (vals := map npv (Array_sort by_npv simulations)) in *.
  assert (Hvals : Forall (fun v => ge50 v /\ is_finite v = true) vals).
  { unfold vals. apply Forall_map. rewrite Array_sort_Permutation. exact Hall. }
  assert (Hvne : vals <> []).
  { intros Hnil. apply Hne. apply (f_equal (@length float)) in Hnil.
    unfold vals in Hnil. rewrite length_map, length_Array_sort in Hnil.
    now destruct simulations. }
  destruct (min_of_finite vals Hvne Hvals) as [Hmin_in Hlo];
    [rewrite <- Hmin; eapply ltb_not_nan_l, Hlt|].
  destruct (max_of_finite vals Hvne Hvals) as [Hmax_in Hhi];
    [rewrite <- Hmax; eapply ltb_not_nan_r, Hlt|].
  rewrite <- Hmin in Hmin_in, Hlo. rewrite <- Hmax in Hmax_in.
  destruct (proj1 (Forall_forall _ _) Hvals _ Hmin_in) as [Hm50 Hmf].
  destruct (proj1 (Forall_forall _ _) Hvals _ Hmax_in) as [HM50 HMf].
  unfold counts.
  destruct (counts_fold st (bin_width st) simulations) with (dist := replicate bins 0%nat)
    as [Hlen Hsum].
  - apply Forall_forall. intros s Hs.
    destruct (proj1 (Forall_forall _ _) Hall s Hs) as [Hs50 Hsf].
    apply bin_index_valid; auto.
    apply (proj1 (Forall_forall _ _) Hlo). now apply elem_of_sorted_vals.
  - apply length_replicate.
  - split; [exact Hlen|]. now rewrite Hsum, sum_list_replicate_0.
Qed.

(** **** The probabilities *)

Lemma all_from_spec (f : Z -> bool) (n : nat) :
  forall s z, all_from f s n = true -> (s <= z < s + Z.of_nat n)%Z -> f z = true.
Proof.
  induction n as [|n IH]; intros s z Hall Hz; [lia|].
  simpl in Hall. apply andb_prop in Hall. destruct Hall as [Hs Hall].
  destruct (Z.eq_dec z s) as [->|Hne]; [exact Hs|].
  apply (IH (s + 1)%Z); [exact Hall|lia].
Qed.

Lemma percent_ok_all : all_from percent_ok 0 (Z.to_nat 10001) = true.
Proof. vm_cast_no_check (@eq_refl bool true). Qed.

Lemma bar_y_percent (st : Stats.t) (i c : nat) :
  Bar.y (bar_of st population_size i c) = percent_of_Z (Z.of_nat c).
Proof.
  unfold bar_of, percent_of_Z, of_nat, population_size. cbn [Bar.y].
  now rewrite Z2Nat.id by lia.
Qed.

Lemma percent_facts (c : nat) :
  (c <= population_size)%nat ->
  let y := percent_of_Z (Z.of_nat c) in
  (y <=? 100) = true /\
  (0 <? y) = (0 <? c)%nat /\
  (float2Q y - inject_Z (Z.of_nat c) * (1 # 100) <= 1 # 1000000000)%Q /\
  (inject_Z (Z.of_nat c) * (1 # 100) - float2Q y <= 1 # 1000000000)%Q.
Proof.
  intros Hc y.
  assert (Hok : percent_ok (Z.of_nat c) = true).
  { apply (all_from_spec _ _ _ _ percent_ok_all). unfold population_size in Hc. lia. }
  unfold percent_ok in Hok. fold y in Hok.
  apply andb_prop in Hok. destruct Hok as [Hok H4].
  apply andb_prop in Hok. destruct Hok as [Hok H3].
  apply andb_prop in Hok. destruct Hok as [H1 H2].
  apply Qle_bool_iff in H3, H4. repeat split; try assumption.
  destruct c as [|c].
  - reflexivity.
  - apply orb_prop in H2. destruct H2 as [H2|H2]; [apply Z.eqb_eq in H2; lia|].
    rewrite H2. reflexivity.
Qed.

(** **** Lists of bars *)

Lemma filter_imap_indexed {A B} (f : B -> bool) (h : A -> bool) (g' : nat -> A -> B)
    (l : list A) :
  forall (k : nat) (g : nat -> A -> B),
    (forall i a, g i a = g' (k + i)%nat a) ->
    (forall i a, a ∈ l -> f (g' i a) = h a) ->
    List.filter f (imap g l) =
    map (fun ic => g' (fst ic) (snd ic))
        (List.filter (fun ic => h (snd ic)) (indexed_from k l)).
Proof.
  induction l as [|a l IH]; intros k g Hg Hf; [reflexivity|].
  rewrite imap_cons. cbn [indexed_from List.filter snd].
  rewrite Hg, Nat.add_0_r, Hf by constructor.
  rewrite (IH (S k) (g ∘ S)).
  - destruct (h a); reflexivity.
  - intros i b. unfold compose. rewrite Hg. f_equal. lia.
  - intros i b Hb. apply Hf. now constructor.
Qed.

Lemma Forall_imap {A B} (P : B -> Prop) (l : list A) :
  forall g : nat -> A -> B,
    (forall i a, a ∈ l -> P (g i a)) -> Forall P (imap g l).
Proof.
  induction l as [|a l IH]; intros g Hg; [constructor|].
  rewrite imap_cons. constructor; [apply Hg; constructor|].
  apply IH. intros i b Hb. apply Hg. now constructor.
Qed.

Lemma Forall_filter_bool {A} (P : A -> Prop) (f : A -> bool) (l : list A) :
  Forall P l -> Forall P (List.filter f l).
Proof.
  induction 1 as [|a l Ha _ IH]; simpl; [constructor|].
  destruct (f a); [now constructor|exact IH].
Qed.

(** **** Exact sums *)

Local Open Scope Q_scope.

Lemma total_percent_bounds (l : list nat) :
  forall g : nat -> nat -> Bar.t,
    (forall i c, Bar.y (g i c) = percent_of_Z (Z.of_nat c)) ->
    Forall (fun c => (c <= population_size)%nat) l ->
    inject_Z (Z.of_nat (sum_list l)) * (1 # 100)
      - inject_Z (Z.of_nat (length l)) * (1 # 1000000000)
      <= total_percent (imap g l) /\
    total_percent (imap g l)
      <= inject_Z (Z.of_nat (sum_list l)) * (1 # 100)
         + inject_Z (Z.of_nat (length l)) * (1 # 1000000000).
Proof.
  induction l as [|c l IH]; intros g Hg Hall.
  - unfold total_percent. cbn [imap map Qsum fold_right length sum_list sum_list_with Z.of_nat].
    change (inject_Z (Z.of_nat 0)) with 0. split; lra.
  - apply Forall_cons in Hall. destruct Hall as [Hc Hall].
    rewrite imap_cons. unfold total_percent in *. cbn [map Qsum fold_right].
    destruct (IH (g ∘ S) ltac:(intros; apply Hg) Hall) as [IH1 IH2].
    destruct (percent_facts c Hc) as (_ & _ & H3 & H4). rewrite <- (Hg 0%nat c) in H3, H4.
    cbn [length sum_list_with]. unfold id.
    rewrite Nat2Z.inj_succ, Nat2Z.inj_add, <- Z.add_1_l, !inject_Z_plus.
    unfold Qsum in *. change (inject_Z 1) with 1.
    change (sum_list_with (fun x : nat => x) l) with (sum_list l).
    set (a := inject_Z (Z.of_nat c)) in *.
    set (b := inject_Z (Z.of_nat (sum_list l))) in *.
    set (n := inject_Z (Z.of_nat (length l))) in *.
    set (y := float2Q (Bar.y (g 0%nat c))) in *.
    set (r := fold_right Qplus 0 _) in *.
    split; lra.
Qed.

Lemma total_percent_filter (bars : list Bar.t) :
  Forall (fun d => (0 <? Bar.y d)%float = false -> float2Q (Bar.y d) == 0) bars ->
  total_percent (List.filter (fun d => (0 <? Bar.y d)%float) bars) == total_percent bars.
Proof.
  induction 1 as [|d bars Hd _ IH]; [reflexivity|].
  unfold total_percent in *. cbn [List.filter map Qsum fold_right].
  destruct (0 <? Bar.y d)%float eqn:E; cbn [map Qsum fold_right].
  - unfold Qsum in IH. rewrite IH. reflexivity.
  - unfold Qsum in IH. rewrite IH, (Hd eq_refl). lra.
Qed.

End HistogramFacts.

Module HistogramClaims.

Import JS Dashboard FloatFacts SamplerFacts StatsFacts BinnerFacts HistogramFacts.
Local Open Scope float_scope.

Lemma zero_pair_first_run :
  fst (@simulations RefMath.math "base" zero_pair_first 0%N) =
  Normal infinite_first_population.
Proof.
  unfold simulations.
  change (object_get params_table "base")
    with (Own {| p_mean := 89.4; p_std := 11.2; p_ms := 0.749 |}).
  rewrite simulations_loop_own. cbn [fst app]. apply f_equal.
  unfold infinite_first_population.
  destruct population_size_succ as [k Hk]. rewrite Hk.
  change (Nat.pred (S k)) with k.
  change (@variates RefMath.math zero_pair_first 0 (S k))
    with (@box_muller RefMath.math (zero_pair_first 0) (zero_pair_first (N.succ 0))
          :: @variates RefMath.math zero_pair_first (N.succ (N.succ 0)) k).
  rewrite (variates_periodic _ 0.5 0.5).
  - cbn [map]. rewrite map_replicate. vm_compute. reflexivity.
  - intros j. unfold zero_pair_first.
    replace (_ <? 2)%N with false; [reflexivity|]. symmetry. apply N.ltb_ge. lia.
  - intros j. unfold zero_pair_first.
    replace (_ <? 2)%N with false; [reflexivity|]. symmetry. apply N.ltb_ge. lia.
Qed.

Lemma length_cons_replicate {A} (x y : A) :
  length (x :: replicate (Nat.pred population_size) y) = population_size.
Proof.
  cbn [length]. rewrite length_replicate.
  destruct population_size_succ as [k ->]. reflexivity.
Qed.

(** C6 (as stated, refuted): the run of the [base] scenario on the stream
    [zero_pair_first] is a population of 10,000 samples within the ranges of
    the data model, with [stats.min < stats.max], whose first value is
    [+Infinity].  The bin width is infinite, the index of the infinite
    sample is NaN and no counter is incremented for it: the counters sum to
    9,999, and the probabilities of all the bins sum to 99.99, farther
    than [10^-6] from 100. *)
Lemma infinite_value_counterexample :
  let pop := infinite_first_population in
  let st := infinite_first_stats in
  fst (@simulations RefMath.math "base" zero_pair_first 0%N) = Normal pop /\
  length pop = population_size /\
  Forall in_range pop /\
  @stats RefMath.math pop = Normal st /\
  (Stats.min st <? Stats.max st) = true /\
  Z.of_nat (sum_list (counts pop st)) = 9999%Z /\
  distribution pop st = [ {| Bar.x := infinity; Bar.y := 99.989999999999995 |} ] /\
  (total_percent (imap (bar_of st (length pop)) (counts pop st)) < 100 - (1 # 1000000))%Q.
Proof.
  cbv zeta. split; [exact zero_pair_first_run|].
  split; [apply length_cons_replicate|].
  split.
  { apply Forall_cons. split; [split; [|split]; vm_compute; reflexivity|].
    apply Forall_replicate. split; [|split]; vm_compute; reflexivity. }
  split; [vm_compute; reflexivity|].
  split; [vm_compute; reflexivity|].
  split; [vm_compute; reflexivity|].
  split; vm_compute; reflexivity.
Qed.

(** C6 (amended): for every population of 10,000 samples whose values are
    finite and at least 50, with [stats.min < stats.max]: the 40 counters
    sum to 10,000; the output is the bars of the bins with a count, in
    ascending order of bin index; no probability exceeds 100; and the exact
    sum of the probabilities, over all the bins and over the output, is
    within [10^-6] of 100. *)
Theorem histogram_mass `{MathLib} (simulations : list sample) (st : Stats.t) :
  length simulations = population_size ->
  Forall finite_value simulations ->
  stats simulations = Normal st ->
  (Stats.min st <? Stats.max st) = true ->
  let dist := counts simulations st in
  length dist = bins /\
  sum_list dist = population_size /\
  distribution simulations st =
    map (fun ic => bar_of st population_size (fst ic) (snd ic)) (nonzero_bins dist) /\
  Forall (fun d => (Bar.y d <=? 100) = true) (distribution simulations st) /\
  (Qabs (total_percent (imap (bar_of st population_size) dist) - 100) <= 1 # 1000000)%Q /\
  (Qabs (total_percent (distribution simulations st) - 100) <= 1 # 1000000)%Q.
Proof.
  intros Hlen Hall Hst Hlt dist.
  destruct (counts_total simulations st Hall Hst Hlt) as [Hbins Hsum].
  fold dist in Hbins, Hsum. rewrite Hlen in Hsum.
  assert (Hle : Forall (fun c => (c <= population_size)%nat) dist).
  { apply Forall_forall. intros c Hc. rewrite <- Hsum. now apply elem_of_le_sum. }
  assert (Hpos : forall i c, c ∈ dist ->
            (0 <? Bar.y (bar_of st population_size i c)) = (0 <? c)%nat).
  { intros i c Hc. rewrite bar_y_percent.
    apply (percent_facts c), (proj1 (Forall_forall _ _) Hle c Hc). }
  assert (Hdist : distribution simulations st =
            List.filter (fun d => 0 <? Bar.y d) (imap (bar_of st population_size) dist)).
  { unfold distribution. now rewrite Hlen. }
  destruct (total_percent_bounds dist (bar_of st population_size)
              (bar_y_percent st) Hle) as [Hlo Hhi].
  rewrite Hsum, Hbins in Hlo, Hhi.
  change (inject_Z (Z.of_nat bins)) with (40 # 1)%Q in Hlo, Hhi.
  replace (inject_Z (Z.of_nat population_size)) with (10000 # 1)%Q in Hlo, Hhi
    by (unfold population_size; now rewrite Z2Nat.id by lia).
  assert (Hzero : (total_percent (List.filter (fun d => (0 <? Bar.y d)%float)
                                    (imap (bar_of st population_size) dist)) ==
                   total_percent (imap (bar_of st population_size) dist))%Q).
  { apply total_percent_filter, Forall_imap. intros i c Hc Hy.
    rewrite Hpos in Hy by exact Hc. apply Nat.ltb_ge in Hy.
    replace c with 0%nat by lia. reflexivity. }
  split; [exact Hbins|]. split; [exact Hsum|]. split; [|split; [|split]].
  - rewrite Hdist. unfold nonzero_bins.
    apply (filter_imap_indexed _ (fun c => (0 <? c)%nat)); [reflexivity|exact Hpos].
  - rewrite Hdist. apply Forall_filter_bool, Forall_imap. intros i c Hc.
    rewrite bar_y_percent.
    apply (percent_facts c), (proj1 (Forall_forall _ _) Hle c Hc).
  - apply Qabs_Qle_condition. split; lra.
  - rewrite Hdist. apply Qabs_Qle_condition. split; lra.
Qed.

Lemma histogram_mass_witness :
  let dist := counts two_level_population two_level_stats in
  length dist = bins /\
  sum_list dist = population_size /\
  distribution two_level_population two_level_stats =
    map (fun ic => bar_of two_level_stats population_size (fst ic) (snd ic))
        (nonzero_bins dist) /\
  Forall (fun d => (Bar.y d <=? 100) = true)
    (distribution two_level_population two_level_stats) /\
  (Qabs (total_percent (imap (bar_of two_level_stats population_size) dist) - 100)
     <= 1 # 1000000)%Q /\
  (Qabs (total_percent (distribution two_level_population two_level_stats) - 100)
     <= 1 # 1000000)%Q.
Proof.
  apply (@histogram_mass RefMath.math two_level_population two_level_stats).
  - apply length_cons_replicate.
  - apply Forall_cons. split; [split; vm_compute; reflexivity|].
    apply Forall_replicate. split; vm_compute; reflexivity.
  - vm_compute. reflexivity.
  - vm_compute. reflexivity.
Defined.

End HistogramClaims.


(** ** Not-a-Number in the arithmetic of the engine *)
Module NaNFacts.

Import JS Dashboard FloatFacts SamplerFacts StatsFacts BinnerFacts.
Local Open Scope float_scope.

Lemma add_nan_l (a b : float) : is_nan a = true -> is_nan (a + b) = true.
Proof.
  rewrite !is_nan_true, add_spec. intros ->. now destruct (Prim2SF b).
Qed.

Lemma add_nan_r (a b : float) : is_nan b = true -> is_nan (a + b) = true.
Proof.
  rewrite !is_nan_true, add_spec. intros ->. now destruct (Prim2SF a) as [| | |[]].
Qed.

Lemma sub_nan_l (a b : float) : is_nan a = true -> is_nan (a - b) = true.
Proof.
  rewrite !is_nan_true, sub_spec. intros ->. now destruct (Prim2SF b).
Qed.

Lemma sub_nan_r (a b : float) : is_nan b = true -> is_nan (a - b) = true.
Proof.
  rewrite !is_nan_true, sub_spec. intros ->. now destruct (Prim2SF a) as [| | |[]].
Qed.

Lemma mul_nan_l (a b : float) : is_nan a = true -> is_nan (a * b) = true.
Proof.
  rewrite !is_nan_true, mul_spec. intros ->. now destruct (Prim2SF b).
Qed.

Lemma mul_nan_r (a b : float) : is_nan b = true -> is_nan (a * b) = true.
Proof.
  rewrite !is_nan_true, mul_spec. intros ->. now destruct (Prim2SF a) as [| | |[]].
Qed.

Lemma div_nan_l (a b : float) : is_nan a = true -> is_nan (a / b) = true.
Proof.
  rewrite !is_nan_true, div_spec. intros ->. now destruct (Prim2SF b).
Qed.

Lemma div_nan_r (a b : float) : is_nan b = true -> is_nan (a / b) = true.
Proof.
  rewrite !is_nan_true, div_spec. intros ->. now destruct (Prim2SF a) as [| | |[]].
Qed.

(** All NaNs are one Number. *)
Lemma is_nan_eq (a : float) : is_nan a = true -> a = nan.
Proof.
  rewrite is_nan_true. intros Ha. apply Prim2SF_inj. now rewrite Ha.
Qed.

Lemma Math_min_nan_l (a b : float) : is_nan a = true -> Math_min a b = nan.
Proof. intros Ha. unfold Math_min. now rewrite Ha. Qed.

Lemma Math_min_nan_r (a b : float) : is_nan b = true -> Math_min a b = nan.
Proof. intros Hb. unfold Math_min. now rewrite Hb, orb_true_r. Qed.

Lemma Math_max_nan_l (a b : float) : is_nan a = true -> Math_max a b = nan.
Proof. intros Ha. unfold Math_max. now rewrite Ha. Qed.

Lemma Math_max_nan_r (a b : float) : is_nan b = true -> Math_max a b = nan.
Proof. intros Hb. unfold Math_max. now rewrite Hb, orb_true_r. Qed.

(** A fold whose step keeps NaN and yields NaN on a NaN element is NaN as
    soon as the list has a NaN element. *)
Lemma fold_left_nan (f : float -> float -> float) (l : list float) :
  (forall a b, is_nan a = true -> is_nan (f a b) = true) ->
  (forall a b, is_nan b = true -> is_nan (f a b) = true) ->
  forall acc,
    is_nan acc = true \/ Exists (fun v => is_nan v = true) l ->
    is_nan (fold_left f l acc) = true.
Proof.
  intros Hl Hr. induction l as [|v l IH]; intros acc [Hacc|Hex]; simpl.
  - exact Hacc.
  - inversion Hex.
  - apply IH. left. now apply Hl.
  - apply IH. inversion Hex; subst; [left; now apply Hr|now right].
Qed.

End NaNFacts.

(** ** Properties of the aggregator *)
Module StatsProperties.

Import JS Dashboard FloatFacts SamplerFacts StatsFacts BinnerFacts NaNFacts.
Local Open Scope float_scope.

(** **** The extremes *)

Lemma leb_infinity_l (v : float) : (infinity <=? v) = true -> v = infinity.
Proof.
  rewrite leb_spec. intros Hle. apply Prim2SF_inj.
  change (Prim2SF infinity) with (S754_infinity false).
  destruct (Prim2SF v) as [s|[]| |s m e]; try destruct s; try discriminate; reflexivity.
Qed.

Lemma leb_neg_infinity_r (v : float) : (v <=? neg_infinity) = true -> v = neg_infinity.
Proof.
  rewrite leb_spec. intros Hle. apply Prim2SF_inj.
  change (Prim2SF neg_infinity) with (S754_infinity true).
  destruct (Prim2SF v) as [s|[]| |s m e]; try destruct s; try discriminate; reflexivity.
Qed.

Lemma fold_min_not_nan (l : list float) :
  Forall (fun v => is_nan v = false) l ->
  forall acc, is_nan acc = false -> is_nan (fold_left Math_min l acc) = false.
Proof.
  induction 1 as [|v l Hv _ IH]; intros acc Hacc; simpl; [exact Hacc|].
  apply IH. now apply Math_min_not_nan.
Qed.

Lemma fold_max_not_nan (l : list float) :
  Forall (fun v => is_nan v = false) l ->
  forall acc, is_nan acc = false -> is_nan (fold_left Math_max l acc) = false.
Proof.
  induction 1 as [|v l Hv _ IH]; intros acc Hacc; simpl; [exact Hacc|].
  apply IH. now apply Math_max_not_nan.
Qed.

(** [Math.min(...vals)] of values without NaN is one of them and is below
    all of them. *)
Lemma min_of_numbers (vals : list float) :
  vals <> [] -> Forall (fun v => is_nan v = false) vals ->
  Math_min_list vals ∈ vals /\
  Forall (fun v => (Math_min_list vals <=? v) = true) vals.
Proof.
  intros Hne Hall. unfold Math_min_list.
  destruct (fold_min_spec vals infinity) as (_ & Hlo & Hin).
  { now apply fold_min_not_nan. }
  split; [|exact Hlo].
  destruct Hin as [Hinf|Hin]; [|exact Hin].
  destruct vals as [|v vals]; [congruence|].
  apply Forall_cons in Hlo. destruct Hlo as [Hv _].
  rewrite Hinf in Hv |- *. apply leb_infinity_l in Hv. rewrite Hv. constructor.
Qed.

Lemma max_of_numbers (vals : list float) :
  vals <> [] -> Forall (fun v => is_nan v = false) vals ->
  Math_max_list vals ∈ vals /\
  Forall (fun v => (v <=? Math_max_list vals) = true) vals.
Proof.
  intros Hne Hall. unfold Math_max_list.
  destruct (fold_max_spec vals neg_infinity) as (_ & Hhi & Hin).
  { now apply fold_max_not_nan. }
  split; [|exact Hhi].
  destruct Hin as [Hinf|Hin]; [|exact Hin].
  destruct vals as [|v vals]; [congruence|].
  apply Forall_cons in Hhi. destruct Hhi as [Hv _].
  rewrite Hinf in Hv |- *. apply leb_neg_infinity_r in Hv. rewrite Hv. constructor.
Qed.

(** The sorted values are the values of the population. *)
Lemma sorted_vals_elem (v : float) (simulations : list sample) :
  v ∈ map npv (Array_sort by_npv simulations) <->
  exists s, s ∈ simulations /\ npv s = v.
Proof.
  rewrite list_elem_of_fmap. split.
  - intros (s & -> & Hs). exists s. split; [|reflexivity].
    now rewrite Array_sort_Permutation in Hs.
  - intros (s & Hs & <-). exists s. split; [reflexivity|].
    now rewrite Array_sort_Permutation.
Qed.

Lemma sorted_vals_Forall (P : float -> Prop) (simulations : list sample) :
  Forall P (map npv (Array_sort by_npv simulations)) <->
  Forall (fun s => P (npv s)) simulations.
Proof. now rewrite Forall_fmap, Array_sort_Permutation. Qed.

(** X1: [stats] fails on the empty population only. *)
Theorem stats_empty_population `{MathLib} :
  stats [] = Throw (TypeError "Reduce of empty array with no initial value") /\
  forall s rest, is_throw (stats (s :: rest)) = false.
Proof.
  split; [reflexivity|]. intros s rest.
  destruct (stats_nonempty (s :: rest)) as (total & _ & ->); [discriminate|reflexivity].
Qed.

(** X2: on a population without NaN values, [stats.min] and [stats.max] are
    the values of two of its samples and bound the value of every sample. *)
Theorem stats_min_max `{MathLib} (simulations : list sample) (st : Stats.t) :
  Forall (fun s => is_nan (npv s) = false) simulations ->
  stats simulations = Normal st ->
  (exists s, s ∈ simulations /\ npv s = Stats.min st) /\
  (exists s, s ∈ simulations /\ npv s = Stats.max st) /\
  Forall (fun s => (Stats.min st <=? npv s) = true /\ (npv s <=? Stats.max st) = true)
    simulations.
Proof.
  intros Hall Hst. destruct (stats_fields simulations st Hst) as (Hne & -> & ->).
  set (vals := map npv (Array_sort by_npv simulations)).
  assert (Hvals : Forall (fun v => is_nan v = false) vals)
    by now apply sorted_vals_Forall.
  assert (Hvne : vals <> []).
  { intros Hnil. apply Hne. apply (f_equal (@length float)) in Hnil.
    unfold vals in Hnil. rewrite length_map, length_Array_sort in Hnil.
    now destruct simulations. }
  destruct (min_of_numbers vals Hvne Hvals) as [Hmin Hlo].
  destruct (max_of_numbers vals Hvne Hvals) as [Hmax Hhi].
  split; [now apply sorted_vals_elem|]. split; [now apply sorted_vals_elem|].
  apply sorted_vals_Forall in Hlo, Hhi.
  apply Forall_forall. intros s Hs. split.
  - apply (proj1 (Forall_forall _ _) Hlo s Hs).
  - apply (proj1 (Forall_forall _ _) Hhi s Hs).
Qed.

Lemma stats_min_max_witness :
  (exists s, s ∈ example_population /\ npv s = 55) /\
  (exists s, s ∈ example_population /\ npv s = 70) /\
  Forall (fun s => (55 <=? npv s) = true /\ (npv s <=? 70) = true) example_population.
Proof.
  apply (@stats_min_max RefMath.math example_population
           {| Stats.mean := 61.666666666666664; Stats.median := Some 60;
              Stats.p10 := Some 55; Stats.p90 := Some 70;
              Stats.min := 55; Stats.max := 70; Stats.std := 6.2360956446232363;
              Stats.positive := 100; Stats.above80 := 0;
              Stats.avgMs := 55.000000000000007; Stats.msAbove75 := 0 |}).
  - repeat constructor.
  - vm_compute. reflexivity.
Defined.

(** X3: one NaN value makes the mean, the minimum and the maximum NaN, and
    the histogram empty. *)
Theorem stats_nan_value `{MathLib} (simulations : list sample) :
  Exists (fun s => is_nan (npv s) = true) simulations ->
  exists st,
    stats simulations = Normal st /\
    is_nan (Stats.mean st) = true /\
    is_nan (Stats.min st) = true /\
    is_nan (Stats.max st) = true /\
    distribution simulations st = [].
Proof.
  intros Hex.
  assert (Hne : simulations <> []) by (intros ->; inversion Hex).
  destruct (stats_nonempty simulations Hne) as (total & Htotal & Hst).
  eexists. split; [exact Hst|]. cbv zeta. cbn [Stats.mean Stats.min Stats.max].
  set (vals := map npv (Array_sort by_npv simulations)) in *.
  assert (Hvals : Exists (fun v => is_nan v = true) vals).
  { apply Exists_exists in Hex. destruct Hex as (s & Hs & Hnan).
    apply Exists_exists. exists (npv s). split; [|exact Hnan].
    apply sorted_vals_elem. exists s. now split. }
  assert (Hmin : is_nan (Math_min_list vals) = true).
  { apply fold_left_nan; [| |now right].
    - intros a b Ha. now rewrite Math_min_nan_l.
    - intros a b Hb. now rewrite Math_min_nan_r. }
  assert (Hmax : is_nan (Math_max_list vals) = true).
  { apply fold_left_nan; [| |now right].
    - intros a b Ha. now rewrite Math_max_nan_l.
    - intros a b Hb. now rewrite Math_max_nan_r. }
  split; [|split; [exact Hmin|split; [exact Hmax|]]].
  - apply div_nan_l. destruct vals as [|v vs]; [inversion Hvals|].
    injection Htotal as <-.
    apply fold_left_nan; [apply add_nan_l|apply add_nan_r|].
    inversion Hvals; subst; [now left|now right].
  - match goal with |- distribution _ ?r = _ => set (st := r) end.
    assert (Hcounts : counts simulations st = replicate bins 0%nat).
    { unfold counts. apply fold_increment_nan. apply Forall_forall. intros s _.
      apply div_nan_l, sub_nan_r. exact Hmin. }
    unfold distribution. rewrite Hcounts. apply filter_imap_nil.
    intros i c Hc0. apply elem_of_replicate in Hc0. destruct Hc0 as [-> _].
    apply bar_of_zero.
Qed.

Lemma stats_nan_value_witness :
  exists st,
    @stats RefMath.math [ {| npv := 60; ms := 0.5 |}; {| npv := nan; ms := 0.6 |} ] = Normal st /\
    is_nan (Stats.mean st) = true /\
    is_nan (Stats.min st) = true /\
    is_nan (Stats.max st) = true /\
    distribution [ {| npv := 60; ms := 0.5 |}; {| npv := nan; ms := 0.6 |} ] st = [].
Proof.
  apply (@stats_nan_value RefMath.math).
  apply Exists_cons_tl, Exists_cons_hd. reflexivity.
Defined.

(** **** The percentiles of a population of 10,000 *)

Lemma StronglySorted_lookup {A} (R : A -> A -> Prop) (l : list A) :
  StronglySorted R l ->
  forall i j a b, (i < j)%nat -> l !! i = Some a -> l !! j = Some b -> R a b.
Proof.
  induction 1 as [|x l _ IH Hx]; intros i j a b Hij Ha Hb; [discriminate|].
  destruct j as [|j]; [lia|]. cbn in Hb.
  destruct i as [|i]; cbn in Ha.
  - injection Ha as <-. apply (proj1 (Forall_forall _ _) Hx).
    eapply list_elem_of_lookup_2, Hb.
  - apply (IH i j); [lia|assumption..].
Qed.

Lemma percentile_indices :
  array_index (Math_floor (of_nat population_size * 0.1)) = Some (Z.to_nat 1000) /\
  array_index (Math_floor (of_nat population_size * 0.5)) = Some (Z.to_nat 5000) /\
  array_index (Math_floor (of_nat population_size * 0.9)) = Some (Z.to_nat 9000).
Proof. repeat split; vm_compute; reflexivity. Qed.

(** The three percentiles of 10,000 sorted values are the values of rank
    1000, 5000 and 9000, in this order. *)
Lemma percentile_values (vals : list float) :
  length vals = population_size -> StronglySorted fle vals ->
  exists a b c,
    at_index vals (Math_floor (of_nat (length vals) * 0.1)) = Some a /\
    at_index vals (Math_floor (of_nat (length vals) * 0.5)) = Some b /\
    at_index vals (Math_floor (of_nat (length vals) * 0.9)) = Some c /\
    vals !! Z.to_nat 1000 = Some a /\ vals !! Z.to_nat 5000 = Some b /\
    vals !! Z.to_nat 9000 = Some c /\ fle a b /\ fle b c.
Proof.
  intros Hvlen Hsorted.
  destruct percentile_indices as (I10 & I50 & I90).
  assert (Hlt : forall n, (n < 10000)%Z -> (0 <= n)%Z -> is_Some (vals !! Z.to_nat n)).
  { intros n Hn Hn0. apply lookup_lt_is_Some. rewrite Hvlen. unfold population_size. lia. }
  destruct (Hlt 1000%Z) as [a Ha]; [lia..|].
  destruct (Hlt 5000%Z) as [b Hb]; [lia..|].
  destruct (Hlt 9000%Z) as [c Hc]; [lia..|].
  exists a, b, c. unfold at_index. rewrite Hvlen, I10, I50, I90.
  split; [exact Ha|]. split; [exact Hb|]. split; [exact Hc|].
  split; [exact Ha|]. split; [exact Hb|]. split; [exact Hc|]. split.
  - apply (StronglySorted_lookup _ _ Hsorted (Z.to_nat 1000) (Z.to_nat 5000) a b);
      [lia|exact Ha|exact Hb].
  - apply (StronglySorted_lookup _ _ Hsorted (Z.to_nat 5000) (Z.to_nat 9000) b c);
      [lia|exact Hb|exact Hc].
Qed.

(** X4: on a population of 10,000 samples whose values satisfy the floor,
    the 10th percentile, the median and the 90th percentile are the sorted
    values of rank 1000, 5000 and 9000 (counted from 0), and
    [min <= p10 <= median <= p90 <= max]. *)
Theorem stats_percentiles `{MathLib} (simulations : list sample) :
  length simulations = population_size ->
  Forall (fun s => ge50 (npv s)) simulations ->
  exists st a b c,
    stats simulations = Normal st /\
    Stats.p10 st = Some a /\ Stats.median st = Some b /\ Stats.p90 st = Some c /\
    map npv (Array_sort by_npv simulations) !! Z.to_nat 1000 = Some a /\
    map npv (Array_sort by_npv simulations) !! Z.to_nat 5000 = Some b /\
    map npv (Array_sort by_npv simulations) !! Z.to_nat 9000 = Some c /\
    fle (Stats.min st) a /\ fle a b /\ fle b c /\ fle c (Stats.max st).
Proof.
  intros Hlen Hall.
  assert (Hne : simulations <> []).
  { intros ->. destruct population_size_succ as [k Hk]. rewrite Hk in Hlen. discriminate. }
  destruct (stats_nonempty simulations Hne) as (total & _ & Hst).
  set (vals := map npv (Array_sort by_npv simulations)) in *.
  assert (Hvlen : length vals = population_size)
    by (unfold vals; now rewrite length_map, length_Array_sort).
  assert (Hvals : Forall ge50 vals) by now apply sorted_vals_Forall.
  assert (Hnan : Forall (fun v => is_nan v = false) vals).
  { eapply Forall_impl; [exact Hvals|]. intros v Hv. eapply leb_not_nan_r, Hv. }
  assert (Hvne : vals <> []) by (intros Hnil; rewrite Hnil in Hvlen;
    destruct population_size_succ as [k Hk]; rewrite Hk in Hvlen; discriminate).
  assert (Hsorted : StronglySorted fle vals).
  { unfold vals. rewrite map_Array_sort. apply Array_sort_sorted.
    apply Forall_map. exact Hall. }
  destruct (percentile_values vals Hvlen Hsorted)
    as (a & b & c & P10 & P50 & P90 & Ha & Hb & Hc & Hab & Hbc).
  destruct (min_of_numbers vals Hvne Hnan) as [_ Hlo].
  destruct (max_of_numbers vals Hvne Hnan) as [_ Hhi].
  eexists _, a, b, c. split; [exact Hst|]. cbv zeta.
  cbn [Stats.p10 Stats.median Stats.p90 Stats.min Stats.max].
  fold vals. rewrite P10, P50, P90.
  repeat split; try assumption.
  - apply (proj1 (Forall_forall _ _) Hlo).
    eapply list_elem_of_lookup_2, Ha.
  - apply (proj1 (Forall_forall _ _) Hhi).
    eapply list_elem_of_lookup_2, Hc.
Qed.

Lemma stats_percentiles_witness :
  exists st a b c,
    @stats RefMath.math two_level_population = Normal st /\
    Stats.p10 st = Some a /\ Stats.median st = Some b /\ Stats.p90 st = Some c /\
    map npv (Array_sort by_npv two_level_population) !! Z.to_nat 1000 = Some a /\
    map npv (Array_sort by_npv two_level_population) !! Z.to_nat 5000 = Some b /\
    map npv (Array_sort by_npv two_level_population) !! Z.to_nat 9000 = Some c /\
    fle (Stats.min st) a /\ fle a b /\ fle b c /\ fle c (Stats.max st).
Proof.
  apply (@stats_percentiles RefMath.math two_level_population).
  - apply HistogramClaims.length_cons_replicate.
  - apply Forall_cons. split; [vm_compute; reflexivity|].
    apply Forall_replicate. vm_compute. reflexivity.
Defined.

(** **** The count-based fractions of a population of 10,000 *)

Lemma percent_increasing_all :
  all_from Panels.percent_increasing 0 (Z.to_nat 10000) = true.
Proof. vm_cast_no_check (@eq_refl bool true). Qed.

Lemma percent_of_Z_lt (n : nat) :
  forall c, (0 <= c)%Z -> (c + Z.of_nat (S n) <= 10000)%Z ->
    (percent_of_Z c <? percent_of_Z (c + Z.of_nat (S n))) = true.
Proof.
  assert (Hstep : forall c, (0 <= c < 10000)%Z ->
            (percent_of_Z c <? percent_of_Z (c + 1)) = true).
  { intros c Hc. apply (HistogramFacts.all_from_spec _ _ _ _ percent_increasing_all). lia. }
  induction n as [|n IH]; intros c Hc0 Hc.
  - apply Hstep. lia.
  - replace (c + Z.of_nat (S (S n)))%Z with (c + Z.of_nat (S n) + 1)%Z by lia.
    eapply ltb_leb_trans; [apply IH; lia|]. apply ltb_leb, Hstep. lia.
Qed.

Lemma percent_of_Z_mono (c c' : Z) :
  (0 <= c <= c')%Z -> (c' <= 10000)%Z ->
  (percent_of_Z c <=? percent_of_Z c') = true.
Proof.
  intros Hc Hc'. destruct (Z.eq_dec c c') as [->|Hne].
  - apply leb_refl.
    destruct (HistogramFacts.percent_facts (Z.to_nat c')) as (Hle & _).
    { unfold population_size. lia. }
    rewrite Z2Nat.id in Hle by lia. eapply leb_not_nan_l, Hle.
  - replace c' with (c + Z.of_nat (S (Z.to_nat (c' - c - 1))))%Z by lia.
    apply ltb_leb, percent_of_Z_lt; lia.
Qed.

Lemma percent_of_Z_inj (c c' : Z) :
  (0 <= c <= 10000)%Z -> (0 <= c' <= 10000)%Z ->
  percent_of_Z c = percent_of_Z c' -> c = c'.
Proof.
  assert (Hlt : forall a b, (0 <= a < b)%Z -> (b <= 10000)%Z ->
            percent_of_Z a <> percent_of_Z b).
  { intros a b Hab Hb Heq.
    assert (H : (percent_of_Z a <? percent_of_Z b) = true).
    { replace b with (a + Z.of_nat (S (Z.to_nat (b - a - 1))))%Z by lia.
      apply percent_of_Z_lt; lia. }
    rewrite Heq in H. pose proof (ltb_not_ltb _ _ H) as H'. congruence. }
  intros Hc Hc' Heq. destruct (Z.lt_trichotomy c c') as [Hl|[He|Hg]]; [|exact He|].
  - exfalso. apply (Hlt c c'); [lia..|exact Heq].
  - exfalso. apply (Hlt c' c); [lia..|now symmetry].
Qed.

Lemma percent_where_count (pred : sample -> bool) (simulations : list sample) :
  length simulations = population_size ->
  percent_where pred simulations =
  percent_of_Z (Z.of_nat (length (List.filter pred simulations))).
Proof.
  intros Hlen. unfold percent_where, percent_of_Z, of_nat.
  rewrite Hlen. unfold population_size. now rewrite Z2Nat.id by lia.
Qed.

Lemma filter_length_le {A} (f : A -> bool) (l : list A) :
  (length (List.filter f l) <= length l)%nat.
Proof. induction l as [|a l IH]; simpl; [lia|]. destruct (f a); simpl; lia. Qed.

Lemma filter_length_mono {A} (f g : A -> bool) (l : list A) :
  (forall a, f a = true -> g a = true) ->
  (length (List.filter f l) <= length (List.filter g l))%nat.
Proof.
  intros Hfg. induction l as [|a l IH]; simpl; [lia|].
  destruct (f a) eqn:Ef.
  - rewrite (Hfg a Ef). simpl. lia.
  - destruct (g a); simpl; lia.
Qed.

Lemma filter_length_all {A} (f : A -> bool) (l : list A) :
  length (List.filter f l) = length l <-> Forall (fun a => f a = true) l.
Proof.
  induction l as [|a l IH]; simpl; [split; [constructor|reflexivity]|].
  pose proof (filter_length_le f l) as Hle.
  destruct (f a) eqn:Ef; simpl; split.
  - intros Hlen. constructor; [exact Ef|]. apply IH. lia.
  - intros Hall. apply Forall_cons in Hall. destruct Hall as [_ Hall].
    f_equal. now apply IH.
  - intros Hlen. lia.
  - intros Hall. apply Forall_cons in Hall. destruct Hall as [Ha _]. congruence.
Qed.

Lemma filter_length_none {A} (f : A -> bool) (l : list A) :
  length (List.filter f l) = 0%nat <-> Forall (fun a => f a = false) l.
Proof.
  induction l as [|a l IH]; simpl; [split; [constructor|reflexivity]|].
  destruct (f a) eqn:Ef; simpl; split.
  - discriminate.
  - intros Hall. apply Forall_cons in Hall. destruct Hall as [Ha _]. congruence.
  - intros Hlen. constructor; [exact Ef|]. now apply IH.
  - intros Hall. apply Forall_cons in Hall. destruct Hall as [_ Hall]. now apply IH.
Qed.

(** X5: on a population of 10,000 samples the three count-based fractions
    lie between 0 and 100, the fraction above 80 is at most the positive
    fraction, the positive fraction is exactly 100 if and only if every
    value is above 0, and a fraction is exactly 0 if and only if no sample
    passes its test. *)
Theorem stats_fractions `{MathLib} (simulations : list sample) :
  length simulations = population_size ->
  exists st,
    stats simulations = Normal st /\
    fle 0 (Stats.above80 st) /\
    fle (Stats.above80 st) (Stats.positive st) /\
    fle (Stats.positive st) 100 /\
    fle 0 (Stats.msAbove75 st) /\
    fle (Stats.msAbove75 st) 100 /\
    (Stats.positive st = 100 <-> Forall (fun s => (0 <? npv s) = true) simulations) /\
    (Stats.above80 st = 0 <-> Forall (fun s => (80 <? npv s) = false) simulations) /\
    (Stats.msAbove75 st = 0 <-> Forall (fun s => (0.75 <? ms s) = false) simulations).
Proof.
  intros Hlen.
  assert (Hne : simulations <> []).
  { intros ->. destruct population_size_succ as [k Hk]. rewrite Hk in Hlen. discriminate. }
  destruct (stats_nonempty simulations Hne) as (total & _ & Hst).
  eexists. split; [exact Hst|]. cbv zeta.
  cbn [Stats.positive Stats.above80 Stats.msAbove75].
  rewrite !percent_where_count by exact Hlen.
  set (pos := List.filter (fun s => 0 <? npv s) simulations).
  set (a80 := List.filter (fun s => 80 <? npv s) simulations).
  set (m75 := List.filter (fun s => 0.75 <? ms s) simulations).
  assert (Hpos : (length pos <= length simulations)%nat) by apply filter_length_le.
  assert (Ha80 : (length a80 <= length pos)%nat).
  { apply filter_length_mono. intros s Hs.
    eapply ltb_leb_trans; [|apply ltb_leb, Hs]. reflexivity. }
  assert (Hm75 : (length m75 <= length simulations)%nat) by apply filter_length_le.
  pose proof (filter_length_all (fun s => 0 <? npv s) simulations) as Fpos.
  pose proof (filter_length_none (fun s => 80 <? npv s) simulations) as Fa80.
  pose proof (filter_length_none (fun s => 0.75 <? ms s) simulations) as Fm75.
  fold pos in Fpos. fold a80 in Fa80. fold m75 in Fm75.
  rewrite Hlen in Hpos, Hm75, Fpos. unfold population_size in Hpos, Hm75, Fpos.
  clearbody pos a80 m75.
  change 0 with (percent_of_Z 0). change 100 with (percent_of_Z 10000).
  unfold fle. repeat split.
  - apply percent_of_Z_mono; lia.
  - apply percent_of_Z_mono; lia.
  - apply percent_of_Z_mono; lia.
  - apply percent_of_Z_mono; lia.
  - apply percent_of_Z_mono; lia.
  - intros Heq. apply percent_of_Z_inj in Heq; [|lia..]. apply Fpos. lia.
  - intros Hall. apply Fpos in Hall. rewrite Hall. now rewrite Z2Nat.id by lia.
  - intros Heq. apply percent_of_Z_inj in Heq; [|lia..]. apply Fa80. lia.
  - intros Hall. apply Fa80 in Hall. now rewrite Hall.
  - intros Heq. apply percent_of_Z_inj in Heq; [|lia..]. apply Fm75. lia.
  - intros Hall. apply Fm75 in Hall. now rewrite Hall.
Qed.

Lemma stats_fractions_witness :
  exists st,
    @stats RefMath.math two_level_population = Normal st /\
    fle 0 (Stats.above80 st) /\
    fle (Stats.above80 st) (Stats.positive st) /\
    fle (Stats.positive st) 100 /\
    fle 0 (Stats.msAbove75 st) /\
    fle (Stats.msAbove75 st) 100 /\
    (Stats.positive st = 100 <-> Forall (fun s => (0 <? npv s) = true) two_level_population) /\
    (Stats.above80 st = 0 <-> Forall (fun s => (80 <? npv s) = false) two_level_population) /\
    (Stats.msAbove75 st = 0 <-> Forall (fun s => (0.75 <? ms s) = false) two_level_population).
Proof.
  apply (@stats_fractions RefMath.math two_level_population).
  apply HistogramClaims.length_cons_replicate.
Defined.

End StatsProperties.

(** ** Properties of the binner *)
Module BinnerProperties.

Import JS Dashboard FloatFacts SamplerFacts StatsFacts BinnerFacts NaNFacts.
Local Open Scope float_scope.

Lemma alter_S_bound (dist : list nat) :
  forall i, length (alter S i dist) = length dist /\
            (sum_list (alter S i dist) <= S (sum_list dist))%nat.
Proof.
  induction dist as [|c dist IH]; intros i; [simpl; split; [reflexivity|lia]|].
  destruct i as [|i].
  - simpl. split; [reflexivity|lia].
  - destruct (IH i) as [Hlen Hsum].
    change (alter S (S i) (c :: dist)) with (c :: alter S i dist).
    cbn [length]. rewrite Hlen. split; [reflexivity|].
    change (sum_list (c :: alter S i dist)) with (c + sum_list (alter S i dist))%nat.
    change (sum_list (c :: dist)) with (c + sum_list dist)%nat. lia.
Qed.

Lemma increment_bound (dist : list nat) (idx : float) :
  length (increment dist idx) = length dist /\
  (sum_list (increment dist idx) <= S (sum_list dist))%nat.
Proof.
  unfold increment. destruct (array_index idx) as [i|].
  - apply alter_S_bound.
  - split; [reflexivity|lia].
Qed.

Lemma fold_increment_bound (f : sample -> float) (l : list sample) :
  forall dist,
    length (fold_left (fun dist s => increment dist (f s)) l dist) = length dist /\
    (sum_list (fold_left (fun dist s => increment dist (f s)) l dist)
       <= sum_list dist + length l)%nat.
Proof.
  induction l as [|s l IH]; intros dist; simpl; [split; [reflexivity|lia]|].
  destruct (IH (increment dist (f s))) as [Hlen Hsum].
  destruct (increment_bound dist (f s)) as [Hlen1 Hsum1].
  rewrite Hlen, Hlen1. split; [reflexivity|lia].
Qed.

(** X6: whatever the population and the statistics, the binner keeps 40
    counters, counts no sample more than once, and yields at most 40
    bars. *)
Theorem distribution_bounded (simulations : list sample) (st : Stats.t) :
  length (counts simulations st) = bins /\
  (sum_list (counts simulations st) <= length simulations)%nat /\
  (length (distribution simulations st) <= bins)%nat.
Proof.
  unfold counts.
  destruct (fold_increment_bound (bin_index st (bin_width st)) simulations
              (replicate bins 0%nat)) as [Hlen Hsum].
  rewrite length_replicate in Hlen. rewrite HistogramFacts.sum_list_replicate_0 in Hsum.
  split; [exact Hlen|]. split; [exact Hsum|].
  unfold distribution, counts.
  etransitivity; [apply StatsProperties.filter_length_le|].
  now rewrite length_imap, Hlen.
Qed.

End BinnerProperties.

(** ** Properties of a render *)
Module PanelProperties.

Import JS Dashboard Panels FloatFacts SamplerFacts StatsFacts BinnerFacts NaNFacts
  StatsProperties BinnerProperties.
Local Open Scope float_scope.

(** **** The chain, step by step *)

Lemma memos_normal `{MathLib} (scenario : string) (draws : N -> float) (n0 n1 : N)
    (sims : list sample) (st : Stats.t) (traj : list Point.t) :
  simulations scenario draws n0 = (Normal sims, n1) ->
  stats sims = Normal st ->
  trajectory scenario st = Normal traj ->
  memos scenario draws n0 =
    (Normal {| Memo.simulations := sims; Memo.stats := st;
               Memo.distribution := distribution sims st;
               Memo.trajectory := traj; Memo.scatter := scatter sims |}, n1).
Proof.
  intros Hsims Hst Htraj. unfold memos, bind, lift, ret.
  now rewrite Hsims, Hst, Htraj.
Qed.

Lemma population_nonempty (simulations : list sample) :
  length simulations = population_size -> simulations <> [].
Proof.
  intros Hlen ->. destruct population_size_succ as [k Hk].
  rewrite Hk in Hlen. discriminate.
Qed.

Lemma percentile_defined (vals : list float) (f : float) (n : Z) :
  length vals = population_size ->
  array_index (Math_floor (of_nat population_size * f)) = Some (Z.to_nat n) ->
  (0 <= n < 10000)%Z ->
  is_Some (at_index vals (Math_floor (of_nat (length vals) * f))).
Proof.
  intros Hlen Hi Hn. unfold at_index. rewrite Hlen, Hi.
  apply lookup_lt_is_Some. rewrite Hlen. unfold population_size. lia.
Qed.

Lemma map_from_years (factors : lookup_result (list float)) (st : Stats.t)
    (l : list Z) :
  forall i traj,
    map_from (trajectory_point factors st) i l = Normal traj ->
    map Point.year traj = map pretty l.
Proof.
  induction l as [|yr l IH]; intros i traj Htraj; simpl in Htraj.
  - now injection Htraj as <-.
  - unfold trajectory_point at 1 in Htraj.
    destruct (get_factor factors i) as [f|e]; [|discriminate].
    destruct (map_from _ (S i) l) as [rest|e] eqn:Hrest; [|discriminate].
    injection Htraj as <-. cbn [map Point.year]. f_equal. now apply (IH (S i)).
Qed.

Lemma map_from_not_undefined (factors : lookup_result (list float)) (st : Stats.t)
    (l : list Z) :
  factors <> Undefined ->
  forall i, exists traj, map_from (trajectory_point factors st) i l = Normal traj.
Proof.
  intros Hf. induction l as [|yr l IH]; intros i; simpl; [now eexists|].
  destruct (IH (S i)) as (rest & ->). unfold trajectory_point.
  destruct factors as [fs| |]; [| |congruence]; cbn [get_factor]; now eexists.
Qed.

Lemma recognized_trajectory (scenario : string) (st : Stats.t) :
  recognized scenario ->
  exists traj,
    trajectory scenario st = Normal traj /\
    map Point.year traj = ["2026"; "2027"; "2028"; "2029"; "2030"; "2031"]%string.
Proof.
  intros Hrec. unfold trajectory.
  assert (Hf : object_get factors_table scenario <> Undefined).
  { revert Hrec. unfold recognized. rewrite !elem_of_cons, elem_of_nil.
    intros [->|[->|[->|[->|[]]]]]; vm_compute; discriminate. }
  destruct (map_from_not_undefined _ st [2026; 2027; 2028; 2029; 2030; 2031]%Z Hf 0%nat)
    as (traj & Htraj).
  exists traj. split; [exact Htraj|].
  now rewrite (map_from_years _ _ _ _ _ Htraj).
Qed.

(** X7: for each of the four selector values a render computes all five
    memoised values without an exception, whatever the draws and the host's
    [Math.log] and [Math.cos]: it makes 20,000 draws, the population has
    10,000 samples, the three percentiles are defined, the histogram has at
    most 40 bars, the trajectory has the six years 2026 to 2031 and the
    scatter has 800 points. *)
Theorem memos_recognized `{MathLib} (scenario : string) (draws : N -> float) (n0 : N) :
  recognized scenario ->
  exists m,
    memos scenario draws n0 = (Normal m, (n0 + 20000)%N) /\
    length (Memo.simulations m) = population_size /\
    is_Some (Stats.p10 (Memo.stats m)) /\
    is_Some (Stats.median (Memo.stats m)) /\
    is_Some (Stats.p90 (Memo.stats m)) /\
    (length (Memo.distribution m) <= bins)%nat /\
    map Point.year (Memo.trajectory m) =
      ["2026"; "2027"; "2028"; "2029"; "2030"; "2031"]%string /\
    length (Memo.scatter m) = 800%nat.
Proof.
  intros Hrec. destruct (recognized_params scenario Hrec) as (p & Hp & _).
  set (sims := map (sample_of p) (variates draws n0 population_size)).
  assert (Hsims : simulations scenario draws n0 = (Normal sims, (n0 + 20000)%N)).
  { unfold simulations. rewrite Hp, simulations_loop_own, N_population_size.
    cbn [app]. reflexivity. }
  assert (Hlen : length sims = population_size)
    by (unfold sims; now rewrite length_map, length_variates).
  destruct (stats_nonempty sims (population_nonempty sims Hlen)) as (total & _ & Hst).
  match type of Hst with _ = Normal ?r => set (st := r) in * end.
  destruct (recognized_trajectory scenario st Hrec) as (traj & Htraj & Hyears).
  eexists. split; [exact (memos_normal scenario draws n0 _ sims st traj Hsims Hst Htraj)|].
  cbn [Memo.simulations Memo.stats Memo.distribution Memo.trajectory Memo.scatter].
  unfold st. cbv zeta. cbn [Stats.p10 Stats.median Stats.p90]. fold st.
  set (vals := map npv (Array_sort by_npv sims)).
  assert (Hvlen : length vals = population_size)
    by (unfold vals; now rewrite length_map, length_Array_sort).
  destruct percentile_indices as (I10 & I50 & I90).
  split; [exact Hlen|].
  split; [apply (percentile_defined vals 0.1 1000 Hvlen I10); lia|].
  split; [apply (percentile_defined vals 0.5 5000 Hvlen I50); lia|].
  split; [apply (percentile_defined vals 0.9 9000 Hvlen I90); lia|].
  split.
  { unfold distribution, counts.
    destruct (BinnerProperties.fold_increment_bound (bin_index st (bin_width st)) sims
                (replicate bins 0%nat)) as [Hdlen _].
    rewrite length_replicate in Hdlen.
    etransitivity; [apply StatsProperties.filter_length_le|].
    rewrite length_imap, Hdlen. reflexivity. }
  split; [exact Hyears|].
  unfold scatter. rewrite length_map, length_take, Hlen. unfold population_size. lia.
Qed.

Lemma memos_recognized_witness :
  exists m,
    @memos RefMath.math "optimistic" (RefMath.hash_draws 1) 0%N = (Normal m, 20000%N) /\
    length (Memo.simulations m) = population_size /\
    is_Some (Stats.p10 (Memo.stats m)) /\
    is_Some (Stats.median (Memo.stats m)) /\
    is_Some (Stats.p90 (Memo.stats m)) /\
    (length (Memo.distribution m) <= bins)%nat /\
    map Point.year (Memo.trajectory m) =
      ["2026"; "2027"; "2028"; "2029"; "2030"; "2031"]%string /\
    length (Memo.scatter m) = 800%nat.
Proof.
  apply (@memos_recognized RefMath.math "optimistic" (RefMath.hash_draws 1) 0%N).
  unfold recognized. rewrite !elem_of_cons. tauto.
Defined.

(** **** Selector values that name a property of [Object.prototype] *)

Lemma inherited_lookups (scenario : string) :
  scenario ∈ object_prototype_names ->
  object_get params_table scenario = Inherited /\
  object_get factors_table scenario = Inherited.
Proof.
  unfold object_prototype_names. rewrite elem_of_list_to_set, !elem_of_cons, elem_of_nil.
  intros Hin.
  repeat (destruct Hin as [->|Hin]; [split; vm_compute; reflexivity|]).
  destruct Hin.
Qed.

Lemma nan_sample (z c : float) :
  Math_max 50 (nan + z * nan) = nan /\
  Math_max 0.5 (Math_min 0.95 (nan + z * c)) = nan.
Proof.
  split.
  - apply Math_max_nan_r, add_nan_l. reflexivity.
  - apply Math_max_nan_r. rewrite Math_min_nan_r; [reflexivity|].
    apply add_nan_l. reflexivity.
Qed.

Lemma simulations_loop_inherited_result `{MathLib} (k : nat) :
  forall (results : list sample) (draws : N -> float) (n : N),
    simulations_loop Inherited k results draws n =
    (Normal (results ++ replicate k {| npv := nan; ms := nan |}),
     (n + 2 * N.of_nat k)%N).
Proof.
  induction k as [|k IH]; intros results draws n.
  - simpl. unfold ret. now rewrite app_nil_r, N.add_0_r.
  - change (simulations_loop Inherited (S k) results draws n)
      with (simulations_loop Inherited k
              (results ++ [{| npv := Math_max 50 (nan + box_muller (draws n) (draws (N.succ n)) * nan);
                              ms := Math_max 0.5 (Math_min 0.95
                                      (nan + box_muller (draws n) (draws (N.succ n)) * 0.08)) |}])
              draws (N.succ (N.succ n))).
    destruct (nan_sample (box_muller (draws n) (draws (N.succ n))) 0.08) as [-> ->].
    rewrite IH. f_equal; [|lia]. f_equal. rewrite <- app_assoc. reflexivity.
Qed.

Lemma trajectory_point_inherited (st : Stats.t) (yr : Z) (i : nat) :
  trajectory_point Inherited st yr i =
  Normal {| Point.year := pretty yr; Point.expected := nan;
            Point.p90 := nan; Point.p10 := nan |}.
Proof.
  unfold trajectory_point. cbn [get_factor].
  rewrite (is_nan_eq (ToNumber (Stats.median st) * nan)) by now apply mul_nan_r.
  rewrite (is_nan_eq (ToNumber (Stats.p90 st) * nan * 1.05))
    by now apply mul_nan_l, mul_nan_r.
  rewrite (is_nan_eq (ToNumber (Stats.p10 st) * nan * 0.95))
    by now apply mul_nan_l, mul_nan_r.
  reflexivity.
Qed.

Lemma Math_min_list_nan (vals : list float) :
  Exists (fun v => is_nan v = true) vals -> is_nan (Math_min_list vals) = true.
Proof.
  intros Hex. apply fold_left_nan; [| |now right].
  - intros a b Ha. now rewrite Math_min_nan_l.
  - intros a b Hb. now rewrite Math_min_nan_r.
Qed.

Lemma distribution_nan_min (simulations : list sample) (st : Stats.t) :
  is_nan (Stats.min st) = true -> distribution simulations st = [].
Proof.
  intros Hmin.
  assert (Hcounts : counts simulations st = replicate bins 0%nat).
  { unfold counts. apply fold_increment_nan. apply Forall_forall. intros s _.
    apply div_nan_l, sub_nan_r. exact Hmin. }
  unfold distribution. rewrite Hcounts. apply filter_imap_nil.
  intros i c Hc0. apply elem_of_replicate in Hc0. destruct Hc0 as [-> _].
  apply bar_of_zero.
Qed.

(** X8: on a selector value that names a property of [Object.prototype]
    (["constructor"], ["toString"], ...) a render raises no exception: it
    makes 20,000 draws and every Number it computes from the parameters is
    NaN.  The population is 10,000 samples of NaN value and retention, the
    median is NaN, the positive fraction is 0, the histogram is empty, the
    six trajectory points are NaN and the 800 scatter points are NaN and of
    high risk. *)
Theorem memos_inherited `{MathLib} (scenario : string) (draws : N -> float) (n0 : N) :
  scenario ∈ object_prototype_names ->
  exists m,
    memos scenario draws n0 = (Normal m, (n0 + 20000)%N) /\
    Memo.simulations m = replicate population_size {| npv := nan; ms := nan |} /\
    Stats.median (Memo.stats m) = Some nan /\
    Stats.positive (Memo.stats m) = 0 /\
    Memo.distribution m = [] /\
    Memo.trajectory m =
      map (fun yr => {| Point.year := pretty yr; Point.expected := nan;
                        Point.p90 := nan; Point.p10 := nan |}) years /\
    Memo.scatter m =
      replicate 800 {| Dot.x := nan; Dot.y := nan; Dot.risk := high |}.
Proof.
  intros Hin. destruct (inherited_lookups scenario Hin) as [Hp Hf].
  set (sims := replicate population_size {| npv := nan; ms := nan |}).
  assert (Hsims : simulations scenario draws n0 = (Normal sims, (n0 + 20000)%N)).
  { unfold simulations. rewrite Hp, simulations_loop_inherited_result, N_population_size.
    cbn [app]. reflexivity. }
  assert (Hlen : length sims = population_size) by apply length_replicate.
  destruct (stats_nonempty sims (population_nonempty sims Hlen)) as (total & _ & Hst).
  match type of Hst with _ = Normal ?r => set (st := r) in * end.
  assert (Htraj : trajectory scenario st =
            Normal (map (fun yr => {| Point.year := pretty yr; Point.expected := nan;
                                      Point.p90 := nan; Point.p10 := nan |}) years)).
  { unfold trajectory. rewrite Hf. cbn [map_from].
    rewrite !trajectory_point_inherited. reflexivity. }
  eexists. split; [exact (memos_normal scenario draws n0 _ sims st _ Hsims Hst Htraj)|].
  cbn [Memo.simulations Memo.stats Memo.distribution Memo.trajectory Memo.scatter].
  set (vals := map npv (Array_sort by_npv sims)).
  assert (Hvlen : length vals = population_size)
    by (unfold vals; now rewrite length_map, length_Array_sort).
  assert (Hvals : Forall (fun v => is_nan v = true) vals).
  { apply sorted_vals_Forall. apply Forall_replicate. reflexivity. }
  split; [reflexivity|]. split; [|split; [|split; [|split]]].
  - unfold st. cbv zeta. cbn [Stats.median]. fold vals.
    destruct percentile_indices as (_ & I50 & _).
    unfold at_index. rewrite Hvlen, I50.
    destruct (lookup_lt_is_Some_2 vals (Z.to_nat 5000)) as [v Hv].
    { rewrite Hvlen. unfold population_size. lia. }
    rewrite Hv. f_equal. apply is_nan_eq.
    apply (proj1 (Forall_forall _ _) Hvals v). eapply list_elem_of_lookup_2, Hv.
  - unfold st. cbv zeta. cbn [Stats.positive].
    rewrite (percent_where_count _ _ Hlen).
    replace (length (List.filter (fun s => 0 <? npv s) sims)) with 0%nat; [reflexivity|].
    symmetry. apply filter_length_none. apply Forall_replicate. reflexivity.
  - apply distribution_nan_min. unfold st. cbv zeta. cbn [Stats.min]. fold vals.
    apply Math_min_list_nan. clearbody vals.
    destruct vals as [|v vals'].
    { exfalso. destruct population_size_succ as [k Hk]. rewrite Hk in Hvlen. discriminate. }
    apply Exists_cons_hd. apply Forall_cons in Hvals. exact (proj1 Hvals).
  - reflexivity.
  - unfold scatter, sims. rewrite take_replicate.
    replace (800 `min` population_size)%nat with 800%nat by (unfold population_size; lia).
    rewrite map_replicate. reflexivity.
Qed.

Lemma memos_inherited_witness :
  exists m,
    @memos RefMath.math "toString" (RefMath.hash_draws 3) 0%N = (Normal m, 20000%N) /\
    Memo.simulations m = replicate population_size {| npv := nan; ms := nan |} /\
    Stats.median (Memo.stats m) = Some nan /\
    Stats.positive (Memo.stats m) = 0 /\
    Memo.distribution m = [] /\
    Memo.trajectory m =
      map (fun yr => {| Point.year := pretty yr; Point.expected := nan;
                        Point.p90 := nan; Point.p10 := nan |}) years /\
    Memo.scatter m =
      replicate 800 {| Dot.x := nan; Dot.y := nan; Dot.risk := high |}.
Proof.
  apply (@memos_inherited RefMath.math "toString" (RefMath.hash_draws 3) 0%N).
  unfold object_prototype_names. rewrite elem_of_list_to_set, !elem_of_cons.
  do 5 right. left. reflexivity.
Defined.

(** **** The series of the scatter chart *)

Lemma filter_map_comm {A B} (f : B -> bool) (g : A -> B) (l : list A) :
  List.filter f (map g l) = map g (List.filter (fun a => f (g a)) l).
Proof.
  induction l as [|a l IH]; simpl; [reflexivity|].
  rewrite IH. now destruct (f (g a)).
Qed.

Lemma filter_ext_bool {A} (f g : A -> bool) (l : list A) :
  (forall a, f a = g a) -> List.filter f l = List.filter g l.
Proof.
  intros Hfg. induction l as [|a l IH]; simpl; [reflexivity|].
  now rewrite Hfg, IH.
Qed.

Lemma above_078_above_07 (x : float) : (0.78 <? x) = true -> (0.7 <? x) = true.
Proof. intros Hx. eapply ltb_leb_trans; [|apply ltb_leb, Hx]. reflexivity. Qed.

Lemma series_length (dots : list Dot.t) :
  (length (series low dots) + length (series med dots) + length (series high dots)
   = length dots)%nat.
Proof.
  unfold series. induction dots as [|d dots IH]; simpl; [reflexivity|].
  destruct (Dot.risk d); simpl; lia.
Qed.

Lemma series_sublist (r : risk_tier) (dots : list Dot.t) :
  sublist (series r dots) dots.
Proof.
  unfold series. induction dots as [|d dots IH]; simpl; [constructor|].
  destruct (risk_eqb (Dot.risk d) r); now constructor.
Qed.

(** X9: the three series of the scatter chart split the scatter points: the
    low series is the points of the samples with retention above 0.78 among
    the first 800, the medium series those with retention above 0.7 and not
    above 0.78, the high series those whose retention is not above 0.7 (a
    NaN retention included), each in generation order; every point is in
    exactly one series. *)
Theorem scatter_series (simulations : list sample) :
  series low (scatter simulations) =
    map scatter_point (List.filter (fun s => 0.78 <? ms s) (take 800 simulations)) /\
  series med (scatter simulations) =
    map scatter_point
      (List.filter (fun s => (0.7 <? ms s) && negb (0.78 <? ms s)) (take 800 simulations)) /\
  series high (scatter simulations) =
    map scatter_point (List.filter (fun s => negb (0.7 <? ms s)) (take 800 simulations)) /\
  (length (series low (scatter simulations)) + length (series med (scatter simulations))
   + length (series high (scatter simulations)) = 800 `min` length simulations)%nat /\
  forall r, sublist (series r (scatter simulations)) (scatter simulations).
Proof.
  unfold series at 1 2 3. unfold scatter at 1 2 3. rewrite !filter_map_comm.
  split; [|split; [|split; [|split]]].
  - f_equal. apply filter_ext_bool. intros s. cbn [scatter_point Dot.risk].
    unfold risk_of. destruct (0.78 <? ms s); [reflexivity|].
    now destruct (0.7 <? ms s).
  - f_equal. apply filter_ext_bool. intros s. cbn [scatter_point Dot.risk].
    unfold risk_of. destruct (0.78 <? ms s) eqn:E78.
    + now rewrite andb_false_r.
    + now destruct (0.7 <? ms s).
  - f_equal. apply filter_ext_bool. intros s. cbn [scatter_point Dot.risk].
    unfold risk_of. destruct (0.78 <? ms s) eqn:E78.
    + now rewrite (above_078_above_07 _ E78).
    + now destruct (0.7 <? ms s).
  - rewrite series_length. unfold scatter. now rewrite length_map, length_take.
  - intros r. apply series_sublist.
Qed.

End PanelProperties.


(** ** Bounds on quotients of normal Numbers *)
Module QuotientFacts.

Import JS Dashboard FloatFacts SamplerFacts StatsFacts BinnerFacts RoundingFacts
  BinIndexFacts.
Local Open Scope float_scope.

Lemma digits2_pos_range (m : positive) (d : Z) :
  (2 ^ (d - 1) <= Zpos m < 2 ^ d)%Z -> (0 < d)%Z -> Zpos (digits2_pos m) = d.
Proof.
  intros [Hlo Hhi] Hd. pose proof (digits2_pos_bounds m) as [Hlo' Hhi'].
  pose proof (Pos2Z.is_pos (digits2_pos m)) as Hp.
  destruct (Z.lt_trichotomy (Zpos (digits2_pos m)) d) as [Hl|[He|Hg]]; [|exact He|].
  - assert (2 ^ Zpos (digits2_pos m) <= 2 ^ (d - 1))%Z by (apply Z.pow_le_mono_r; lia). lia.
  - assert (2 ^ d <= 2 ^ (Zpos (digits2_pos m) - 1))%Z by (apply Z.pow_le_mono_r; lia). lia.
Qed.

(** The quotient of two normal positive Numbers: its significand, scaled
    to the exponent [e1 - e2 - 53] of the integer quotient
    [Q = m1 2^53 / m2], is between [Q - 1] and [Q + 2]. *)
Lemma SFdiv_normal (m1 m2 : positive) (e1 e2 : Z) :
  (2 ^ 52 <= Zpos m1 < 2 ^ 53)%Z -> (2 ^ 52 <= Zpos m2 < 2 ^ 53)%Z ->
  (-1074 <= e1 - e2 - 53)%Z -> (e1 - e2 - 51 <= 971)%Z ->
  exists q e k,
    SF64div (S754_finite false m1 e1) (S754_finite false m2 e2) = S754_finite false q e /\
    e = (e1 - e2 - 53 + k)%Z /\ (k = 0 \/ k = 1 \/ k = 2)%Z /\
    (2 ^ 52 <= Zpos q < 2 ^ 53)%Z /\
    (Zpos m1 * 2 ^ 53 / Zpos m2 - 1 <= Zpos q * 2 ^ k
       <= Zpos m1 * 2 ^ 53 / Zpos m2 + 2)%Z.
Proof.
  intros H1 H2 Hlo Hhi.
  unfold SF64div, SFdiv, SFdiv_core_binary. cbn [Zdigits2 xorb].
  rewrite (digits2_pos_normal m1 H1), (digits2_pos_normal m2 H2), fexp_eq.
  replace (Z.min (Z.max (53 + e1 - (53 + e2) - 53) (-1074)) (e1 - e2))
    with (e1 - e2 - 53)%Z by lia.
  replace (e1 - e2 - (e1 - e2 - 53))%Z with 53%Z by lia.
  rewrite Z.shiftl_mul_pow2 by lia.
  set (e0 := (e1 - e2 - 53)%Z) in *.
  pose proof (Z_div_mod (Zpos m1 * 2 ^ 53) (Zpos m2) ltac:(lia)) as Hdm.
  assert (HQ : (Zpos m1 * 2 ^ 53 / Zpos m2 =
                fst (Z.div_eucl (Zpos m1 * 2 ^ 53) (Zpos m2)))%Z) by reflexivity.
  destruct (Z.div_eucl (Zpos m1 * 2 ^ 53) (Zpos m2)) as [Q r]. cbn [fst] in HQ.
  rewrite HQ. clear HQ. destruct Hdm as [Hdm Hr].
  change (2 ^ 52)%Z with 4503599627370496%Z in *.
  change (2 ^ 53)%Z with 9007199254740992%Z in *.
  assert (HQr : (4503599627370496 <= Q < 18014398509481984)%Z) by nia.
  destruct Q as [|Q|Q]; try lia.
  match goal with
  | |- context [binary_round_aux _ _ _ _ _ ?l] =>
      destruct (binary_round_aux_cases false Q e0 l Hlo) as (m2' & Hm2' & _ & Hres)
  end.
  rewrite fexp_eq in Hm2', Hres.
  assert (Hd : Zpos (digits2_pos Q) = 53%Z \/ Zpos (digits2_pos Q) = 54%Z).
  { destruct (Z_lt_le_dec (Zpos Q) 9007199254740992).
    - left. apply digits2_pos_range; [|lia]. change (2 ^ (53 - 1))%Z with 4503599627370496%Z.
      change (2 ^ 53)%Z with 9007199254740992%Z. lia.
    - right. apply digits2_pos_range; [|lia].
      change (2 ^ (54 - 1))%Z with 9007199254740992%Z.
      change (2 ^ 54)%Z with 18014398509481984%Z. lia. }
  assert (Hcase : exists j, (j = 0 \/ j = 1)%Z /\
            Z.max e0 (Z.max (Zpos (digits2_pos Q) + e0 - 53) (-1074)) = (e0 + j)%Z /\
            (2 * (Zpos m2' - 1) <= Zpos Q * 2 / 2 ^ j + 0 /\
             Zpos Q - 1 <= Zpos m2' * 2 ^ j <= Zpos Q + 2 /\
             4503599627370496 <= Zpos m2' <= 9007199254740992)%Z).
  { destruct Hd as [Hd|Hd]; rewrite Hd in Hm2' |- *.
    - exists 0%Z. split; [auto|]. split; [lia|].
      replace (Z.max e0 (Z.max (53 + e0 - 53) (-1074)) - e0)%Z with 0%Z in Hm2' by lia.
      change (2 ^ 0)%Z with 1%Z in *. rewrite Z.div_1_r in Hm2' |- *.
      assert (Zpos Q < 9007199254740992)%Z.
      { pose proof (digits2_pos_bounds Q) as [_ Hb]. rewrite Hd in Hb.
        change (2 ^ 53)%Z with 9007199254740992%Z in Hb. exact Hb. }
      lia.
    - exists 1%Z. split; [auto|]. split; [lia|].
      replace (Z.max e0 (Z.max (54 + e0 - 53) (-1074)) - e0)%Z with 1%Z in Hm2' by lia.
      change (2 ^ 1)%Z with 2%Z in *.
      assert (9007199254740992 <= Zpos Q)%Z.
      { pose proof (digits2_pos_bounds Q) as [Hb _]. rewrite Hd in Hb.
        change (2 ^ (54 - 1))%Z with 9007199254740992%Z in Hb. exact Hb. }
      rewrite Z.div_mul by lia.
      pose proof (Z.div_mod (Zpos Q) 2 ltac:(lia)) as Hq2.
      pose proof (Z.mod_pos_bound (Zpos Q) 2 ltac:(lia)) as Hq3.
      lia. }
  destruct Hcase as (j & Hj & Hej & _ & Hv & Hn).
  rewrite Hej in Hres.
  assert (Hd' : (Zpos m2' < 9007199254740992 /\ Zpos (digits2_pos m2') = 53)%Z \/
                (Zpos m2' = 9007199254740992 /\ Zpos (digits2_pos m2') = 54)%Z).
  { destruct (Z_lt_le_dec (Zpos m2') 9007199254740992).
    - left. split; [assumption|]. apply digits2_pos_range; [|lia].
      change (2 ^ (53 - 1))%Z with 4503599627370496%Z.
      change (2 ^ 53)%Z with 9007199254740992%Z. lia.
    - right. split; [lia|]. apply digits2_pos_range; [|lia].
      change (2 ^ (54 - 1))%Z with 9007199254740992%Z.
      change (2 ^ 54)%Z with 18014398509481984%Z. lia. }
  destruct Hd' as [[Hlt Hd']|[Heq Hd']]; rewrite Hd' in Hres; cbv zeta in Hres;
    rewrite fexp_eq in Hres.
  - replace (Z.max (e0 + j) (Z.max (53 + (e0 + j) - 53) (-1074)))
      with (e0 + j)%Z in Hres by lia.
    destruct (Hres ltac:(lia)) as (q & Hq & Hqv).
    replace (e0 + j - (e0 + j))%Z with 0%Z in Hqv by lia.
    change (2 ^ 0)%Z with 1%Z in Hqv. rewrite Z.div_1_r in Hqv.
    exists q, (e0 + j)%Z, j. rewrite Hqv.
    split; [exact Hq|]. split; [reflexivity|]. split; [tauto|]. split; [lia|].
    exact Hv.
  - replace (Z.max (e0 + j) (Z.max (54 + (e0 + j) - 53) (-1074)))
      with (e0 + j + 1)%Z in Hres by lia.
    destruct (Hres ltac:(lia)) as (q & Hq & Hqv).
    replace (e0 + j + 1 - (e0 + j))%Z with 1%Z in Hqv by lia.
    rewrite Heq in Hqv. change (9007199254740992 / 2 ^ 1)%Z with 4503599627370496%Z in Hqv.
    exists q, (e0 + j + 1)%Z, (j + 1)%Z. rewrite Hqv.
    split; [exact Hq|]. split; [lia|]. split; [lia|]. split; [lia|].
    rewrite Heq in Hv. destruct Hj as [-> | ->].
    + change (2 ^ 0)%Z with 1%Z in Hv. change (2 ^ (0 + 1))%Z with 2%Z. lia.
    + change (2 ^ 1)%Z with 2%Z in Hv. change (2 ^ (1 + 1))%Z with 4%Z. lia.
Qed.

(** A normal positive Number over its own 40th part is at least 39. *)
Lemma last_bin_quotient (ma : positive) (ea : Z) :
  (2 ^ 52 <= Zpos ma < 2 ^ 53)%Z -> (-99 <= ea <= 971)%Z ->
  SFleb (Prim2SF (of_nat bins - 1))
    (SF64div (S754_finite false ma ea)
       (SF64div (S754_finite false ma ea) (Prim2SF (of_nat bins)))) = true.
Proof.
  intros Hma Hea. rewrite last_bin.
  let v := eval vm_compute in (Prim2SF (of_nat bins)) in
    change (Prim2SF (of_nat bins)) with v.
  destruct (SFdiv_normal ma 5629499534213120 ea (-47) Hma ltac:(lia) ltac:(lia) ltac:(lia))
    as (qw & ew & kw & -> & Hew & Hkw & Hqw & Hvw).
  destruct (SFdiv_normal ma qw ea ew Hma Hqw ltac:(lia) ltac:(lia))
    as (qr & er & kr & -> & Her & Hkr & Hqr & Hvr).
  change (2 ^ 52)%Z with 4503599627370496%Z in *.
  change (2 ^ 53)%Z with 9007199254740992%Z in *.
  pose proof (Z.mul_div_le (Zpos ma * 9007199254740992) 5629499534213120 ltac:(lia)) as HQ1.
  set (Q1 := (Zpos ma * 9007199254740992 / 5629499534213120)%Z) in *.
  assert (HQ2 : (39 * 140737488355328 * 2 ^ kw + 1
                 <= Zpos ma * 9007199254740992 / Zpos qw)%Z).
  { apply Z.div_le_lower_bound; [lia|].
    destruct Hkw as [->|[->| ->]].
    - change (2 ^ 0)%Z with 1%Z in *. lia.
    - change (2 ^ 1)%Z with 2%Z in *. lia.
    - change (2 ^ 2)%Z with 4%Z in *. lia. }
  set (Q2 := (Zpos ma * 9007199254740992 / Zpos qw)%Z) in *.
  unfold SFleb. cbn [SFcompare].
  assert (Hcmp : (er > -47)%Z \/ (er = -47 /\ 5488762045857792 <= Zpos qr)%Z).
  { destruct Hkw as [->|[->| ->]]; destruct Hkr as [->|[->| ->]];
      repeat match goal with
             | H : context [(2 ^ 0)%Z] |- _ => change (2 ^ 0)%Z with 1%Z in H
             | H : context [(2 ^ 1)%Z] |- _ => change (2 ^ 1)%Z with 2%Z in H
             | H : context [(2 ^ 2)%Z] |- _ => change (2 ^ 2)%Z with 4%Z in H
             end; lia. }
  destruct Hcmp as [Hgt|[-> Hge]].
  - destruct (Z.compare_spec (-47) er); try lia; reflexivity.
  - cbn [Z.compare Pos.compare]. rewrite Pos.compare_cont_spec. cbn [Pos.switch_Eq].
    destruct (Pos.compare_spec 5488762045857792 qr) as [Hc|Hc|Hc]; try reflexivity.
    apply Pos2Z.pos_lt_pos in Hc. lia.
Qed.

(** The floor of a Number that is at least 39 is clamped to the last bin. *)
Lemma index_last (q : float) :
  (of_nat bins - 1 <=? q) = true ->
  array_index (Math_min (of_nat bins - 1) (Math_floor q)) = Some 39%nat.
Proof.
  intros Hle.
  assert (Hmin : forall f, (of_nat bins - 1 <=? f) = true ->
            array_index (Math_min (of_nat bins - 1) f) = Some 39%nat).
  { intros f Hf. unfold Math_min.
    rewrite (leb_not_nan_r _ _ Hf). change (is_nan (of_nat bins - 1)) with false.
    cbn [orb]. destruct (of_nat bins - 1 <? f) eqn:E1; [exact index_of_last_bin|].
    rewrite (leb_not_ltb _ _ Hf). change (get_sign (of_nat bins - 1)) with false.
    cbv iota.
    assert (Heq : f = of_nat bins - 1).
    { apply Prim2SF_inj. rewrite leb_spec in Hf. rewrite ltb_spec in E1.
      unfold SFleb in Hf. unfold SFltb in E1. rewrite last_bin in *.
      destruct (Prim2SF f) as [s|s| |s m e] eqn:Ef; try destruct s; try discriminate.
      cbn [SFcompare] in Hf, E1.
      destruct (Z.compare_spec (-47) e) as [He|He|He]; try discriminate.
      rewrite Pos.compare_cont_spec in Hf, E1. cbn [Pos.switch_Eq] in Hf, E1.
      destruct (Pos.compare_spec 5488762045857792 m) as [Hc|Hc|Hc]; try discriminate.
      now subst. }
    rewrite Heq. exact index_of_last_bin. }
  rewrite leb_spec, last_bin in Hle. unfold SFleb in Hle.
  unfold Math_floor.
  destruct (Prim2SF q) as [s|s| |s m e] eqn:E; try destruct s; try discriminate.
  - apply Hmin. rewrite leb_spec, last_bin, E. reflexivity.
  - destruct (valid_finite q _ _ _ E) as (He & Hm & Hn).
    destruct (Z.leb_spec 0 e) as [He0|He0].
    + apply Hmin. rewrite leb_spec, last_bin, E. exact Hle.
    + cbn [SFcompare] in Hle.
      assert (Hq : (39 <= Z.shiftr (Zpos m) (- e) < 2 ^ 53)%Z).
      { rewrite Z.shiftr_div_pow2 by lia.
        pose proof (Z.pow_pos_nonneg 2 (- e) ltac:(lia) ltac:(lia)) as Hp.
        split.
        - apply Z.div_le_lower_bound; [lia|].
          destruct (Z.compare_spec (-47) e) as [He1|He1|He1]; try discriminate.
          + subst e. rewrite Pos.compare_cont_spec in Hle. cbn [Pos.switch_Eq] in Hle.
            change (2 ^ (- -47))%Z with 140737488355328%Z.
            destruct (Pos.compare_spec 5488762045857792 m) as [Hc|Hc|Hc];
              try discriminate; [subst m; lia|apply Pos2Z.pos_lt_pos in Hc; lia].
          + assert (2 ^ (- e) <= 2 ^ 46)%Z by (apply Z.pow_le_mono_r; lia).
            change (2 ^ 46)%Z with 70368744177664%Z in *.
            change (2 ^ 52)%Z with 4503599627370496%Z in *.
            specialize (Hn ltac:(lia)). nia.
        - eapply Z.le_lt_trans; [|exact Hm].
          apply Z.div_le_upper_bound; [lia|]. nia. }
      destruct (Z.shiftr (Zpos m) (- e)) as [|n|n]; try lia.
      destruct (integer_shape n ltac:(lia)) as (qn & en & Hqn & Hen & Hen0 & Hvn).
      apply Hmin. rewrite leb_spec, last_bin, of_Z_small, Hqn by lia.
      unfold SFleb. cbn [SFcompare].
      pose proof (digits2_pos_bounds n) as [Hdlo Hdhi].
      assert (Hd6 : (6 <= Zpos (digits2_pos n))%Z).
      { destruct (Z_lt_le_dec (Zpos (digits2_pos n)) 6); [|assumption].
        assert (2 ^ Zpos (digits2_pos n) <= 2 ^ 5)%Z by (apply Z.pow_le_mono_r; lia).
        change (2 ^ 5)%Z with 32%Z in *. lia. }
      destruct (Z.compare_spec (-47) en) as [He1|He1|He1]; try lia; try reflexivity.
      rewrite Pos.compare_cont_spec. cbn [Pos.switch_Eq].
      replace (- en)%Z with 47%Z in Hvn by lia.
      change (2 ^ 47)%Z with 140737488355328%Z in Hvn.
      destruct (Pos.compare_spec 5488762045857792 qn) as [Hc|Hc|Hc]; try reflexivity.
      apply Pos2Z.pos_lt_pos in Hc. lia.
Qed.

End QuotientFacts.

(** ** The bins of the extreme samples *)
Module ExtremeBins.

Import JS Dashboard FloatFacts SamplerFacts StatsFacts BinnerFacts RoundingFacts
  BinIndexFacts HistogramFacts QuotientFacts.
Local Open Scope float_scope.

(** The width of a range of finite values with [m0 < M]: a positive Number,
    and the difference it divides. *)
Lemma range_shape (m0 M : float) :
  ge50 m0 -> is_finite m0 = true -> ge50 M -> is_finite M = true ->
  (m0 <? M) = true ->
  exists q e,
    Prim2SF (M - m0) = S754_finite false q e /\
    (2 ^ 52 <= Zpos q < 2 ^ 53)%Z /\ (-99 <= e <= 971)%Z /\
    nonzero_signed false (Prim2SF ((M - m0) / of_nat bins)).
Proof.
  intros Hm Hmf HM HMf Hlt.
  destruct (finite_shape m0 Hm Hmf) as (mm & em & Em & Hem & Hmm).
  destruct (finite_shape M HM HMf) as (mM & eM & EM & HeM & HmM).
  pose proof (ltb_leb _ _ Hlt) as Hle.
  rewrite leb_spec, Em, EM in Hle. rewrite ltb_spec, Em, EM in Hlt.
  destruct (SFsub_ordered mM mm eM em) as [[Hc _]|(_ & q & e & Hq & He)];
    try lia; try assumption; [congruence|].
  assert (Eb : Prim2SF (M - m0) = S754_finite false q e) by (now rewrite sub_spec, EM, Em).
  destruct (valid_finite _ _ _ _ Eb) as (He' & Hq1 & Hq2).
  exists q, e. split; [exact Eb|]. split; [split; [apply Hq2; lia|exact Hq1]|].
  split; [lia|]. rewrite div_spec, Eb.
  apply SFdiv_by_bins; [split; [apply Hq2; lia|exact Hq1]|exact He].
Qed.

Lemma bin_of_min (m0 M : float) :
  ge50 m0 -> is_finite m0 = true -> ge50 M -> is_finite M = true ->
  (m0 <? M) = true ->
  array_index
    (Math_min (of_nat bins - 1)
       (Math_floor ((m0 - m0) / ((M - m0) / of_nat bins)))) = Some 0%nat.
Proof.
  intros Hm Hmf HM HMf Hlt.
  destruct (range_shape m0 M Hm Hmf HM HMf Hlt) as (q & e & _ & _ & _ & Hw).
  destruct (finite_shape m0 Hm Hmf) as (mm & em & Em & Hem & Hmm).
  assert (Hz : Prim2SF (m0 - m0) = S754_zero false).
  { rewrite sub_spec, Em.
    destruct (SFsub_ordered mm mm em em) as [[_ Hz]|(Hc & _)]; try lia.
    - unfold SFleb. rewrite SFcompare_refl by discriminate. reflexivity.
    - exact Hz.
    - unfold SFltb in Hc. rewrite SFcompare_refl in Hc by discriminate. discriminate. }
  assert (Hq : Prim2SF ((m0 - m0) / ((M - m0) / of_nat bins)) = S754_zero false).
  { rewrite div_spec, Hz.
    destruct (Prim2SF ((M - m0) / of_nat bins)) as [s|s| |s mw ew];
      simpl in Hw; try contradiction; subst s; reflexivity. }
  set (x := (m0 - m0) / ((M - m0) / of_nat bins)) in *.
  assert (Hx : x = 0) by (apply Prim2SF_inj; rewrite Hq; reflexivity).
  rewrite Hx. reflexivity.
Qed.

Lemma bin_of_max (m0 M : float) :
  ge50 m0 -> is_finite m0 = true -> ge50 M -> is_finite M = true ->
  (m0 <? M) = true ->
  array_index
    (Math_min (of_nat bins - 1)
       (Math_floor ((M - m0) / ((M - m0) / of_nat bins)))) = Some 39%nat.
Proof.
  intros Hm Hmf HM HMf Hlt.
  destruct (range_shape m0 M Hm Hmf HM HMf Hlt) as (q & e & Eb & Hq & He & _).
  apply index_last. rewrite leb_spec, div_spec, div_spec, Eb.
  apply last_bin_quotient; assumption.
Qed.

(** **** Counters only grow *)

Lemma increment_lookup (dist : list nat) (idx : float) (i c : nat) :
  dist !! i = Some c ->
  exists c', increment dist idx !! i = Some c' /\ (c <= c')%nat /\
             (array_index idx = Some i -> (c < c')%nat).
Proof.
  intros Hc. unfold increment. destruct (array_index idx) as [j|].
  - destruct (Nat.eq_dec j i) as [->|Hne].
    + exists (S c). rewrite list_lookup_alter_eq, Hc.
      split; [reflexivity|]. split; [lia|]. intros _. lia.
    + exists c. rewrite list_lookup_alter_ne by exact Hne.
      repeat split; [exact Hc|lia|congruence].
  - exists c. repeat split; [exact Hc|lia|discriminate].
Qed.

Lemma fold_increment_lookup (f : sample -> float) (l : list sample) (i : nat) :
  forall dist c, dist !! i = Some c ->
    exists c', fold_left (fun dist s => increment dist (f s)) l dist !! i = Some c' /\
               (c <= c')%nat /\
               (Exists (fun s => array_index (f s) = Some i) l -> (c < c')%nat).
Proof.
  induction l as [|s l IH]; intros dist c Hc; simpl.
  - exists c. repeat split; [exact Hc|lia|]. intros Hex. inversion Hex.
  - destruct (increment_lookup dist (f s) i c Hc) as (c1 & Hc1 & Hle1 & Hlt1).
    destruct (IH _ _ Hc1) as (c' & Hc' & Hle & Hlt).
    exists c'. repeat split; [exact Hc'|lia|].
    intros Hex. apply Exists_cons in Hex. destruct Hex as [Hs|Hex].
    + specialize (Hlt1 Hs). lia.
    + specialize (Hlt Hex). lia.
Qed.

Lemma bar_positive (st : Stats.t) (i c : nat) :
  (1 <= c <= population_size)%nat ->
  (0 <? Bar.y (bar_of st population_size i c)) = true.
Proof.
  intros Hc. rewrite bar_y_percent.
  destruct (percent_facts c ltac:(lia)) as (_ & -> & _).
  apply Nat.ltb_lt. lia.
Qed.

(** X10: on a population of 10,000 finite values with [min < max], a sample
    at the minimum is counted in bin 0 and a sample at the maximum in bin 39
    (its quotient is at least 39 and is clamped), so the first bar of the
    histogram is that of bin 0 and the last that of bin 39: the histogram
    has at least two bars and spans the whole range. *)
Theorem distribution_extremes `{MathLib} (simulations : list sample) (st : Stats.t) :
  length simulations = population_size ->
  Forall finite_value simulations ->
  stats simulations = Normal st ->
  (Stats.min st <? Stats.max st) = true ->
  (forall s, npv s = Stats.min st ->
             array_index (bin_index st (bin_width st) s) = Some 0%nat) /\
  (forall s, npv s = Stats.max st ->
             array_index (bin_index st (bin_width st) s) = Some 39%nat) /\
  exists c0 c39 middle,
    (1 <= c0)%nat /\ (1 <= c39)%nat /\
    distribution simulations st =
      bar_of st population_size 0 c0 :: middle ++ [bar_of st population_size 39 c39].
Proof.
  intros Hlen Hall Hst Hlt.
  destruct (stats_fields simulations st Hst) as (Hne & Hmin & Hmax).
  set (vals := map npv (Array_sort by_npv simulations)) in *.
  assert (Hvals : Forall (fun v => ge50 v /\ is_finite v = true) vals).
  { unfold vals. apply Forall_map. rewrite Array_sort_Permutation. exact Hall. }
  assert (Hvne : vals <> []).
  { intros Hnil. apply Hne. apply (f_equal (@length float)) in Hnil.
    unfold vals in Hnil. rewrite length_map, length_Array_sort in Hnil.
    destruct simulations; [reflexivity|discriminate]. }
  destruct (min_of_finite vals Hvne Hvals) as [Hmin_in _];
    [rewrite <- Hmin; eapply ltb_not_nan_l, Hlt|].
  destruct (max_of_finite vals Hvne Hvals) as [Hmax_in _];
    [rewrite <- Hmax; eapply ltb_not_nan_r, Hlt|].
  rewrite <- Hmin in Hmin_in. rewrite <- Hmax in Hmax_in.
  destruct (proj1 (Forall_forall _ _) Hvals _ Hmin_in) as [Hm50 Hmf].
  destruct (proj1 (Forall_forall _ _) Hvals _ Hmax_in) as [HM50 HMf].
  assert (B0 : forall s, npv s = Stats.min st ->
                 array_index (bin_index st (bin_width st) s) = Some 0%nat).
  { intros s Hs. unfold bin_index, bin_width. rewrite Hs. now apply bin_of_min. }
  assert (B39 : forall s, npv s = Stats.max st ->
                  array_index (bin_index st (bin_width st) s) = Some 39%nat).
  { intros s Hs. unfold bin_index, bin_width. rewrite Hs. now apply bin_of_max. }
  split; [exact B0|]. split; [exact B39|].
  apply StatsProperties.sorted_vals_elem in Hmin_in, Hmax_in.
  destruct Hmin_in as (s0 & Hs0 & Hv0). destruct Hmax_in as (s39 & Hs39 & Hv39).
  set (f := bin_index st (bin_width st)).
  destruct (fold_increment_lookup f simulations 0 (replicate bins 0%nat) 0%nat eq_refl)
    as (c0 & Hc0 & _ & Hpos0).
  destruct (fold_increment_lookup f simulations 39 (replicate bins 0%nat) 0%nat eq_refl)
    as (c39 & Hc39 & _ & Hpos39).
  specialize (Hpos0 ltac:(apply Exists_exists; exists s0; split; [exact Hs0|now apply B0])).
  specialize (Hpos39 ltac:(apply Exists_exists; exists s39; split; [exact Hs39|now apply B39])).
  destruct (BinnerProperties.fold_increment_bound f simulations (replicate bins 0%nat))
    as [Hdlen Hdsum].
  rewrite length_replicate in Hdlen. rewrite sum_list_replicate_0, Hlen in Hdsum.
  unfold distribution, counts. fold f. rewrite Hlen.
  set (dist := fold_left (fun dist s => increment dist (f s)) simulations
                 (replicate bins 0%nat)) in *.
  assert (Hle : forall c, c ∈ dist -> (c <= population_size)%nat).
  { intros c Hc. apply elem_of_le_sum in Hc. unfold population_size in *. lia. }
  clearbody dist.
  destruct dist as [|d0 rest]; [discriminate|].
  cbn in Hc0. injection Hc0 as ->.
  destruct (exists_last (l := rest)) as (mid & d39 & ->).
  { intros ->. discriminate. }
  assert (Hmid : length mid = 38%nat).
  { cbn in Hdlen. rewrite length_app in Hdlen. cbn in Hdlen. unfold bins in Hdlen. lia. }
  assert (d39 = c39) as ->.
  { change (c0 :: mid ++ [d39]) with ((c0 :: mid) ++ [d39]) in Hc39.
    rewrite lookup_app_r in Hc39 by (cbn; lia).
    replace (39 - length (c0 :: mid))%nat with 0%nat in Hc39 by (cbn; lia).
    now injection Hc39. }
  exists c0, c39,
    (List.filter (fun d => 0 <? Bar.y d) (imap (bar_of st population_size ∘ S) mid)).
  split; [lia|]. split; [lia|].
  rewrite imap_cons, imap_app. cbn [List.filter].
  rewrite bar_positive by (split; [lia|apply Hle; constructor]).
  f_equal. rewrite List.filter_app. f_equal. cbn [imap List.filter compose].
  rewrite Hmid, bar_positive; [reflexivity|].
  split; [lia|]. apply Hle. apply elem_of_cons. right.
  apply elem_of_app. right. constructor.
Qed.

Lemma distribution_extremes_witness :
  (forall s, npv s = Stats.min two_level_stats ->
             array_index (bin_index two_level_stats (bin_width two_level_stats) s)
               = Some 0%nat) /\
  (forall s, npv s = Stats.max two_level_stats ->
             array_index (bin_index two_level_stats (bin_width two_level_stats) s)
               = Some 39%nat) /\
  exists c0 c39 middle,
    (1 <= c0)%nat /\ (1 <= c39)%nat /\
    distribution two_level_population two_level_stats =
      bar_of two_level_stats population_size 0 c0
        :: middle ++ [bar_of two_level_stats population_size 39 c39].
Proof.
  apply (@distribution_extremes RefMath.math two_level_population two_level_stats).
  - apply HistogramClaims.length_cons_replicate.
  - apply Forall_cons. split; [split; vm_compute; reflexivity|].
    apply Forall_replicate. split; vm_compute; reflexivity.
  - vm_compute. reflexivity.
  - vm_compute. reflexivity.
Defined.

End ExtremeBins.


(** ** Rounding to nearest is monotone *)
Module RoundingMonotone.

Import JS Dashboard Rounding FloatFacts RoundingFacts QuotientFacts.
Local Open Scope Z_scope.

(** **** Nearest integers *)

Lemma round_half_even_bounds (p q : Z) :
  0 < q -> p / q <= round_half_even p q <= p / q + 1.
Proof.
  intros Hq. unfold round_half_even.
  destruct (2 * (p mod q) ?= q); try destruct (Z.even (p / q)); lia.
Qed.

Lemma round_half_even_exact (n q : Z) :
  0 < q -> round_half_even (n * q) q = n.
Proof.
  intros Hq. unfold round_half_even.
  rewrite Z.mod_mul, Z.div_mul by lia.
  destruct (Z.compare_spec (2 * 0) q); lia.
Qed.

Lemma round_half_even_mono (p1 q1 p2 q2 : Z) :
  0 < q1 -> 0 < q2 -> 0 <= p1 -> p1 * q2 <= p2 * q1 ->
  round_half_even p1 q1 <= round_half_even p2 q2.
Proof.
  intros Hq1 Hq2 Hp1 Hle.
  pose proof (Z.div_mod p1 q1 ltac:(lia)) as D1.
  pose proof (Z.div_mod p2 q2 ltac:(lia)) as D2.
  pose proof (Z.mod_pos_bound p1 q1 Hq1) as B1.
  pose proof (Z.mod_pos_bound p2 q2 Hq2) as B2.
  pose proof (round_half_even_bounds p1 q1 Hq1) as R1.
  pose proof (round_half_even_bounds p2 q2 Hq2) as R2.
  assert (Hn : p1 / q1 <= p2 / q2).
  { apply Z.div_le_lower_bound; [lia|].
    assert (q1 * (q2 * (p1 / q1)) <= q1 * p2) by nia.
    apply Z.mul_le_mono_pos_l with q1; lia. }
  destruct (Z_lt_le_dec (p1 / q1) (p2 / q2)) as [Hlt|Hge]; [lia|].
  assert (Heq : p1 / q1 = p2 / q2) by lia.
  unfold round_half_even in *. rewrite <- Heq in *.
  set (n := p1 / q1) in *. set (r1 := p1 mod q1) in *. set (r2 := p2 mod q2) in *.
  assert (Hr : r1 * q2 <= r2 * q1) by nia.
  destruct (Z.compare_spec (2 * r1) q1) as [E1|E1|E1];
    destruct (Z.compare_spec (2 * r2) q2) as [E2|E2|E2];
    try destruct (Z.even n); try lia; exfalso; nia.
Qed.

(** **** Shift records *)

Lemma location_of_record (r : shr_record) :
  shr_record_of_loc (shr_m r) (loc_of_shr_record r) = r.
Proof. destruct r as [m [] []]; reflexivity. Qed.

Lemma represents_integer (m : Z) : represents (shr_record_of_loc m loc_Exact) m 1.
Proof.
  unfold represents, location_of. cbn [shr_record_of_loc shr_m loc_of_shr_record].
  rewrite Z.div_1_r, Z.mod_1_r. split; reflexivity.
Qed.

Lemma represents_shr_1 (r : shr_record) (p q : Z) :
  0 <= p -> 0 < q -> represents r p q -> represents (shr_1 r) p (2 * q).
Proof.
  intros Hp Hq [Hm Hl].
  pose proof (Z.div_mod p q ltac:(lia)) as D.
  pose proof (Z.mod_pos_bound p q Hq) as B.
  pose proof (Z.div_pos p q Hp Hq) as Hn.
  set (n := p / q) in *. set (rho := p mod q) in *.
  pose proof (Z.div_mod n 2 ltac:(lia)) as D2.
  pose proof (Z.mod_pos_bound n 2 ltac:(lia)) as B2.
  assert (Hdiv : p / (2 * q) = n / 2).
  { symmetry. apply Z.div_unique with (rho + q * (n mod 2)); [nia|nia]. }
  assert (Hmod : p mod (2 * q) = rho + q * (n mod 2)).
  { symmetry. apply Z.mod_unique with (n / 2); [nia|nia]. }
  unfold represents, location_of in *. fold rho in Hl. rewrite Hdiv, Hmod.
  destruct r as [m rb sb]. cbn [shr_m loc_of_shr_record] in *. subst m.
  assert (Hs : orb rb sb = negb (rho =? 0)).
  { destruct (Z.eqb_spec rho 0); destruct rb, sb; cbn in Hl |- *;
      try reflexivity; try discriminate. }
  assert (Hshape : shr_1 {| shr_m := n; shr_r := rb; shr_s := sb |} =
                   {| shr_m := n / 2; shr_r := Z.odd n; shr_s := orb rb sb |}).
  { destruct n as [|[n'|n'|]|n']; cbn [shr_1]; try lia; f_equal;
      try reflexivity.
    - rewrite Pos2Z.inj_xI. apply Z.div_unique with 1; lia.
    - rewrite Pos2Z.inj_xO. apply Z.div_unique with 0; lia. }
  rewrite Hshape, Hs. cbn [shr_m loc_of_shr_record]. split; [reflexivity|].
  rewrite (Zmod_odd n) in *. destruct (Z.odd n).
  - destruct (Z.eqb_spec rho 0) as [E0|E0]; cbn [negb];
      (destruct (Z.eqb_spec (rho + q * 1) 0); [lia|]);
      destruct (Z.compare_spec (2 * (rho + q * 1)) (2 * q)); try lia; reflexivity.
  - replace (rho + q * 0) with rho by lia.
    destruct (Z.eqb_spec rho 0) as [E0|E0]; cbn [negb]; [reflexivity|].
    destruct (Z.compare_spec (2 * rho) (2 * q)); try lia; reflexivity.
Qed.

Lemma represents_iter (k : positive) :
  forall (r : shr_record) (p q : Z),
    0 <= p -> 0 < q -> represents r p q ->
    represents (iter_pos shr_1 k r) p (q * 2 ^ Zpos k).
Proof.
  induction k as [k IH|k IH|]; intros r p q Hp Hq Hr; simpl iter_pos.
  - replace (q * 2 ^ Zpos k~1) with (2 * q * 2 ^ Zpos k * 2 ^ Zpos k).
    + apply IH; [lia|nia|]. apply IH; [lia|lia|]. now apply represents_shr_1.
    + replace (Zpos k~1) with (1 + Zpos k + Zpos k) by lia.
      rewrite !Z.pow_add_r by lia. lia.
  - replace (q * 2 ^ Zpos k~0) with (q * 2 ^ Zpos k * 2 ^ Zpos k).
    + apply IH; [lia|nia|]. now apply IH.
    + replace (Zpos k~0) with (Zpos k + Zpos k) by lia.
      rewrite !Z.pow_add_r by lia. lia.
  - replace (q * 2 ^ 1) with (2 * q) by lia. now apply represents_shr_1.
Qed.

Lemma represents_round (r : shr_record) (p q : Z) :
  0 < q -> represents r p q ->
  round_nearest_even (shr_m r) (loc_of_shr_record r) = round_half_even p q.
Proof.
  intros Hq [Hm Hl]. rewrite Hm, Hl. unfold location_of, round_half_even.
  pose proof (Z.mod_pos_bound p q Hq) as B.
  destruct (Z.eqb_spec (p mod q) 0) as [E|E].
  - rewrite E. cbn [round_nearest_even].
    destruct (Z.compare_spec (2 * 0) q); try lia; reflexivity.
  - cbn [round_nearest_even]. destruct (2 * (p mod q) ?= q); reflexivity.
Qed.

(** **** The rounding of the arithmetic, in closed form

    A positive rational [P / Q] at the exponent [e], given by its floor [m]
    and its location, rounds to the nearest integer multiple of [2^g],
    where [g] is the exponent that the format assigns to its magnitude. *)
Lemma binary_round_aux_char (s : bool) (m : positive) (e : Z) (l : location) (P Q : Z) :
  0 < Q -> Zpos m = P / Q -> l = location_of P Q ->
  let g := fexp prec emax (Zpos (digits2_pos m) + e) in
  e <= g ->
  let n := round_half_even P (Q * 2 ^ (g - e)) in
  binary_round_aux prec emax s (Zpos m) e l = canon s n g /\
  0 <= n <= 2 ^ 53 /\ (-1074 < g -> 2 ^ 52 <= n).
Proof.
  intros HQ Hm Hl g Hg n.
  assert (HP : 0 <= P).
  { destruct (Z_lt_le_dec P 0) as [Hneg|]; [|assumption].
    pose proof (Z.div_lt_upper_bound P Q 0 HQ ltac:(lia)). lia. }
  pose proof (digits2_pos_bounds m) as [Hdlo Hdhi].
  set (d := Zpos (digits2_pos m)) in *.
  assert (Hd0 : 0 < d) by (unfold d; lia).
  assert (Hgdef : g = Z.max (d + e - 53) (-1074)) by (unfold g; apply fexp_eq).
  set (k := g - e) in *.
  assert (Hk : 0 <= k) by (unfold k; lia).
  assert (Hpk : 0 < 2 ^ k) by (apply Z.pow_pos_nonneg; lia).
  assert (Hfloor : P / (Q * 2 ^ k) = Zpos m / 2 ^ k).
  { rewrite <- Z.div_div by lia. now rewrite <- Hm. }
  pose proof (round_half_even_bounds P (Q * 2 ^ k) ltac:(nia)) as Hb. fold n in Hb.
  rewrite Hfloor in Hb.
  assert (Hhi : Zpos m / 2 ^ k < 2 ^ 53).
  { apply Z.div_lt_upper_bound; [lia|]. rewrite <- Z.pow_add_r by lia.
    eapply Z.lt_le_trans; [exact Hdhi|]. apply Z.pow_le_mono_r; lia. }
  assert (Hlo : -1074 < g -> 2 ^ 52 <= Zpos m / 2 ^ k).
  { intros Hn. apply Z.div_le_lower_bound; [lia|].
    rewrite <- Z.pow_add_r by lia.
    eapply Z.le_trans; [|exact Hdlo]. apply Z.pow_le_mono_r; lia. }
  assert (Hn0 : 0 <= Zpos m / 2 ^ k) by (apply Z.div_pos; lia).
  split; [|split; [lia|intros Hn; specialize (Hlo Hn); lia]].
  (* the first shift *)
  unfold binary_round_aux, shr_fexp at 1. cbn [Zdigits2]. fold d. fold g. fold k.
  assert (Hr0 : represents (shr_record_of_loc (Zpos m) l) P Q).
  { split; [now rewrite shr_record_of_loc_m|].
    rewrite Hl. unfold location_of.
    destruct (P mod Q =? 0); [reflexivity|]. now destruct (2 * (P mod Q) ?= Q). }
  assert (Hr1 : exists r1,
            shr (shr_record_of_loc (Zpos m) l) e k = (r1, g) /\
            represents r1 P (Q * 2 ^ k)).
  { unfold shr. destruct k as [|kp|kp] eqn:Ek; try lia.
    - exists (shr_record_of_loc (Zpos m) l). split; [f_equal; lia|].
      now rewrite Z.pow_0_r, Z.mul_1_r.
    - exists (iter_pos shr_1 kp (shr_record_of_loc (Zpos m) l)).
      split; [f_equal; lia|]. now apply represents_iter. }
  destruct Hr1 as (r1 & -> & Hr1).
  rewrite (represents_round r1 P (Q * 2 ^ k) ltac:(nia) Hr1). fold n.
  (* the second shift *)
  unfold shr_fexp, canon. change (emax - prec) with 971.
  change (2 ^ 53) with 9007199254740992 in *.
  change (2 ^ 52) with 4503599627370496 in *.
  destruct n as [|np|np] eqn:En; try lia.
  - cbn [Zdigits2]. rewrite fexp_eq. unfold shr.
    destruct (Z.max (0 + g - 53) (-1074) - g) eqn:E2; try lia; reflexivity.
  - cbn [Zdigits2]. rewrite fexp_eq.
    pose proof (digits2_pos_bounds np) as [Hnlo Hnhi].
    destruct (Z.ltb_spec (Zpos np) 9007199254740992) as [Hlt|Hge].
    + assert (Hdn : Zpos (digits2_pos np) <= 53).
      { apply digits2_pos_le. exact Hlt. }
      unfold shr.
      destruct (Z.max (Zpos (digits2_pos np) + g - 53) (-1074) - g) eqn:E2; try lia;
        reflexivity.
    + assert (Hnp : Zpos np = 9007199254740992) by lia.
      injection Hnp as ->. change (Zpos (digits2_pos 9007199254740992)) with 54.
      replace (Z.max (54 + g - 53) (-1074) - g) with 1 by lia. reflexivity.
Qed.

(** **** The order of the rounded Numbers *)

Ltac compare_spec_all :=
  repeat match goal with
         | |- context [(?a <=? ?b)] => destruct (Z.leb_spec a b)
         | |- context [(?a <? ?b)] => destruct (Z.ltb_spec a b)
         end;
  unfold SFleb; cbn [SFcompare];
  repeat match goal with
         | |- context [(?a ?= ?b)] => destruct (Z.compare_spec a b)
         end;
  rewrite ?Pos.compare_cont_spec; cbn [Pos.switch_Eq];
  repeat match goal with
         | |- context [(?a ?= ?b)%positive] => destruct (Pos.compare_spec a b)
         | H : (_ < _)%positive |- _ => apply Pos2Z.pos_lt_pos in H
         end;
  subst; try reflexivity; try lia.

Lemma canon_mono_same (n1 n2 g : Z) :
  0 <= n1 <= n2 -> n2 <= 2 ^ 53 ->
  SFleb (canon false n1 g) (canon false n2 g) = true.
Proof.
  change (2 ^ 53) with 9007199254740992. intros H1 H2. unfold canon.
  change (2 ^ 53) with 9007199254740992.
  destruct n1 as [|p1|p1]; destruct n2 as [|p2|p2]; try lia; compare_spec_all.
Qed.

Lemma canon_mono_lt (n1 n2 g1 g2 : Z) :
  g1 < g2 -> 0 <= n1 <= 2 ^ 53 -> 2 ^ 52 <= n2 <= 2 ^ 53 ->
  SFleb (canon false n1 g1) (canon false n2 g2) = true.
Proof.
  change (2 ^ 53) with 9007199254740992. change (2 ^ 52) with 4503599627370496.
  intros Hg H1 H2. unfold canon. change (2 ^ 53) with 9007199254740992.
  destruct n1 as [|p1|p1]; destruct n2 as [|p2|p2]; try lia; compare_spec_all.
Qed.

(** Two positive rationals in order round to Numbers in order. *)
Lemma binary_round_aux_mono (m1 m2 : positive) (e1 e2 : Z) (l1 l2 : location)
    (P1 Q1 P2 Q2 : Z) :
  0 < Q1 -> Zpos m1 = P1 / Q1 -> l1 = location_of P1 Q1 ->
  e1 <= fexp prec emax (Zpos (digits2_pos m1) + e1) ->
  0 < Q2 -> Zpos m2 = P2 / Q2 -> l2 = location_of P2 Q2 ->
  e2 <= fexp prec emax (Zpos (digits2_pos m2) + e2) ->
  P1 * Q2 * 2 ^ (e1 - Z.min e1 e2) <= P2 * Q1 * 2 ^ (e2 - Z.min e1 e2) ->
  SFleb (binary_round_aux prec emax false (Zpos m1) e1 l1)
        (binary_round_aux prec emax false (Zpos m2) e2 l2) = true.
Proof.
  intros HQ1 Hm1 Hl1 Ha1 HQ2 Hm2 Hl2 Ha2 Hle.
  destruct (binary_round_aux_char false m1 e1 l1 P1 Q1 HQ1 Hm1 Hl1 Ha1) as (-> & Hn1 & Hr1).
  destruct (binary_round_aux_char false m2 e2 l2 P2 Q2 HQ2 Hm2 Hl2 Ha2) as (-> & Hn2 & Hr2).
  rewrite !fexp_eq in *.
  pose proof (digits2_pos_bounds m1) as [Hd1 _].
  pose proof (digits2_pos_bounds m2) as [_ Hd2].
  set (d1 := Zpos (digits2_pos m1)) in *. set (d2 := Zpos (digits2_pos m2)) in *.
  assert (Hd1p : 0 < d1) by (unfold d1; lia).
  assert (Hd2p : 0 < d2) by (unfold d2; lia).
  set (E := Z.min e1 e2) in *.
  assert (HP1 : Q1 * 2 ^ (d1 - 1) <= P1).
  { pose proof (Z.mul_div_le P1 Q1 HQ1). rewrite <- Hm1 in *. nia. }
  assert (HP2 : P2 < Q2 * 2 ^ d2).
  { pose proof (Z.mul_succ_div_gt P2 Q2 HQ2). rewrite <- Hm2 in *. nia. }
  assert (HD : d1 + e1 <= d2 + e2).
  { assert (Hpow : 2 ^ (d1 - 1 + (e1 - E)) < 2 ^ (d2 + (e2 - E))).
    { rewrite !Z.pow_add_r by lia.
      pose proof (Z.pow_pos_nonneg 2 (e1 - E) ltac:(lia) ltac:(lia)) as A1.
      pose proof (Z.pow_pos_nonneg 2 (e2 - E) ltac:(lia) ltac:(lia)) as A2.
      pose proof (Z.pow_pos_nonneg 2 (d1 - 1) ltac:(lia) ltac:(lia)) as A3.
      pose proof (Z.pow_pos_nonneg 2 d2 ltac:(lia) ltac:(lia)) as A4.
      set (A := 2 ^ (e1 - E)) in *. set (B := 2 ^ (e2 - E)) in *.
      set (U := 2 ^ (d1 - 1)) in *. set (V := 2 ^ d2) in *.
      destruct (Z_lt_le_dec (U * A) (V * B)) as [|Hge]; [assumption|exfalso].
      assert (Q1 * Q2 * (V * B) <= Q1 * Q2 * (U * A)) by (apply Z.mul_le_mono_nonneg_l; nia).
      assert (Q1 * U * (Q2 * A) <= P1 * (Q2 * A)) by (apply Z.mul_le_mono_nonneg_r; nia).
      assert (P2 * (Q1 * B) < Q2 * V * (Q1 * B)) by (apply Z.mul_lt_mono_pos_r; nia).
      nia. }
    apply Z.pow_lt_mono_r_iff in Hpow; lia. }
  set (g1 := Z.max (d1 + e1 - 53) (-1074)) in *.
  set (g2 := Z.max (d2 + e2 - 53) (-1074)) in *.
  assert (Hg : g1 <= g2) by (unfold g1, g2; lia).
  destruct (Z_lt_le_dec g1 g2) as [Hlt|Hge].
  - apply canon_mono_lt; [exact Hlt|exact Hn1|].
    split; [apply Hr2; unfold g1 in *; lia|apply Hn2].
  - assert (Heq : g2 = g1) by lia. clearbody g2. subst g2.
    apply canon_mono_same; [|apply Hn2].
    split; [apply Hn1|].
    apply round_half_even_mono.
    + apply Z.mul_pos_pos; [lia|apply Z.pow_pos_nonneg; lia].
    + apply Z.mul_pos_pos; [lia|apply Z.pow_pos_nonneg; lia].
    + destruct (Z_lt_le_dec P1 0) as [Hneg|]; [|assumption].
      pose proof (Z.div_lt_upper_bound P1 Q1 0 HQ1 ltac:(lia)). lia.
    + set (M := Z.max e1 e2).
      assert (Hs1 : g1 - e2 = (e1 - E) + (g1 - M)) by (unfold E, M; lia).
      assert (Hs2 : g1 - e1 = (e2 - E) + (g1 - M)) by (unfold E, M; lia).
      rewrite Hs1, Hs2, !Z.pow_add_r by (unfold E, M; lia).
      pose proof (Z.pow_pos_nonneg 2 (g1 - M) ltac:(lia) ltac:(unfold M; lia)) as A1.
      set (T := 2 ^ (g1 - M)) in *.
      replace (P1 * (Q2 * (2 ^ (e1 - E) * T))) with (P1 * Q2 * 2 ^ (e1 - E) * T) by ring.
      replace (P2 * (Q1 * (2 ^ (e2 - E) * T))) with (P2 * Q1 * 2 ^ (e2 - E) * T) by ring.
      apply Z.mul_le_mono_nonneg_r; lia.
Qed.

(** **** Signs and the order *)

Lemma binary_round_aux_opp (m e : Z) (l : location) :
  binary_round_aux prec emax true m e l = SFopp (binary_round_aux prec emax false m e l).
Proof.
  unfold binary_round_aux.
  destruct (shr_fexp prec emax m e l) as [r1 e1].
  destruct (shr_fexp prec emax _ e1 loc_Exact) as [r2 e2].
  destruct (shr_m r2); try reflexivity. now destruct (e2 <=? emax - prec).
Qed.

Lemma SFleb_opp (x y : spec_float) : SFleb (SFopp y) (SFopp x) = SFleb x y.
Proof.
  unfold SFleb.
  destruct x as [[]|[]| |[] mx ex]; destruct y as [[]|[]| |[] my ey];
    cbn [SFopp negb SFcompare]; try reflexivity;
    rewrite (Z.compare_antisym ex ey);
    destruct (Z.compare_spec ex ey); cbn [CompOpp]; try reflexivity;
    rewrite !Pos.compare_cont_spec; cbn [Pos.switch_Eq];
    rewrite (Pos.compare_antisym mx my);
    destruct (Pos.compare mx my); reflexivity.
Qed.

Lemma SFleb_signs (x y : spec_float) :
  signed_as true x -> signed_as false y -> SFleb x y = true.
Proof.
  destruct x as [[]|[]| |[] mx ex]; destruct y as [[]|[]| |[] my ey];
    cbn [signed_as]; intros Hx Hy; try discriminate; try contradiction; reflexivity.
Qed.

Lemma SFleb_zero_l (s : bool) (y : spec_float) :
  signed_as false y -> SFleb (S754_zero s) y = true.
Proof.
  destruct y as [[]|[]| |[] my ey]; cbn [signed_as]; intros Hy;
    try discriminate; try contradiction; reflexivity.
Qed.

Lemma SFleb_infinity_r (x : spec_float) :
  x <> S754_nan -> SFleb x (S754_infinity false) = true.
Proof. destruct x as [[]|[]| |[] mx ex]; intros Hx; try congruence; reflexivity. Qed.

Lemma SFleb_infinity_l (y : spec_float) :
  y <> S754_nan -> SFleb (S754_infinity true) y = true.
Proof. destruct y as [[]|[]| |[] my ey]; intros Hy; try congruence; reflexivity. Qed.

(** **** Numbers are canonical *)

Lemma canonical_finite (x : float) (s : bool) (m : positive) (e : Z) :
  Prim2SF x = S754_finite s m e ->
  fexp prec emax (Zpos (digits2_pos m) + e) = e /\ e <= 971.
Proof.
  intros Hx. pose proof (Prim2SF_valid x) as Hv. rewrite Hx in Hv.
  unfold valid_binary, bounded, canonical_mantissa in Hv.
  apply andb_prop in Hv. destruct Hv as [Hc He].
  apply Z.eqb_eq in Hc. apply Z.leb_le in He. split; [exact Hc|exact He].
Qed.

(** The order of two positive canonical Numbers is that of their values. *)
Lemma canonical_order (m1 m2 : positive) (e1 e2 : Z) :
  fexp prec emax (Zpos (digits2_pos m1) + e1) = e1 ->
  fexp prec emax (Zpos (digits2_pos m2) + e2) = e2 ->
  SFleb (S754_finite false m1 e1) (S754_finite false m2 e2) = true ->
  Zpos m1 * 2 ^ (e1 - Z.min e1 e2) <= Zpos m2 * 2 ^ (e2 - Z.min e1 e2).
Proof.
  rewrite !fexp_eq. intros H1 H2. unfold SFleb. cbn [SFcompare].
  pose proof (digits2_pos_bounds m1) as [_ Hd1].
  pose proof (digits2_pos_bounds m2) as [Hd2 _].
  destruct (Z.compare_spec e1 e2) as [He|He|He]; try discriminate.
  - subst e2. rewrite Pos.compare_cont_spec. cbn [Pos.switch_Eq].
    rewrite Z.min_id, Z.sub_diag, Z.pow_0_r.
    destruct (Pos.compare_spec m1 m2) as [Hc|Hc|Hc]; try discriminate; intros _.
    + subst. lia.
    + apply Pos2Z.pos_lt_pos in Hc. lia.
  - intros _. replace (Z.min e1 e2) with e1 by lia.
    rewrite Z.sub_diag, Z.pow_0_r.
    assert (Hn2 : Zpos (digits2_pos m2) = 53) by lia.
    rewrite Hn2 in Hd2. change (2 ^ (53 - 1)) with 4503599627370496 in Hd2.
    assert (Hn1 : Zpos (digits2_pos m1) <= 53) by lia.
    assert (Zpos m1 < 2 ^ 53).
    { eapply Z.lt_le_trans; [exact Hd1|]. apply Z.pow_le_mono_r; lia. }
    change (2 ^ 53) with 9007199254740992 in *.
    assert (2 ^ 1 <= 2 ^ (e2 - e1)) by (apply Z.pow_le_mono_r; lia).
    change (2 ^ 1) with 2 in *. nia.
Qed.

Lemma digits2_pos_mul (m1 m2 : positive) :
  Zpos (digits2_pos m1) + Zpos (digits2_pos m2) - 1 <= Zpos (digits2_pos (m1 * m2)).
Proof.
  pose proof (digits2_pos_bounds m1) as [H1 _].
  pose proof (digits2_pos_bounds m2) as [H2 _].
  pose proof (digits2_pos_bounds (m1 * m2)) as [_ H3].
  set (d1 := Zpos (digits2_pos m1)) in *. set (d2 := Zpos (digits2_pos m2)) in *.
  set (d := Zpos (digits2_pos (m1 * m2))) in *.
  assert (0 < d1) by (unfold d1; lia). assert (0 < d2) by (unfold d2; lia).
  assert (0 < d) by (unfold d; lia).
  assert (Hp : 2 ^ (d1 - 1 + (d2 - 1)) < 2 ^ d).
  { rewrite Z.pow_add_r by lia. rewrite Pos2Z.inj_mul in H3.
    pose proof (Z.pow_pos_nonneg 2 (d1 - 1) ltac:(lia) ltac:(lia)).
    pose proof (Z.pow_pos_nonneg 2 (d2 - 1) ltac:(lia) ltac:(lia)). nia. }
  apply Z.pow_lt_mono_r_iff in Hp; lia.
Qed.

(** The product of two canonical significands is long enough to be
    rounded. *)
Lemma product_aligned (m1 m2 : positive) (e1 e2 : Z) :
  fexp prec emax (Zpos (digits2_pos m1) + e1) = e1 ->
  fexp prec emax (Zpos (digits2_pos m2) + e2) = e2 ->
  e1 + e2 <= fexp prec emax (Zpos (digits2_pos (m1 * m2)) + (e1 + e2)).
Proof.
  rewrite !fexp_eq. intros H1 H2. pose proof (digits2_pos_mul m1 m2).
  pose proof (Pos2Z.is_pos (digits2_pos m1)). pose proof (Pos2Z.is_pos (digits2_pos m2)).
  lia.
Qed.

(** **** Multiplication by a positive Number *)

Local Open Scope float_scope.

Lemma SFmul_signed (x : spec_float) (s : bool) (mc : positive) (ec : Z) :
  signed_as s x -> signed_as s (SF64mul x (S754_finite false mc ec)).
Proof.
  destruct x as [sx|sx| |sx mx ex]; cbn [signed_as]; try contradiction;
    intros ->; unfold SF64mul, SFmul; rewrite ?xorb_false_r; cbn [signed_as];
    try reflexivity.
  apply binary_round_aux_signed. lia.
Qed.

Lemma SFmul_opp_l (x : spec_float) (mc : positive) (ec : Z) :
  SF64mul (SFopp x) (S754_finite false mc ec) = SFopp (SF64mul x (S754_finite false mc ec)).
Proof.
  destruct x as [sx|sx| |sx mx ex]; unfold SF64mul, SFmul; cbn [SFopp];
    rewrite ?xorb_false_r; try reflexivity.
  destruct sx; cbn [negb]; rewrite binary_round_aux_opp; [|reflexivity].
  now destruct (binary_round_aux prec emax false _ _ _) as [[]|[]| |[] ? ?].
Qed.

Lemma mul_mono_nonneg (a b c : float) (mc : positive) (ec : Z) :
  Prim2SF c = S754_finite false mc ec ->
  signed_as false (Prim2SF a) -> signed_as false (Prim2SF b) ->
  (a <=? b) = true -> (a * c <=? b * c) = true.
Proof.
  intros Hc Ha Hb. rewrite !leb_spec, !mul_spec, Hc. intros Hle.
  destruct (canonical_finite c _ _ _ Hc) as [Hcc _].
  pose proof (SFmul_signed _ false mc ec Hb) as Hsb.
  destruct (Prim2SF a) as [sa|sa| |sa ma ea] eqn:Ea; cbn [signed_as] in Ha;
    try contradiction; subst sa.
  - unfold SF64mul at 1, SFmul at 1. cbn [xorb]. now apply SFleb_zero_l.
  - destruct (Prim2SF b) as [sb|sb| |sb mb eb] eqn:Eb; cbn [signed_as] in Hb;
      try contradiction; subst sb; try discriminate. reflexivity.
  - destruct (canonical_finite a _ _ _ Ea) as [Hca _].
    destruct (Prim2SF b) as [sb|sb| |sb mb eb] eqn:Eb; cbn [signed_as] in Hb;
      try contradiction; subst sb; try discriminate.
    + apply SFleb_infinity_r. eapply signed_as_not_nan.
      apply (SFmul_signed (S754_finite false ma ea) false mc ec). reflexivity.
    + destruct (canonical_finite b _ _ _ Eb) as [Hcb _].
      unfold SF64mul, SFmul. cbn [xorb].
      pose proof (canonical_order ma mb ea eb Hca Hcb Hle) as Hord.
      apply (binary_round_aux_mono _ _ _ _ _ _ (Zpos (ma * mc)) 1 (Zpos (mb * mc)) 1);
        try lia.
      * now rewrite Z.div_1_r.
      * unfold location_of. now rewrite Z.mod_1_r.
      * now apply product_aligned.
      * now rewrite Z.div_1_r.
      * unfold location_of. now rewrite Z.mod_1_r.
      * now apply product_aligned.
      * replace (Z.min (ea + ec) (eb + ec)) with (Z.min ea eb + ec)%Z by lia.
        replace (ea + ec - (Z.min ea eb + ec))%Z with (ea - Z.min ea eb)%Z by lia.
        replace (eb + ec - (Z.min ea eb + ec))%Z with (eb - Z.min ea eb)%Z by lia.
        rewrite !Pos2Z.inj_mul, !Z.mul_1_r.
        pose proof (Z.pow_pos_nonneg 2 (ea - Z.min ea eb) ltac:(lia) ltac:(lia)).
        pose proof (Z.pow_pos_nonneg 2 (eb - Z.min ea eb) ltac:(lia) ltac:(lia)).
        nia.
Qed.

Lemma signed_total (x : spec_float) :
  x <> S754_nan -> signed_as false x \/ signed_as true x.
Proof. destruct x as [[]|[]| |[] m e]; cbn; intros; auto; congruence. Qed.

Lemma SFopp_signed (x : spec_float) (s : bool) :
  signed_as s x -> signed_as (negb s) (SFopp x).
Proof. destruct x as [sx|sx| |sx m e]; cbn; intros; subst; auto. Qed.

(** Multiplication by a positive finite Number is monotone. *)
Lemma mul_mono (a b c : float) (mc : positive) (ec : Z) :
  Prim2SF c = S754_finite false mc ec ->
  (a <=? b) = true -> (a * c <=? b * c) = true.
Proof.
  intros Hc Hle.
  pose proof (leb_not_nan_l _ _ Hle) as Hna. pose proof (leb_not_nan_r _ _ Hle) as Hnb.
  apply is_nan_false in Hna, Hnb.
  destruct (signed_total _ Hna) as [Ha|Ha]; destruct (signed_total _ Hnb) as [Hb|Hb].
  - now apply (mul_mono_nonneg a b c mc ec).
  - (* a is a zero of sign +, b a zero of sign - *)
    rewrite leb_spec in Hle. rewrite leb_spec, !mul_spec, Hc.
    destruct (Prim2SF a) as [sa|sa| |sa ma ea]; cbn in Ha; try contradiction; subst sa;
      destruct (Prim2SF b) as [sb|sb| |sb mb eb]; cbn in Hb; try contradiction; subst sb;
      try discriminate. reflexivity.
  - rewrite leb_spec, !mul_spec, Hc. apply SFleb_signs; now apply SFmul_signed.
  - assert (Hopp : (- b * c <=? - a * c) = true).
    { apply (mul_mono_nonneg (- b) (- a) c mc ec Hc).
      + rewrite opp_spec. now apply (SFopp_signed _ true).
      + rewrite opp_spec. now apply (SFopp_signed _ true).
      + rewrite leb_spec, !opp_spec, SFleb_opp, <- leb_spec. exact Hle. }
    rewrite leb_spec, !mul_spec, !opp_spec, Hc, !SFmul_opp_l, SFleb_opp in Hopp.
    now rewrite leb_spec, !mul_spec, Hc.
Qed.

(** **** Addition of a finite Number *)

Local Open Scope Z_scope.

Lemma digits2_pos_shift (m : positive) (d : positive) :
  Zpos (digits2_pos (Pos.iter xO m d)) = Zpos (digits2_pos m) + Zpos d.
Proof.
  pose proof (digits2_pos_bounds m) as [Hlo Hhi].
  pose proof (Pos2Z.is_pos (digits2_pos m)).
  apply digits2_pos_range; [|lia]. rewrite Pos_iter_xO.
  replace (Zpos (digits2_pos m) + Zpos d - 1) with (Zpos (digits2_pos m) - 1 + Zpos d) by lia.
  rewrite !Z.pow_add_r by lia.
  pose proof (Z.pow_pos_nonneg 2 (Zpos d) ltac:(lia) ltac:(lia)). nia.
Qed.

(** [binary_round] hands [binary_round_aux] a significand that is long
    enough, of the same value. *)
Lemma binary_round_aligned (s : bool) (m : positive) (e : Z) :
  exists mz ez,
    binary_round prec emax s m e = binary_round_aux prec emax s (Zpos mz) ez loc_Exact /\
    ez <= fexp prec emax (Zpos (digits2_pos mz) + ez) /\
    ez <= e /\ Zpos mz = Zpos m * 2 ^ (e - ez).
Proof.
  unfold binary_round, shl_align.
  set (g := fexp prec emax (Zpos (digits2_pos m) + e)).
  destruct (g - e) as [|d|d] eqn:Ed.
  - exists m, e. fold g. repeat split; try lia. now rewrite Z.sub_diag, Z.mul_1_r.
  - exists m, e. fold g. repeat split; try lia. now rewrite Z.sub_diag, Z.mul_1_r.
  - exists (Pos.iter xO m d), g. rewrite digits2_pos_shift.
    replace (Zpos (digits2_pos m) + Zpos d + g) with (Zpos (digits2_pos m) + e) by lia.
    fold g. repeat split; try lia. rewrite Pos_iter_xO. do 2 f_equal. lia.
Qed.

Lemma pow2_split (a b : Z) : 0 <= a -> 0 <= b -> 2 ^ (a + b) = 2 ^ a * 2 ^ b.
Proof. intros. now apply Z.pow_add_r. Qed.

Lemma binary_round_mono (m1 m2 : positive) (e1 e2 : Z) :
  Zpos m1 * 2 ^ (e1 - Z.min e1 e2) <= Zpos m2 * 2 ^ (e2 - Z.min e1 e2) ->
  SFleb (binary_round prec emax false m1 e1) (binary_round prec emax false m2 e2) = true.
Proof.
  intros Hle.
  destruct (binary_round_aligned false m1 e1) as (z1 & f1 & -> & Ha1 & Hf1 & Hv1).
  destruct (binary_round_aligned false m2 e2) as (z2 & f2 & -> & Ha2 & Hf2 & Hv2).
  apply (binary_round_aux_mono _ _ _ _ _ _ (Zpos z1) 1 (Zpos z2) 1); try lia;
    try (now rewrite Z.div_1_r); try (unfold location_of; now rewrite Z.mod_1_r);
    try assumption.
  rewrite Hv1, Hv2, !Z.mul_1_r. set (E := Z.min e1 e2) in *. set (F := Z.min f1 f2).
  rewrite <- !Z.mul_assoc, <- !pow2_split by (unfold F; lia).
  replace (e1 - f1 + (f1 - F)) with (e1 - E + (E - F)) by lia.
  replace (e2 - f2 + (f2 - F)) with (e2 - E + (E - F)) by lia.
  rewrite !pow2_split by (unfold E, F; lia). rewrite !Z.mul_assoc.
  apply Z.mul_le_mono_nonneg_r; [apply Z.pow_nonneg; lia|exact Hle].
Qed.

Lemma binary_round_opp (m : positive) (e : Z) :
  binary_round prec emax true m e = SFopp (binary_round prec emax false m e).
Proof.
  unfold binary_round. destruct (shl_align _ _ _) as [mz ez].
  apply binary_round_aux_opp.
Qed.

(** The Number of a signed integer scaled by a power of two is monotone in
    the value. *)
Lemma binary_normalize_mono (S1 S2 e1 e2 : Z) :
  S1 * 2 ^ (e1 - Z.min e1 e2) <= S2 * 2 ^ (e2 - Z.min e1 e2) ->
  SFleb (binary_normalize prec emax S1 e1 false) (binary_normalize prec emax S2 e2 false)
    = true.
Proof.
  intros Hle.
  pose proof (Z.pow_pos_nonneg 2 (e1 - Z.min e1 e2) ltac:(lia) ltac:(lia)) as A1.
  pose proof (Z.pow_pos_nonneg 2 (e2 - Z.min e1 e2) ltac:(lia) ltac:(lia)) as A2.
  destruct S1 as [|p1|p1]; destruct S2 as [|p2|p2]; cbn [binary_normalize];
    try reflexivity; try (exfalso; nia).
  - apply SFleb_zero_l, binary_round_signed.
  - now apply binary_round_mono.
  - apply SFleb_signs; [apply binary_round_signed|reflexivity].
  - apply SFleb_signs; apply binary_round_signed.
  - rewrite !binary_round_opp, SFleb_opp. apply binary_round_mono.
    rewrite Z.min_comm. nia.
Qed.

(** A canonical significand is its own rounding. *)
Lemma binary_round_canonical (s : bool) (m : positive) (e : Z) :
  fexp prec emax (Zpos (digits2_pos m) + e) = e -> e <= 971 ->
  binary_round prec emax s m e = S754_finite s m e.
Proof.
  intros Hc He. unfold binary_round, shl_align. rewrite Hc, Z.sub_diag.
  destruct (binary_round_aux_char s m e loc_Exact (Zpos m) 1) as (-> & Hn & _);
    try lia.
  - now rewrite Z.div_1_r.
  - unfold location_of. now rewrite Z.mod_1_r.
  - rewrite Hc, Z.sub_diag, Z.pow_0_r, Z.mul_1_r in *.
    replace (round_half_even (Zpos m) 1) with (Zpos m) in *
      by (symmetry; rewrite <- (Z.mul_1_r (Zpos m)) at 1; apply round_half_even_exact; lia).
    unfold canon. rewrite fexp_eq in Hc.
    pose proof (digits2_pos_bounds m) as [_ Hd].
    assert (Zpos m < 2 ^ 53).
    { eapply Z.lt_le_trans; [exact Hd|]. apply Z.pow_le_mono_r; lia. }
    destruct (Z.ltb_spec (Zpos m) (2 ^ 53)); [|lia].
    destruct (Z.leb_spec e 971); [reflexivity|lia].
Qed.

Lemma cond_Zopp_mul (s : bool) (a b : Z) : cond_Zopp s (a * b) = cond_Zopp s a * b.
Proof. destruct s; cbn; lia. Qed.

(** The order of two canonical Numbers, zero or finite, is that of their
    signed values. *)
Lemma signed_order (a b : float) (e0 : Z) :
  zero_or_finite (Prim2SF a) -> zero_or_finite (Prim2SF b) ->
  (a <=? b)%float = true ->
  let '(Ya, ea) := signed_significand e0 (Prim2SF a) in
  let '(Yb, eb) := signed_significand e0 (Prim2SF b) in
  Ya * 2 ^ (ea - Z.min ea eb) <= Yb * 2 ^ (eb - Z.min ea eb).
Proof.
  intros Ha Hb. rewrite leb_spec.
  destruct (Prim2SF a) as [sa|sa| |sa ma ea] eqn:Ea; cbn in Ha; try contradiction;
    destruct (Prim2SF b) as [sb|sb| |sb mb eb] eqn:Eb; cbn in Hb; try contradiction;
    cbn [signed_significand]; intros Hle.
  - lia.
  - destruct sb; [discriminate|]. cbn [cond_Zopp].
    pose proof (Z.pow_pos_nonneg 2 (eb - Z.min e0 eb) ltac:(lia) ltac:(lia)). nia.
  - destruct sa; [|discriminate]. cbn [cond_Zopp].
    pose proof (Z.pow_pos_nonneg 2 (ea - Z.min ea e0) ltac:(lia) ltac:(lia)). nia.
  - destruct (canonical_finite a _ _ _ Ea) as [Hca _].
    destruct (canonical_finite b _ _ _ Eb) as [Hcb _].
    pose proof (Z.pow_pos_nonneg 2 (ea - Z.min ea eb) ltac:(lia) ltac:(lia)).
    pose proof (Z.pow_pos_nonneg 2 (eb - Z.min ea eb) ltac:(lia) ltac:(lia)).
    destruct sa, sb; cbn [cond_Zopp]; try discriminate.
    + change (SFleb (S754_finite true ma ea) (S754_finite true mb eb))
        with (SFleb (SFopp (S754_finite false ma ea)) (SFopp (S754_finite false mb eb))) in Hle.
      rewrite SFleb_opp in Hle.
      pose proof (canonical_order mb ma eb ea Hcb Hca Hle) as Hord.
      rewrite Z.min_comm in Hord. lia.
    + nia.
    + now apply canonical_order.
Qed.

(** The sum of a finite Number and a zero or finite one, as the Number of
    an exact signed integer. *)
Lemma SFadd_exact (x : float) (sm : bool) (mm : positive) (em : Z) (y : spec_float) :
  Prim2SF x = S754_finite sm mm em -> zero_or_finite y ->
  let '(Y, ey) := signed_significand em y in
  let ez := Z.min em ey in
  SF64add (S754_finite sm mm em) y =
  binary_normalize prec emax
    (cond_Zopp sm (Zpos mm) * 2 ^ (em - ez) + Y * 2 ^ (ey - ez)) ez false.
Proof.
  intros Hx Hy. destruct (canonical_finite x _ _ _ Hx) as [Hc He].
  destruct y as [sy|sy| |sy my ey]; cbn in Hy; try contradiction;
    cbn [signed_significand]; cbv zeta.
  - rewrite Z.min_id, Z.sub_diag, Z.pow_0_r, Z.mul_1_r, Z.mul_0_l, Z.add_0_r.
    unfold SF64add, SFadd.
    destruct sm; cbn [cond_Zopp];
      [change (- Zpos mm) with (Zneg mm)|]; cbn [binary_normalize];
      now rewrite binary_round_canonical.
  - unfold SF64add, SFadd.
    rewrite !shl_align_value by lia. now rewrite !cond_Zopp_mul.
Qed.

(** Adding to a finite Number is monotone. *)
Lemma add_mono (x a b : float) (sm : bool) (mm : positive) (em : Z) :
  Prim2SF x = S754_finite sm mm em ->
  (a <=? b)%float = true -> (x + a <=? x + b)%float = true.
Proof.
  intros Hx Hle.
  pose proof (leb_not_nan_l _ _ Hle) as Hna. pose proof (leb_not_nan_r _ _ Hle) as Hnb.
  apply is_nan_false in Hna, Hnb.
  assert (Hsa : SF64add (S754_finite sm mm em) (Prim2SF a) <> S754_nan)
    by now apply SFadd_finite_not_nan.
  assert (Hsb : SF64add (S754_finite sm mm em) (Prim2SF b) <> S754_nan)
    by now apply SFadd_finite_not_nan.
  rewrite leb_spec, !add_spec, Hx.
  assert (Hcase : (zero_or_finite (Prim2SF a) /\ zero_or_finite (Prim2SF b)) \/
                  Prim2SF a = S754_infinity true \/ Prim2SF b = S754_infinity false).
  { rewrite leb_spec in Hle.
    destruct (Prim2SF a) as [sa|[]| |sa ma ea] eqn:Ea;
      destruct (Prim2SF b) as [sb|[]| |sb mb eb] eqn:Eb;
      cbn; try congruence; try discriminate; auto. }
  destruct Hcase as [[Ha Hb]|[Ha|Hb]].
  - pose proof (signed_order a b em Ha Hb Hle) as Hord.
    pose proof (SFadd_exact x sm mm em _ Hx Ha) as Ea.
    pose proof (SFadd_exact x sm mm em _ Hx Hb) as Eb.
    destruct (signed_significand em (Prim2SF a)) as [Ya ea].
    destruct (signed_significand em (Prim2SF b)) as [Yb eb].
    cbv zeta in Ea, Eb. rewrite Ea, Eb. apply binary_normalize_mono.
    set (M := cond_Zopp sm (Zpos mm)) in *.
    set (za := Z.min em ea) in *. set (zb := Z.min em eb) in *.
    set (F := Z.min za zb). set (E := Z.min ea eb) in *.
    rewrite !Z.mul_add_distr_r, <- !Z.mul_assoc, <- !pow2_split by (unfold F, za, zb; lia).
    replace (em - za + (za - F)) with (em - F) by lia.
    replace (em - zb + (zb - F)) with (em - F) by lia.
    replace (ea - za + (za - F)) with (ea - E + (E - F)) by lia.
    replace (eb - zb + (zb - F)) with (eb - E + (E - F)) by lia.
    rewrite !pow2_split by (unfold E, F, za, zb; lia). rewrite !Z.mul_assoc.
    apply Z.add_le_mono_l.
    apply Z.mul_le_mono_nonneg_r; [apply Z.pow_nonneg; lia|exact Hord].
  - rewrite Ha. cbn [SF64add SFadd]. now apply SFleb_infinity_l.
  - rewrite Hb in *. cbn [SF64add SFadd] in Hsb |- *.
    change (SFadd prec emax (S754_finite sm mm em) (S754_infinity false))
      with (S754_infinity false).
    now apply SFleb_infinity_r.
Qed.

End RoundingMonotone.

(** ** The sampler is monotone in the variate *)
Module SamplerMonotone.

Import JS Dashboard FloatFacts SamplerFacts StatsFacts BinnerFacts RoundingMonotone.
Local Open Scope float_scope.

Lemma leb_total (x y : float) :
  is_nan x = false -> is_nan y = false -> (x <=? y) = true \/ (y <=? x) = true.
Proof.
  intros Hx Hy. destruct (y <? x) eqn:E.
  - right. now apply ltb_leb.
  - left. now apply not_ltb_leb.
Qed.

Lemma Math_max_mono (c x y : float) :
  is_nan c = false -> (x <=? y) = true -> (Math_max c x <=? Math_max c y) = true.
Proof.
  intros Hc Hle.
  pose proof (leb_not_nan_r _ _ Hle) as Hy.
  pose proof (Math_max_not_nan c y Hc Hy) as Hn.
  destruct (Math_max_cases c y Hn) as (_ & Hc' & Hy').
  apply Math_max_upper; [exact Hc'|]. eapply leb_trans; [exact Hle|exact Hy'].
Qed.

Lemma Math_min_mono (c x y : float) :
  is_nan c = false -> (x <=? y) = true -> (Math_min c x <=? Math_min c y) = true.
Proof.
  intros Hc Hle.
  pose proof (leb_not_nan_l _ _ Hle) as Hx. pose proof (leb_not_nan_r _ _ Hle) as Hy.
  pose proof (Math_min_not_nan c x Hc Hx) as Hnx.
  pose proof (Math_min_not_nan c y Hc Hy) as Hny.
  destruct (Math_min_cases c x Hnx) as (_ & Hc' & Hx').
  destruct (Math_min_cases c y Hny) as ([-> | ->] & _ & _).
  - exact Hc'.
  - eapply leb_trans; [exact Hx'|exact Hle].
Qed.

(** The value and the retention of a sample never decrease when the
    variate grows. *)
Lemma sample_of_mono (p : scenario_params) (z1 z2 : float)
    (m1 m2 m3 : positive) (e1 e2 e3 : Z) :
  Prim2SF (p_mean p) = S754_finite false m1 e1 ->
  Prim2SF (p_std p) = S754_finite false m2 e2 ->
  Prim2SF (p_ms p) = S754_finite false m3 e3 ->
  (z1 <=? z2) = true ->
  (npv (sample_of p z1) <=? npv (sample_of p z2)) = true /\
  (ms (sample_of p z1) <=? ms (sample_of p z2)) = true.
Proof.
  intros Hmean Hstd Hms Hle. unfold sample_of. cbn [npv ms]. split.
  - apply Math_max_mono; [reflexivity|].
    apply (add_mono _ _ _ _ _ _ Hmean), (mul_mono _ _ _ _ _ Hstd), Hle.
  - apply Math_max_mono; [reflexivity|]. apply Math_min_mono; [reflexivity|].
    apply (add_mono _ _ _ _ _ _ Hms).
    apply (mul_mono _ _ 0.08 5764607523034235 (-56)); [reflexivity|exact Hle].
Qed.

(** X11: within a population of the sampler, value and retention move
    together: both are non-decreasing functions of the sample's variate, so
    a sample with a strictly higher retention than another never has a lower
    value. *)
Theorem population_comonotone `{MathLib} (scenario : string) (draws : N -> float) (n0 : N) :
  recognized scenario ->
  Forall (fun z => is_nan z = false) (variates draws n0 population_size) ->
  exists p pop,
    object_get params_table scenario = Own p /\
    fst (simulations scenario draws n0) = Normal pop /\
    pop = map (sample_of p) (variates draws n0 population_size) /\
    (forall z1 z2, (z1 <=? z2) = true ->
       (npv (sample_of p z1) <=? npv (sample_of p z2)) = true /\
       (ms (sample_of p z1) <=? ms (sample_of p z2)) = true) /\
    (forall s1 s2, s1 ∈ pop -> s2 ∈ pop ->
       (ms s1 <? ms s2) = true -> (npv s1 <=? npv s2) = true).
Proof.
  intros Hrec Hz.
  destruct (recognized_params scenario Hrec)
    as (p & Hp & m1 & e1 & m2 & e2 & m3 & e3 & Hmean & Hstd & Hms).
  exists p, (map (sample_of p) (variates draws n0 population_size)).
  split; [exact Hp|]. split.
  { unfold simulations. rewrite Hp, simulations_loop_own. reflexivity. }
  split; [reflexivity|].
  assert (Hmono : forall z1 z2, (z1 <=? z2) = true ->
            (npv (sample_of p z1) <=? npv (sample_of p z2)) = true /\
            (ms (sample_of p z1) <=? ms (sample_of p z2)) = true).
  { intros z1 z2. now apply (sample_of_mono p z1 z2 m1 m2 m3 e1 e2 e3). }
  split; [exact Hmono|].
  intros s1 s2 Hs1 Hs2 Hlt.
  apply list_elem_of_fmap in Hs1, Hs2.
  destruct Hs1 as (z1 & -> & Hz1). destruct Hs2 as (z2 & -> & Hz2).
  pose proof (proj1 (Forall_forall _ _) Hz z1 Hz1) as Hn1.
  pose proof (proj1 (Forall_forall _ _) Hz z2 Hz2) as Hn2.
  cbv beta in Hn1, Hn2.
  destruct (leb_total z1 z2 Hn1 Hn2) as [Hle|Hge].
  - apply (Hmono z1 z2 Hle).
  - destruct (Hmono z2 z1 Hge) as [_ Hms'].
    pose proof (leb_not_ltb _ _ Hms') as Hcontra. congruence.
Qed.

Lemma population_comonotone_witness :
  exists p pop,
    object_get params_table "base" = Own p /\
    fst (@simulations RefMath.math "base" (fun _ => 0.25) 0%N) = Normal pop /\
    pop = map (sample_of p) (@variates RefMath.math (fun _ => 0.25) 0%N population_size) /\
    (forall z1 z2, (z1 <=? z2) = true ->
       (npv (sample_of p z1) <=? npv (sample_of p z2)) = true /\
       (ms (sample_of p z1) <=? ms (sample_of p z2)) = true) /\
    (forall s1 s2, s1 ∈ pop -> s2 ∈ pop ->
       (ms s1 <? ms s2) = true -> (npv s1 <=? npv s2) = true).
Proof.
  apply (@population_comonotone RefMath.math "base" (fun _ => 0.25) 0%N).
  - unfold recognized. rewrite !elem_of_cons. tauto.
  - rewrite (variates_periodic _ 0.25 0.25) by reflexivity.
    apply Forall_replicate. vm_compute. reflexivity.
Defined.

End SamplerMonotone.

(** ** The bars of the histogram come in ascending order *)
Module BarOrder.

Import JS Dashboard FloatFacts SamplerFacts StatsFacts BinnerFacts RoundingFacts
  BinIndexFacts HistogramFacts QuotientFacts ExtremeBins RoundingMonotone Bars.
Local Open Scope float_scope.

Lemma centres_table : forallb centre_ok (seq 0 bins) = true.
Proof. vm_compute. reflexivity. Qed.

Lemma centre_facts (i : nat) :
  (i < bins)%nat ->
  (exists m e, Prim2SF (centre i) = S754_finite false m e) /\
  (0 <=? centre i) = true /\ (centre i <=? centre (S i)) = true.
Proof.
  intros Hi. pose proof centres_table as Ht.
  rewrite forallb_forall in Ht. specialize (Ht i).
  specialize (Ht ltac:(apply in_seq; lia)). unfold centre_ok in Ht.
  destruct (Prim2SF (centre i)) as [| | |[] m e]; try discriminate.
  apply andb_prop in Ht. destruct Ht as [H0 H1].
  split; [now exists m, e|]. now split.
Qed.

Lemma centre_mono (i j : nat) :
  (i <= j)%nat -> (j < bins)%nat -> (centre i <=? centre j) = true.
Proof.
  induction 1 as [|j Hij IH]; intros Hj.
  - apply leb_refl. eapply leb_not_nan_r. apply (centre_facts i Hj).
  - eapply leb_trans; [apply IH; lia|]. apply (centre_facts j). lia.
Qed.

Lemma bar_x_zero_width (m0 : float) (sm : bool) (mm : positive) (em : Z) (i : nat) :
  Prim2SF m0 = S754_finite sm mm em -> (i < bins)%nat ->
  m0 + centre i * 0 = m0.
Proof.
  intros Em Hi. destruct (centre_facts i Hi) as ((m & e & Ec) & _).
  apply Prim2SF_inj. rewrite add_spec, mul_spec, Em, Ec. reflexivity.
Qed.

Lemma bar_x_mono (m0 size : float) (sm : bool) (mm ms : positive) (em es : Z) (i j : nat) :
  Prim2SF m0 = S754_finite sm mm em ->
  Prim2SF size = S754_finite false ms es ->
  (i <= j)%nat -> (j < bins)%nat ->
  (m0 <=? m0 + centre i * size) = true /\
  (m0 + centre i * size <=? m0 + centre j * size) = true.
Proof.
  intros Em Es Hij Hj. split.
  - assert (H0 : (0 * size <=? centre i * size) = true).
    { apply (mul_mono _ _ _ _ _ Es). apply (centre_facts i). lia. }
    assert (Hz : 0 * size = 0).
    { apply Prim2SF_inj. rewrite mul_spec, Es. reflexivity. }
    rewrite Hz in H0. apply (add_mono _ _ _ _ _ _ Em) in H0.
    assert (Hm : m0 + 0 = m0).
    { apply Prim2SF_inj. rewrite add_spec, Em. reflexivity. }
    now rewrite Hm in H0.
  - apply (add_mono _ _ _ _ _ _ Em), (mul_mono _ _ _ _ _ Es), centre_mono; assumption.
Qed.

(** The width of a bin between two finite values not below 50. *)
Lemma bin_width_shape (m0 M : float) :
  ge50 m0 -> is_finite m0 = true -> ge50 M -> is_finite M = true ->
  (m0 <=? M) = true ->
  (M - m0) / of_nat bins = 0 \/
  exists m e, Prim2SF ((M - m0) / of_nat bins) = S754_finite false m e.
Proof.
  intros Hm Hmf HM HMf Hle.
  destruct (m0 <? M) eqn:Hlt.
  - right. destruct (range_shape m0 M Hm Hmf HM HMf Hlt) as (q & e & Eb & Hq & He & _).
    rewrite div_spec, Eb.
    change (Prim2SF (of_nat bins)) with (S754_finite false 5629499534213120 (-47)).
    destruct (SFdiv_normal q 5629499534213120 e (-47) Hq) as (q' & e' & k & -> & _);
      [split; [vm_compute; discriminate|reflexivity]|lia|lia|].
    now exists q', e'.
  - left. destruct (finite_shape m0 Hm Hmf) as (mm & em & Em & Hem & Hmm).
    destruct (finite_shape M HM HMf) as (mM & eM & EM & HeM & HmM).
    rewrite leb_spec, Em, EM in Hle. rewrite ltb_spec, Em, EM in Hlt.
    destruct (SFsub_ordered mM mm eM em) as [[_ Hz]|(Hc & _)];
      try lia; try assumption; [|congruence].
    apply Prim2SF_inj. rewrite div_spec, sub_spec, EM, Em, Hz. reflexivity.
Qed.

Lemma StronglySorted_imap {A B} (R : B -> B -> Prop) (n : nat) (l : list A) :
  forall f : nat -> A -> B,
    length l = n ->
    (forall i j x y, (i <= j)%nat -> (j < n)%nat -> R (f i x) (f j y)) ->
    StronglySorted R (imap f l).
Proof.
  revert n. induction l as [|a l IH]; intros n f Hlen Hf; [constructor|].
  rewrite imap_cons. cbn [length] in Hlen. constructor.
  - apply (IH (Nat.pred n)); [lia|].
    intros i j x y Hij Hj. apply Hf; lia.
  - apply Forall_forall. intros b Hb.
    apply elem_of_lookup_imap in Hb. destruct Hb as (j & y & -> & Hy).
    apply lookup_lt_Some in Hy. apply Hf; lia.
Qed.

Lemma StronglySorted_filter {A} (R : A -> A -> Prop) (p : A -> bool) (l : list A) :
  StronglySorted R l -> StronglySorted R (List.filter p l).
Proof.
  induction 1 as [|a l Hs IH Ha]; cbn [List.filter]; [constructor|].
  destruct (p a); [|exact IH]. constructor; [exact IH|].
  apply Forall_forall. intros b Hb. apply list_elem_of_In, filter_In in Hb.
  destruct Hb as [Hb _]. apply list_elem_of_In in Hb.
  exact (proj1 (Forall_forall _ _) Ha b Hb).
Qed.

(** X12: the bars of the histogram of a population of finite values are in
    ascending order of their value coordinate (the [filter] keeps the order
    of the bins, and the centre [min + (i + 0.5) * size] of a bin never
    decreases with [i], rounding included), and no bar lies left of the
    minimum. *)
Theorem distribution_ascending `{MathLib} (simulations : list sample) (st : Stats.t) :
  Forall finite_value simulations ->
  stats simulations = Normal st ->
  StronglySorted bar_order (distribution simulations st) /\
  Forall (fun d => (Stats.min st <=? Bar.x d) = true) (distribution simulations st).
Proof.
  intros Hall Hst.
  destruct (stats_fields simulations st Hst) as (Hne & Hmin & Hmax).
  set (vals := map npv (Array_sort by_npv simulations)) in *.
  assert (Hvals : Forall (fun v => ge50 v /\ is_finite v = true) vals).
  { unfold vals. apply Forall_map. rewrite Array_sort_Permutation. exact Hall. }
  assert (Hnan : Forall (fun v => is_nan v = false) vals).
  { eapply Forall_impl; [exact Hvals|]. intros v [Hv _]. eapply leb_not_nan_r, Hv. }
  assert (Hvne : vals <> []).
  { intros Hnil. apply Hne. apply (f_equal (@length float)) in Hnil.
    unfold vals in Hnil. rewrite length_map, length_Array_sort in Hnil.
    destruct simulations; [reflexivity|discriminate]. }
  destruct (StatsProperties.min_of_numbers vals Hvne Hnan) as [Hmin_in Hlow].
  destruct (StatsProperties.max_of_numbers vals Hvne Hnan) as [Hmax_in _].
  rewrite <- Hmin in Hmin_in, Hlow. rewrite <- Hmax in Hmax_in.
  destruct (proj1 (Forall_forall _ _) Hvals _ Hmin_in) as [Hm50 Hmf].
  destruct (proj1 (Forall_forall _ _) Hvals _ Hmax_in) as [HM50 HMf].
  pose proof (proj1 (Forall_forall _ _) Hlow _ Hmax_in) as Hle. cbv beta in Hle.
  destruct (finite_shape _ Hm50 Hmf) as (mm & em & Em & _).
  destruct (BinnerProperties.fold_increment_bound (bin_index st (bin_width st))
              simulations (replicate bins 0%nat)) as [Hdlen _].
  rewrite length_replicate in Hdlen.
  assert (Hbars : forall i j, (i <= j)%nat -> (j < bins)%nat ->
            (Stats.min st <=? Stats.min st + centre i * bin_width st) = true /\
            (Stats.min st + centre i * bin_width st
               <=? Stats.min st + centre j * bin_width st) = true).
  { intros i j Hij Hj. unfold bin_width.
    destruct (bin_width_shape _ _ Hm50 Hmf HM50 HMf Hle) as [->|(ms & es & Es)].
    - rewrite !(bar_x_zero_width _ _ _ _ _ Em) by lia.
      split; apply leb_refl; eapply leb_not_nan_r, Hm50.
    - apply (bar_x_mono _ _ _ _ _ _ _ i j Em Es Hij Hj). }
  unfold distribution. split.
  - apply StronglySorted_filter.
    apply (StronglySorted_imap bar_order bins); [exact Hdlen|].
    intros i j x y Hij Hj. apply (Hbars i j Hij Hj).
  - apply Forall_filter_bool. apply Forall_forall. intros d Hd.
    apply elem_of_lookup_imap in Hd. destruct Hd as (i & c & -> & Hc).
    apply lookup_lt_Some in Hc. unfold counts in Hc. rewrite Hdlen in Hc.
    apply (Hbars i i (le_n i) Hc).
Qed.

Lemma distribution_ascending_witness :
  StronglySorted bar_order (distribution two_level_population two_level_stats) /\
  Forall (fun d => (Stats.min two_level_stats <=? Bar.x d) = true)
    (distribution two_level_population two_level_stats).
Proof.
  apply (@distribution_ascending RefMath.math two_level_population two_level_stats).
  - apply Forall_cons. split; [split; vm_compute; reflexivity|].
    apply Forall_replicate. split; vm_compute; reflexivity.
  - vm_compute. reflexivity.
Defined.

End BarOrder.

(** ** [Number(x.toFixed(1))] is monotone *)
Module FixedMonotone.

Import JS Dashboard Rounding FloatFacts RoundingFacts QuotientFacts RoundingMonotone.
Local Open Scope Z_scope.

(** The integer of [toFixed(1)] over any common exponent [G]. *)
Lemma tenths_eq (m : positive) (e G : Z) :
  G <= e -> G <= 0 ->
  tenths m e = (20 * (Zpos m * 2 ^ (e - G)) + 2 ^ (- G)) / 2 ^ (1 - G).
Proof.
  intros HGe HG0. unfold tenths.
  pose proof (Z.pow_pos_nonneg 2 (- G) ltac:(lia) ltac:(lia)) as HpG.
  destruct (Z.leb_spec 0 e) as [He|He].
  - rewrite Z.shiftl_mul_pow2 by lia.
    replace (e - G) with (e + - G) by lia. rewrite pow2_split by lia.
    replace (1 - G) with (- G + 1) by lia. rewrite pow2_split by lia.
    change (2 ^ 1) with 2.
    replace (20 * (Zpos m * (2 ^ e * 2 ^ (- G))) + 2 ^ (- G))
      with ((20 * (Zpos m * 2 ^ e) + 1) * 2 ^ (- G)) by ring.
    rewrite (Z.mul_comm (2 ^ (- G)) 2), Z.div_mul_cancel_r by lia.
    apply (Z.div_unique _ _ _ 1); lia.
  - rewrite Z.shiftr_div_pow2, Z.shiftl_mul_pow2 by lia. rewrite Z.mul_1_l.
    pose proof (Z.pow_pos_nonneg 2 (e - G) ltac:(lia) ltac:(lia)) as Hp.
    pose proof (Z.pow_pos_nonneg 2 (1 - e) ltac:(lia) ltac:(lia)) as Hp'.
    replace (- G) with (- e + (e - G)) by lia. rewrite pow2_split by lia.
    replace (1 - G) with (1 - e + (e - G)) by lia.
    rewrite pow2_split by lia.
    replace (20 * (Zpos m * 2 ^ (e - G)) + 2 ^ (- e) * 2 ^ (e - G))
      with ((20 * Zpos m + 2 ^ (- e)) * 2 ^ (e - G)) by ring.
    now rewrite Z.div_mul_cancel_r by lia.
Qed.

Lemma tenths_nonneg (m : positive) (e : Z) : 0 <= tenths m e.
Proof.
  rewrite (tenths_eq m e (Z.min e 0)) by lia.
  apply Z.div_pos; [|apply Z.pow_pos_nonneg; lia].
  pose proof (Z.pow_pos_nonneg 2 (e - Z.min e 0) ltac:(lia) ltac:(lia)).
  pose proof (Z.pow_pos_nonneg 2 (- Z.min e 0) ltac:(lia) ltac:(lia)). nia.
Qed.

(** Scaling both sides of an order of values to a lower exponent. *)
Lemma order_rescale (a b e1 e2 G : Z) :
  G <= Z.min e1 e2 ->
  a * 2 ^ (e1 - Z.min e1 e2) <= b * 2 ^ (e2 - Z.min e1 e2) ->
  a * 2 ^ (e1 - G) <= b * 2 ^ (e2 - G).
Proof.
  intros HG Hle. set (E := Z.min e1 e2) in *.
  replace (e1 - G) with (e1 - E + (E - G)) by lia.
  replace (e2 - G) with (e2 - E + (E - G)) by lia.
  rewrite !pow2_split by (unfold E; lia). rewrite !Z.mul_assoc.
  apply Z.mul_le_mono_nonneg_r; [apply Z.pow_nonneg; lia|exact Hle].
Qed.

Lemma order_unscale (a b e1 e2 G : Z) :
  G <= Z.min e1 e2 ->
  a * 2 ^ (e1 - G) <= b * 2 ^ (e2 - G) ->
  a * 2 ^ (e1 - Z.min e1 e2) <= b * 2 ^ (e2 - Z.min e1 e2).
Proof.
  intros HG. set (E := Z.min e1 e2) in *.
  replace (e1 - G) with (e1 - E + (E - G)) by lia.
  replace (e2 - G) with (e2 - E + (E - G)) by lia.
  rewrite !pow2_split by (unfold E; lia). rewrite !Z.mul_assoc.
  intros Hle. apply Z.mul_le_mono_pos_r in Hle; [exact Hle|].
  apply Z.pow_pos_nonneg; lia.
Qed.

Lemma tenths_mono (m1 m2 : positive) (e1 e2 : Z) :
  Zpos m1 * 2 ^ (e1 - Z.min e1 e2) <= Zpos m2 * 2 ^ (e2 - Z.min e1 e2) ->
  tenths m1 e1 <= tenths m2 e2.
Proof.
  intros Hle. set (G := Z.min (Z.min e1 e2) 0).
  apply (order_rescale _ _ _ _ G) in Hle; [|unfold G; lia].
  rewrite (tenths_eq m1 e1 G), (tenths_eq m2 e2 G) by (unfold G; lia).
  apply Z.div_le_mono; [apply Z.pow_pos_nonneg; unfold G; lia|lia].
Qed.

(** The results of rounding are Numbers. *)
Lemma canon_valid (s : bool) (n g : Z) :
  -1074 <= g -> 0 <= n <= 2 ^ 53 -> (-1074 < g -> 2 ^ 52 <= n) ->
  valid_binary (canon s n g) = true.
Proof.
  intros Hg Hn Hlo. unfold canon.
  change (2 ^ 53) with 9007199254740992 in *. change (2 ^ 52) with 4503599627370496 in *.
  destruct n as [|p|p]; [reflexivity| |lia].
  destruct (Z.ltb_spec (Zpos p) 9007199254740992) as [Hp|Hp].
  - destruct (Z.leb_spec g 971) as [Hg'|Hg']; [|reflexivity].
    unfold valid_binary, bounded, canonical_mantissa.
    apply andb_true_intro. split; [|apply Z.leb_le; exact Hg'].
    apply Z.eqb_eq. rewrite fexp_eq.
    pose proof (digits2_pos_le p 53 Hp).
    destruct (Z.eq_dec g (-1074)) as [->|Hne]; [lia|].
    rewrite (digits2_pos_normal p) by (change (2 ^ 52) with 4503599627370496;
      change (2 ^ 53) with 9007199254740992; lia). lia.
  - destruct (Z.leb_spec (g + 1) 971) as [Hg'|Hg']; [|reflexivity].
    unfold valid_binary, bounded, canonical_mantissa.
    apply andb_true_intro. split; [|apply Z.leb_le; exact Hg'].
    apply Z.eqb_eq. rewrite fexp_eq.
    change (Zpos (digits2_pos 4503599627370496)) with 53. lia.
Qed.

Lemma binary_round_aux_valid (s : bool) (m : positive) (e : Z) (l : location) (P Q : Z) :
  0 < Q -> Zpos m = P / Q -> l = location_of P Q ->
  e <= fexp prec emax (Zpos (digits2_pos m) + e) ->
  valid_binary (binary_round_aux prec emax s (Zpos m) e l) = true.
Proof.
  intros HQ Hm Hl Ha.
  destruct (binary_round_aux_char s m e l P Q HQ Hm Hl Ha) as (-> & Hn & Hlo).
  apply canon_valid; [rewrite fexp_eq; lia|exact Hn|exact Hlo].
Qed.

(** The quotient and the remainder that the division of [n] by 10 hands to
    the rounding: the significand is long enough, and the pair stands for
    [n / 10]. *)
Lemma ratio_core (n : positive) :
  exists q e l,
    SFdiv_core_binary prec emax (Zpos n) 0 10 0 = (Zpos q, e, l) /\
    e <= 0 /\
    Zpos q = (Zpos n * 2 ^ (- e)) / 10 /\
    l = location_of (Zpos n * 2 ^ (- e)) 10 /\
    e <= fexp prec emax (Zpos (digits2_pos q) + e).
Proof.
  unfold SFdiv_core_binary. cbn [Zdigits2].
  change (Zpos (digits2_pos 10)) with 4. rewrite fexp_eq.
  pose proof (digits2_pos_bounds n) as [Hlo Hhi].
  set (d := Zpos (digits2_pos n)) in *.
  assert (Hd : 0 < d) by (unfold d; lia).
  set (e := Z.min (Z.max (d + 0 - (4 + 0) - 53) (-1074)) (0 - 0)).
  assert (He : e = Z.min (d - 57) 0) by (unfold e; lia).
  assert (Hm' : match 0 - 0 - e with
                | Zpos _ => Z.shiftl (Zpos n) (0 - 0 - e)
                | 0 => Zpos n
                | Zneg _ => 0
                end = Zpos n * 2 ^ (- e)).
  { destruct (0 - 0 - e) as [|k|k] eqn:Ek; try lia.
    - replace (- e) with 0 by lia. lia.
    - rewrite Z.shiftl_mul_pow2 by lia. do 2 f_equal. lia. }
  rewrite Hm'. clear Hm'.
  set (P := Zpos n * 2 ^ (- e)).
  assert (HP : 2 ^ 56 <= P).
  { unfold P. destruct (Z.le_gt_cases d 57) as [Hle|Hgt].
    - replace (- e) with (57 - d) by lia.
      replace 56 with (d - 1 + (57 - d)) by lia. rewrite pow2_split by lia.
      apply Z.mul_le_mono_nonneg_r; [apply Z.pow_nonneg; lia|exact Hlo].
    - replace (- e) with 0 by lia. rewrite Z.pow_0_r, Z.mul_1_r.
      eapply Z.le_trans; [|exact Hlo]. apply Z.pow_le_mono_r; lia. }
  pose proof (Z.div_eucl_eq P 10 ltac:(lia)) as Heq.
  pose proof (Z.mod_pos_bound P 10 ltac:(lia)) as Hr.
  unfold Z.modulo in Hr. unfold Z.div in *.
  assert (Hq : fst (Z.div_eucl P 10) = P / 10) by reflexivity.
  assert (Hrm : snd (Z.div_eucl P 10) = P mod 10) by reflexivity.
  destruct (Z.div_eucl P 10) as [q r]. cbn [fst snd] in *.
  change (2 ^ 56) with 72057594037927936 in HP.
  destruct q as [|q|q]; try lia.
  exists q, e, (new_location 10 r). fold P.
  split; [reflexivity|]. split; [lia|]. split; [exact Hq|]. split.
  - unfold location_of. rewrite <- Hrm. reflexivity.
  - rewrite fexp_eq.
    assert (Hq52 : 2 ^ 52 <= Zpos q) by (change (2 ^ 52) with 4503599627370496; lia).
    pose proof (digits2_pos_bounds q) as [_ Hqhi].
    assert (52 < Zpos (digits2_pos q)).
    { destruct (Z.le_gt_cases (Zpos (digits2_pos q)) 52) as [Hc|]; [|lia].
      assert (2 ^ Zpos (digits2_pos q) <= 2 ^ 52) by (apply Z.pow_le_mono_r; lia). lia. }
    destruct (Z.le_gt_cases d 57) as [Hle|Hgt]; [lia|].
    assert (He0 : e = 0) by lia. rewrite He0.
    assert (Hq53 : 2 ^ 53 <= Zpos q).
    { assert (2 ^ 57 <= P).
      { unfold P. rewrite He0. change (- 0) with 0. rewrite Z.pow_0_r, Z.mul_1_r.
        eapply Z.le_trans; [|exact Hlo]. apply Z.pow_le_mono_r; lia. }
      change (2 ^ 57) with 144115188075855872 in *.
      change (2 ^ 53) with 9007199254740992. lia. }
    assert (53 < Zpos (digits2_pos q)).
    { destruct (Z.le_gt_cases (Zpos (digits2_pos q)) 53) as [Hc|]; [|lia].
      assert (2 ^ Zpos (digits2_pos q) <= 2 ^ 53) by (apply Z.pow_le_mono_r; lia). lia. }
    lia.
Qed.


(** A canonical significand is its own rounding. *)
Lemma binary_round_aux_canonical (s : bool) (m : positive) (e : Z) :
  fexp prec emax (Zpos (digits2_pos m) + e) = e -> e <= 971 ->
  binary_round_aux prec emax s (Zpos m) e loc_Exact = S754_finite s m e.
Proof.
  intros Hc He. pose proof (binary_round_canonical s m e Hc He) as H.
  unfold binary_round, shl_align in H. now rewrite Hc, Z.sub_diag in H.
Qed.

Lemma nearest_ratio_round (s : bool) (n : positive) :
  exists q e l,
    Prim2SF (nearest_ratio s n 10) = binary_round_aux prec emax s (Zpos q) e l /\
    e <= 0 /\
    Zpos q = (Zpos n * 2 ^ (- e)) / 10 /\
    l = location_of (Zpos n * 2 ^ (- e)) 10 /\
    e <= fexp prec emax (Zpos (digits2_pos q) + e).
Proof.
  destruct (ratio_core n) as (q & e & l & Hc & He & Hq & Hl & Ha).
  exists q, e, l. unfold nearest_ratio. rewrite Hc.
  rewrite Prim2SF_SF2Prim; [auto|].
  apply (binary_round_aux_valid s q e l (Zpos n * 2 ^ (- e)) 10); auto; lia.
Qed.

(** [Number(x.toFixed(1))] of a positive finite Number: zero when the
    integer of tenths is zero, and otherwise the rounding of a ratio worth
    that many tenths. *)
Lemma toFixed1_finite (x : float) (m : positive) (e : Z) :
  Prim2SF x = S754_finite false m e ->
  (tenths m e = 0 /\ Prim2SF (toFixed1_Number x) = S754_zero false) \/
  (0 < tenths m e /\
   exists q e' l P Q,
     Prim2SF (toFixed1_Number x) = binary_round_aux prec emax false (Zpos q) e' l /\
     0 < Q /\ Zpos q = P / Q /\ l = location_of P Q /\
     e' <= fexp prec emax (Zpos (digits2_pos q) + e') /\
     forall G, G <= e' -> G <= 0 ->
       P * 10 * 2 ^ (e' - G) = tenths m e * Q * 2 ^ (- G)).
Proof.
  intros Hx. destruct (canonical_finite x _ _ _ Hx) as [Hc He].
  unfold toFixed1_Number. rewrite Hx.
  change (if (0 <=? e) then 10 * Z.shiftl (Zpos m) e
          else Z.shiftr (20 * Zpos m + Z.shiftl 1 (- e)) (1 - e)) with (tenths m e).
  pose proof (tenths_nonneg m e) as Hn.
  destruct ((0 <=? e) && (10 ^ 21 <=? Z.shiftl (Zpos m) e)) eqn:Hbig.
  - apply andb_prop in Hbig. destruct Hbig as [He0 Hb].
    apply Z.leb_le in He0, Hb. rewrite Z.shiftl_mul_pow2 in Hb by lia.
    assert (Ht : tenths m e = 10 * (Zpos m * 2 ^ e)).
    { unfold tenths. destruct (Z.leb_spec 0 e); [|lia].
      now rewrite Z.shiftl_mul_pow2 by lia. }
    right. split; [change (10 ^ 21) with 1000000000000000000000 in Hb; lia|].
    exists m, e, loc_Exact, (Zpos m), 1.
    rewrite Hx, binary_round_aux_canonical by assumption.
    split; [reflexivity|]. split; [lia|]. split; [now rewrite Z.div_1_r|].
    split; [unfold location_of; now rewrite Z.mod_1_r|]. split; [lia|].
    intros G HG HG0. rewrite Ht.
    replace (e - G) with (e + - G) by lia. rewrite pow2_split by lia. ring.
  - destruct (tenths m e) as [|p|p] eqn:Et; [left; split; reflexivity| |lia].
    right. split; [lia|].
    destruct (nearest_ratio_round false p) as (q & e' & l & Hr & He' & Hq & Hl & Ha).
    exists q, e', l, (Zpos p * 2 ^ (- e')), 10.
    split; [exact Hr|]. split; [lia|]. split; [exact Hq|]. split; [exact Hl|].
    split; [exact Ha|].
    intros G HG HG0.
    replace (- G) with (- e' + (e' - G)) by lia. rewrite pow2_split by lia. ring.
Qed.

Lemma toFixed1_signed (x : float) (m : positive) (e : Z) :
  Prim2SF x = S754_finite false m e ->
  signed_as false (Prim2SF (toFixed1_Number x)).
Proof.
  intros Hx.
  destruct (toFixed1_finite x m e Hx)
    as [[_ ->]|(_ & q & e' & l & P & Q & -> & _)]; [reflexivity|].
  apply binary_round_aux_signed. lia.
Qed.

Lemma toFixed1_mono_finite (x y : float) (mx my : positive) (ex ey : Z) :
  Prim2SF x = S754_finite false mx ex ->
  Prim2SF y = S754_finite false my ey ->
  (x <=? y)%float = true ->
  (toFixed1_Number x <=? toFixed1_Number y)%float = true.
Proof.
  intros Hx Hy Hle. rewrite leb_spec, Hx, Hy in Hle. rewrite leb_spec.
  destruct (canonical_finite x _ _ _ Hx) as [Hcx _].
  destruct (canonical_finite y _ _ _ Hy) as [Hcy _].
  pose proof (tenths_mono _ _ _ _ (canonical_order _ _ _ _ Hcx Hcy Hle)) as HT.
  pose proof (toFixed1_signed y my ey Hy) as Hsy.
  destruct (toFixed1_finite x mx ex Hx)
    as [[_ ->]|(HT1 & q1 & e1 & l1 & P1 & Q1 & -> & HQ1 & Hq1 & Hl1 & Ha1 & Hv1)];
    [now apply SFleb_zero_l|].
  destruct (toFixed1_finite y my ey Hy)
    as [[HT2 _]|(HT2 & q2 & e2 & l2 & P2 & Q2 & -> & HQ2 & Hq2 & Hl2 & Ha2 & Hv2)];
    [lia|].
  apply (binary_round_aux_mono q1 q2 e1 e2 l1 l2 P1 Q1 P2 Q2); try assumption.
  set (G := Z.min (Z.min e1 e2) 0).
  apply (order_unscale _ _ _ _ G); [unfold G; lia|].
  specialize (Hv1 G ltac:(unfold G; lia) ltac:(unfold G; lia)).
  specialize (Hv2 G ltac:(unfold G; lia) ltac:(unfold G; lia)).
  pose proof (Z.pow_pos_nonneg 2 (- G) ltac:(lia) ltac:(unfold G; lia)) as HC.
  set (A := 2 ^ (e1 - G)) in *. set (B := 2 ^ (e2 - G)) in *. set (C := 2 ^ (- G)) in *.
  set (T1 := tenths mx ex) in *. set (T2 := tenths my ey) in *.
  apply (Z.mul_le_mono_pos_r _ _ 10); [lia|].
  replace (P1 * Q2 * A * 10) with (P1 * 10 * A * Q2) by ring.
  replace (P2 * Q1 * B * 10) with (P2 * 10 * B * Q1) by ring.
  rewrite Hv1, Hv2.
  replace (T1 * Q1 * C * Q2) with (T1 * (Q1 * Q2 * C)) by ring.
  replace (T2 * Q2 * C * Q1) with (T2 * (Q1 * Q2 * C)) by ring.
  apply Z.mul_le_mono_nonneg_r; [|exact HT].
  apply Z.lt_le_incl. repeat apply Z.mul_pos_pos; assumption.
Qed.

Lemma toFixed1_zero (x : float) (s : bool) :
  Prim2SF x = S754_zero s -> Prim2SF (toFixed1_Number x) = S754_zero false.
Proof. intros Hx. unfold toFixed1_Number. now rewrite Hx. Qed.

Lemma toFixed1_infinity (x : float) (s : bool) :
  Prim2SF x = S754_infinity s -> toFixed1_Number x = x.
Proof. intros Hx. unfold toFixed1_Number. now rewrite Hx. Qed.

(** [Number(x.toFixed(1))] is monotone on the Numbers that are not
    negative. *)
Lemma toFixed1_mono (x y : float) :
  signed_as false (Prim2SF x) ->
  (x <=? y)%float = true ->
  (toFixed1_Number x <=? toFixed1_Number y)%float = true.
Proof.
  intros Hsx Hle. pose proof Hle as Hle'. rewrite leb_spec in Hle'. rewrite leb_spec.
  destruct (Prim2SF x) as [sx|sx| |sx mx ex] eqn:Hx; cbn [signed_as] in Hsx;
    try contradiction; subst sx.
  - rewrite (toFixed1_zero x _ Hx).
    destruct (Prim2SF y) as [sy|sy| |sy my ey] eqn:Hy.
    + now rewrite (toFixed1_zero y _ Hy).
    + rewrite (toFixed1_infinity y _ Hy), Hy. destruct sy; [discriminate|reflexivity].
    + discriminate.
    + destruct sy; [discriminate|].
      apply SFleb_zero_l. now apply (toFixed1_signed y my ey).
  - rewrite (toFixed1_infinity x _ Hx), Hx.
    destruct (Prim2SF y) as [sy|sy| |sy my ey] eqn:Hy; try discriminate.
    destruct sy; [discriminate|]. now rewrite (toFixed1_infinity y _ Hy), Hy.
  - destruct (Prim2SF y) as [sy|sy| |sy my ey] eqn:Hy; try discriminate.
    + destruct sy; [discriminate|]. rewrite (toFixed1_infinity y _ Hy), Hy.
      apply SFleb_infinity_r. eapply signed_as_not_nan.
      now apply (toFixed1_signed x mx ex).
    + destruct sy; [discriminate|]. rewrite <- leb_spec.
      now apply (toFixed1_mono_finite x y mx my ex ey).
Qed.

End FixedMonotone.

(** ** The charts: the scatter's coordinates and the trajectory's band *)
Module ChartProperties.

Import JS Dashboard Panels Projection Rounding FloatFacts SamplerFacts RoundingFacts
  QuotientFacts RoundingMonotone SamplerMonotone BarOrder FixedMonotone.
Local Open Scope float_scope.

(** A Number not below a positive one is positive. *)
Lemma leb_signed (c x : float) (m : positive) (e : Z) :
  Prim2SF c = S754_finite false m e -> (c <=? x) = true ->
  signed_as false (Prim2SF x).
Proof.
  intros Hc. rewrite leb_spec, Hc.
  destruct (Prim2SF x) as [[]|[]| |[] mx ex]; cbn; intros H;
    try discriminate; reflexivity.
Qed.

Lemma SFmul_comm (x y : spec_float) : SF64mul x y = SF64mul y x.
Proof.
  destruct x as [sx|sx| |sx mx ex]; destruct y as [sy|sy| |sy my ey];
    unfold SF64mul, SFmul; try reflexivity;
    rewrite (xorb_comm sx sy); try reflexivity.
  now rewrite (Pos.mul_comm mx my), (Z.add_comm ex ey).
Qed.

Lemma mul_comm (a b : float) : a * b = b * a.
Proof. apply Prim2SF_inj. rewrite !mul_spec. apply SFmul_comm. Qed.

(** Multiplication by a positive finite Number, on the other side. *)
Lemma mul_mono_r (a b c : float) (mc : positive) (ec : Z) :
  Prim2SF c = S754_finite false mc ec ->
  (a <=? b) = true -> (c * a <=? c * b) = true.
Proof.
  intros Hc Hle. rewrite (mul_comm c a), (mul_comm c b).
  now apply (mul_mono a b c mc ec).
Qed.

(** Scaling a Number that is not negative by a factor below one does not
    raise it, and by a factor above one does not lower it. *)
Lemma mul_shrink (u c : float) (mc : positive) (ec : Z) :
  Prim2SF c = S754_finite false mc ec ->
  (ec <= 0)%Z -> (Zpos mc <= 2 ^ (- ec))%Z ->
  signed_as false (Prim2SF u) ->
  (u * c <=? u) = true.
Proof.
  intros Hc Hec Hmc Hu. rewrite leb_spec, mul_spec, Hc.
  destruct (canonical_finite c _ _ _ Hc) as [Hcc _].
  destruct (Prim2SF u) as [su|su| |su m e] eqn:Eu; cbn [signed_as] in Hu;
    try contradiction; subst su; try reflexivity.
  destruct (canonical_finite u _ _ _ Eu) as [Hcu Heu].
  unfold SF64mul, SFmul. cbn [xorb].
  rewrite <- (binary_round_aux_canonical false m e Hcu Heu).
  apply (binary_round_aux_mono _ _ _ _ _ _ (Zpos (m * mc)) 1 (Zpos m) 1); try lia.
  - now rewrite Z.div_1_r.
  - unfold location_of. now rewrite Z.mod_1_r.
  - now apply product_aligned.
  - now rewrite Z.div_1_r.
  - unfold location_of. now rewrite Z.mod_1_r.
  - replace (Z.min (e + ec) e) with (e + ec)%Z by lia.
    rewrite Z.sub_diag, Z.pow_0_r, !Z.mul_1_r, Pos2Z.inj_mul.
    replace (e - (e + ec))%Z with (- ec)%Z by lia.
    apply Z.mul_le_mono_nonneg_l; [lia|exact Hmc].
Qed.

Lemma mul_stretch (u c : float) (mc : positive) (ec : Z) :
  Prim2SF c = S754_finite false mc ec ->
  (ec <= 0)%Z -> (2 ^ (- ec) <= Zpos mc)%Z ->
  signed_as false (Prim2SF u) ->
  (u <=? u * c) = true.
Proof.
  intros Hc Hec Hmc Hu. rewrite leb_spec, mul_spec, Hc.
  destruct (canonical_finite c _ _ _ Hc) as [Hcc _].
  destruct (Prim2SF u) as [su|su| |su m e] eqn:Eu; cbn [signed_as] in Hu;
    try contradiction; subst su; try reflexivity.
  destruct (canonical_finite u _ _ _ Eu) as [Hcu Heu].
  unfold SF64mul, SFmul. cbn [xorb].
  rewrite <- (binary_round_aux_canonical false m e Hcu Heu) at 1.
  apply (binary_round_aux_mono _ _ _ _ _ _ (Zpos m) 1 (Zpos (m * mc)) 1); try lia.
  - now rewrite Z.div_1_r.
  - unfold location_of. now rewrite Z.mod_1_r.
  - now rewrite Z.div_1_r.
  - unfold location_of. now rewrite Z.mod_1_r.
  - now apply product_aligned.
  - replace (Z.min e (e + ec)) with (e + ec)%Z by lia.
    rewrite Z.sub_diag, Z.pow_0_r, !Z.mul_1_r, Pos2Z.inj_mul.
    replace (e - (e + ec))%Z with (- ec)%Z by lia.
    apply Z.mul_le_mono_nonneg_l; [lia|exact Hmc].
Qed.

(** *** The scatter chart *)

Lemma scatter_point_in_range (s : sample) :
  in_range s -> dot_in_range (scatter_point s) /\ dot_in_tier (scatter_point s).
Proof.
  intros (Hv & Hlo & Hhi).
  assert (H100 : Prim2SF 100 = S754_finite false 7036874417766400 (-46)) by reflexivity.
  assert (Hx50 : (50 <=? ms s * 100) = true).
  { change 50 with (0.5 * 100). now apply (mul_mono _ _ _ _ _ H100). }
  assert (Hx95 : (ms s * 100 <=? 95) = true).
  { change 95 with (0.95 * 100). now apply (mul_mono _ _ _ _ _ H100). }
  assert (Hs50 : signed_as false (Prim2SF (ms s * 100))).
  { now apply (leb_signed 50 _ 7036874417766400 (-47)). }
  assert (Hnan : is_nan (ms s) = false) by (eapply leb_not_nan_r, Hlo).
  split.
  - unfold dot_in_range, scatter_point. cbn [Dot.x Dot.y]. split; [|split].
    + change 50 with (toFixed1_Number 50) at 1.
      apply toFixed1_mono; [reflexivity|exact Hx50].
    + change 95 with (toFixed1_Number 95) at 1.
      apply toFixed1_mono; assumption.
    + change 50 with (toFixed1_Number 50) at 1.
      apply toFixed1_mono; [reflexivity|exact Hv].
  - unfold dot_in_tier, scatter_point, risk_of. cbn [Dot.x Dot.risk].
    destruct (0.78 <? ms s) eqn:E78; [|destruct (0.7 <? ms s) eqn:E70; [split|]].
    + change 78 with (toFixed1_Number (0.78 * 100)).
      apply toFixed1_mono; [reflexivity|].
      apply (mul_mono _ _ _ _ _ H100). now apply ltb_leb.
    + change 70 with (toFixed1_Number (0.7 * 100)).
      apply toFixed1_mono; [reflexivity|].
      apply (mul_mono _ _ _ _ _ H100). now apply ltb_leb.
    + change 78 with (toFixed1_Number (0.78 * 100)).
      apply toFixed1_mono; [exact Hs50|].
      apply (mul_mono _ _ _ _ _ H100). now apply not_ltb_leb.
    + change 70 with (toFixed1_Number (0.7 * 100)).
      apply toFixed1_mono; [exact Hs50|].
      apply (mul_mono _ _ _ _ _ H100). now apply not_ltb_leb.
Qed.

(** X13: every dot of the scatter chart of a population in range has its
    retention coordinate between 50 and 95 and its value coordinate at
    least 50, and lies where the legend of its series says: at 78 or more
    for low risk, between 70 and 78 for medium risk, at 70 or less for high
    risk (rounding to one decimal can put a dot on a boundary, never across
    it). *)
Theorem scatter_coordinates (simulations : list sample) :
  Forall in_range simulations ->
  Forall (fun d => dot_in_range d /\ dot_in_tier d) (scatter simulations) /\
  (forall d, d ∈ series low (scatter simulations) -> (78 <=? Dot.x d) = true) /\
  (forall d, d ∈ series med (scatter simulations) ->
             (70 <=? Dot.x d) = true /\ (Dot.x d <=? 78) = true) /\
  (forall d, d ∈ series high (scatter simulations) -> (Dot.x d <=? 70) = true).
Proof.
  intros Hall.
  assert (Hdots : Forall (fun d => dot_in_range d /\ dot_in_tier d) (scatter simulations)).
  { unfold scatter. apply Forall_map.
    eapply Forall_impl; [apply Forall_take, Hall|].
    intros s Hs. now apply scatter_point_in_range. }
  split; [exact Hdots|].
  assert (Hser : forall r d, d ∈ series r (scatter simulations) ->
            Dot.risk d = r /\ dot_in_tier d).
  { intros r d Hd. unfold series in Hd.
    apply list_elem_of_In, filter_In in Hd. destruct Hd as [Hd Hr].
    apply list_elem_of_In in Hd.
    split; [|exact (proj2 (proj1 (Forall_forall _ _) Hdots d Hd))].
    destruct (Dot.risk d), r; try discriminate; reflexivity. }
  split; [|split]; intros d Hd; destruct (Hser _ d Hd) as [Hr Ht];
    unfold dot_in_tier in Ht; rewrite Hr in Ht; exact Ht.
Qed.

Lemma scatter_coordinates_witness :
  Forall (fun d => dot_in_range d /\ dot_in_tier d) (scatter two_level_population) /\
  (forall d, d ∈ series low (scatter two_level_population) -> (78 <=? Dot.x d) = true) /\
  (forall d, d ∈ series med (scatter two_level_population) ->
             (70 <=? Dot.x d) = true /\ (Dot.x d <=? 78) = true) /\
  (forall d, d ∈ series high (scatter two_level_population) -> (Dot.x d <=? 70) = true).
Proof.
  apply (scatter_coordinates two_level_population).
  apply Forall_cons. split; [split; [|split]; vm_compute; reflexivity|].
  apply Forall_replicate. split; [|split]; vm_compute; reflexivity.
Defined.


(** *** The trajectory *)

Lemma recognized_factors (scenario : string) :
  recognized scenario ->
  exists fs,
    factors_table !! scenario = Some fs /\ length fs = 6%nat /\
    Forall (fun f => positive_finite f = true) fs /\ StronglySorted fle fs.
Proof.
  unfold recognized. rewrite !elem_of_cons, elem_of_nil.
  intros [->|[->|[->|[->|[]]]]]; eexists; (split; [reflexivity|]);
    (split; [reflexivity|]); split; repeat constructor.
Qed.

Lemma trajectory_own (scenario : string) (fs : list float) (st : Stats.t) :
  factors_table !! scenario = Some fs ->
  trajectory scenario st = Normal (imap (point_of st fs) years).
Proof.
  intros Hfs. unfold trajectory.
  rewrite (ProjectionClaims.object_get_own _ _ _ Hfs). reflexivity.
Qed.

Lemma positive_finite_shape (f : float) :
  positive_finite f = true -> exists m e, Prim2SF f = S754_finite false m e.
Proof.
  unfold positive_finite. destruct (Prim2SF f) as [| | |[] m e]; try discriminate.
  intros _. now exists m, e.
Qed.

Lemma mul_signed (u f : float) :
  signed_as false (Prim2SF u) -> positive_finite f = true ->
  signed_as false (Prim2SF (u * f)).
Proof.
  intros Hu Hf. destruct (positive_finite_shape f Hf) as (m & e & Ef).
  rewrite mul_spec, Ef. now apply SFmul_signed.
Qed.

(** A product with a Number of at least 50 grows with the other factor. *)
Lemma mul_mono_factor (u f f' : float) :
  ge50 u -> positive_finite f = true -> positive_finite f' = true ->
  (f <=? f') = true -> (u * f <=? u * f') = true.
Proof.
  intros Hu Hf Hf' Hle.
  destruct (positive_finite_shape f Hf) as (m & e & Ef).
  destruct (positive_finite_shape f' Hf') as (m' & e' & Ef').
  pose proof (leb_signed 50 u 7036874417766400 (-47) eq_refl Hu) as Hs.
  unfold ge50 in Hu. rewrite leb_spec in Hu.
  destruct (Prim2SF u) as [su|su| |su mu eu] eqn:Eu; cbn [signed_as] in Hs;
    try contradiction; subst su; try discriminate.
  - rewrite leb_spec, !mul_spec, Eu, Ef, Ef'. reflexivity.
  - now apply (mul_mono_r f f' u mu eu).
Qed.

Lemma point_band (a b c f : float) :
  ge50 a -> fle a b -> fle b c -> positive_finite f = true ->
  (toFixed1_Number (a * f * 0.95) <=? toFixed1_Number (b * f)) = true /\
  (toFixed1_Number (b * f) <=? toFixed1_Number (c * f * 1.05)) = true.
Proof.
  intros Ha Hab Hbc Hf. unfold fle in *.
  destruct (positive_finite_shape f Hf) as (m & e & Ef).
  assert (Hb : ge50 b) by (eapply leb_trans; [exact Ha|exact Hab]).
  assert (Hc : ge50 c) by (eapply leb_trans; [exact Hb|exact Hbc]).
  pose proof (leb_signed 50 a 7036874417766400 (-47) eq_refl Ha) as Hsa.
  pose proof (leb_signed 50 b 7036874417766400 (-47) eq_refl Hb) as Hsb.
  pose proof (leb_signed 50 c 7036874417766400 (-47) eq_refl Hc) as Hsc.
  pose proof (mul_signed a f Hsa Hf) as Haf.
  pose proof (mul_signed b f Hsb Hf) as Hbf.
  pose proof (mul_signed c f Hsc Hf) as Hcf.
  split; apply toFixed1_mono.
  - now apply mul_signed.
  - eapply leb_trans; [|apply (mul_mono a b f m e Ef Hab)].
    apply (mul_shrink _ 0.95 8556839292003942 (-53)); [reflexivity|lia| |exact Haf].
    vm_compute. discriminate.
  - exact Hbf.
  - eapply leb_trans; [apply (mul_mono b c f m e Ef Hbc)|].
    apply (mul_stretch _ 1.05 4728779608739021 (-52)); [reflexivity|lia| |exact Hcf].
    vm_compute. discriminate.
Qed.

Lemma point_growth (a b c f f' : float) :
  ge50 a -> ge50 b -> ge50 c ->
  positive_finite f = true -> positive_finite f' = true -> (f <=? f') = true ->
  (toFixed1_Number (b * f) <=? toFixed1_Number (b * f')) = true /\
  (toFixed1_Number (a * f * 0.95) <=? toFixed1_Number (a * f' * 0.95)) = true /\
  (toFixed1_Number (c * f * 1.05) <=? toFixed1_Number (c * f' * 1.05)) = true.
Proof.
  intros Ha Hb Hc Hf Hf' Hle.
  pose proof (leb_signed 50 a 7036874417766400 (-47) eq_refl Ha) as Hsa.
  pose proof (leb_signed 50 b 7036874417766400 (-47) eq_refl Hb) as Hsb.
  pose proof (leb_signed 50 c 7036874417766400 (-47) eq_refl Hc) as Hsc.
  split; [|split]; apply toFixed1_mono.
  - now apply mul_signed.
  - now apply mul_mono_factor.
  - apply mul_signed; [now apply mul_signed|reflexivity].
  - apply (mul_mono _ _ 0.95 8556839292003942 (-53)); [reflexivity|].
    now apply mul_mono_factor.
  - apply mul_signed; [now apply mul_signed|reflexivity].
  - apply (mul_mono _ _ 1.05 4728779608739021 (-52)); [reflexivity|].
    now apply mul_mono_factor.
Qed.

(** X14: for each of the four selector values and percentiles
    [50 <= p10 <= median <= p90], the expected value of every year of the
    trajectory lies inside its band, [p10 <= expected <= p90], after the
    scaling by 0.95 and 1.05 and the rounding to one decimal. *)
Theorem trajectory_band (scenario : string) (st : Stats.t) (a b c : float) :
  recognized scenario ->
  Stats.p10 st = Some a -> Stats.median st = Some b -> Stats.p90 st = Some c ->
  ge50 a -> fle a b -> fle b c ->
  exists traj,
    trajectory scenario st = Normal traj /\ length traj = 6%nat /\
    Forall within_band traj.
Proof.
  intros Hrec H10 H50 H90 Ha Hab Hbc.
  destruct (recognized_factors scenario Hrec) as (fs & Hfs & Hlen & Hpos & _).
  exists (imap (point_of st fs) years).
  split; [now apply trajectory_own|]. split; [now rewrite length_imap|].
  apply Forall_forall. intros pt Hpt.
  apply elem_of_lookup_imap in Hpt. destruct Hpt as (i & yr & -> & Hyr).
  apply lookup_lt_Some in Hyr. change (length years) with 6%nat in Hyr.
  destruct (lookup_lt_is_Some_2 fs i ltac:(lia)) as (f & Hf).
  pose proof (proj1 (Forall_forall _ _) Hpos f (list_elem_of_lookup_2 _ _ _ Hf)) as Hfp.
  unfold within_band, point_of. cbn [Point.p10 Point.expected Point.p90].
  rewrite Hf, H10, H50, H90. cbn [ToNumber].
  now apply point_band.
Qed.

Lemma trajectory_band_witness :
  exists traj,
    trajectory "base" example_stats = Normal traj /\ length traj = 6%nat /\
    Forall within_band traj.
Proof.
  apply (trajectory_band "base" example_stats 74.2 89.4 108.7).
  - unfold recognized. rewrite !elem_of_cons. tauto.
  - reflexivity.
  - reflexivity.
  - reflexivity.
  - vm_compute. reflexivity.
  - vm_compute. reflexivity.
  - vm_compute. reflexivity.
Defined.

(** X15: for each of the four selector values and percentiles of at least 50,
    none of the three curves of the trajectory ever falls from one year to a
    later one: the growth factors of every scenario increase, and the
    products and the rounding to one decimal keep the order. *)
Theorem trajectory_growth (scenario : string) (st : Stats.t) (a b c : float) :
  recognized scenario ->
  Stats.p10 st = Some a -> Stats.median st = Some b -> Stats.p90 st = Some c ->
  ge50 a -> ge50 b -> ge50 c ->
  exists traj,
    trajectory scenario st = Normal traj /\ StronglySorted not_below traj.
Proof.
  intros Hrec H10 H50 H90 Ha Hb Hc.
  destruct (recognized_factors scenario Hrec) as (fs & Hfs & Hlen & Hpos & Hsorted).
  exists (imap (point_of st fs) years).
  split; [now apply trajectory_own|].
  apply (StronglySorted_imap not_below 6); [reflexivity|].
  intros i j x y Hij Hj.
  destruct (lookup_lt_is_Some_2 fs i ltac:(lia)) as (f & Hf).
  destruct (lookup_lt_is_Some_2 fs j ltac:(lia)) as (f' & Hf').
  pose proof (proj1 (Forall_forall _ _) Hpos f (list_elem_of_lookup_2 _ _ _ Hf)) as Hfp.
  pose proof (proj1 (Forall_forall _ _) Hpos f' (list_elem_of_lookup_2 _ _ _ Hf')) as Hfp'.
  assert (Hle : (f <=? f') = true).
  { destruct (Nat.eq_dec i j) as [->|Hne].
    - rewrite Hf in Hf'. injection Hf' as <-. apply leb_refl.
      destruct (positive_finite_shape f Hfp) as (m & e & Ef).
      apply is_nan_false. rewrite Ef. discriminate.
    - apply (StatsProperties.StronglySorted_lookup fle fs Hsorted i j); [lia|assumption..]. }
  unfold not_below, point_of. cbn [Point.p10 Point.expected Point.p90].
  rewrite Hf, Hf', H10, H50, H90. cbn [ToNumber].
  now apply point_growth.
Qed.

Lemma trajectory_growth_witness :
  exists traj,
    trajectory "optimistic" example_stats = Normal traj /\
    StronglySorted not_below traj.
Proof.
  apply (trajectory_growth "optimistic" example_stats 74.2 89.4 108.7).
  - unfold recognized. rewrite !elem_of_cons. tauto.
  - reflexivity.
  - reflexivity.
  - reflexivity.
  - vm_compute. reflexivity.
  - vm_compute. reflexivity.
  - vm_compute. reflexivity.
Defined.

End ChartProperties.

(** ** The averages of the summary *)
Module AverageProperties.

Import JS Dashboard Projection Rounding FloatFacts SamplerFacts StatsFacts BinnerFacts
  RoundingFacts HistogramFacts QuotientFacts RoundingMonotone FixedMonotone ChartProperties.
Local Open Scope float_scope.

(** **** Sums of positive Numbers *)

Lemma SFadd_comm (x y : spec_float) : SF64add x y = SF64add y x.
Proof.
  destruct x as [sx|sx| |sx mx ex]; destruct y as [sy|sy| |sy my ey];
    unfold SF64add, SFadd; try reflexivity.
  - destruct sx, sy; reflexivity.
  - destruct sx, sy; reflexivity.
  - now rewrite (Z.min_comm ex ey), Z.add_comm.
Qed.

Lemma add_comm (a b : float) : a + b = b + a.
Proof. apply Prim2SF_inj. rewrite !add_spec. apply SFadd_comm. Qed.

Lemma nonzero_signed_signed (s : bool) (x : spec_float) :
  nonzero_signed s x -> signed_as s x.
Proof. destruct x; cbn; intros H; try contradiction; exact H. Qed.

Lemma leb_positive (a b : float) :
  nonzero_signed false (Prim2SF a) -> (a <=? b) = true ->
  nonzero_signed false (Prim2SF b).
Proof.
  rewrite leb_spec.
  destruct (Prim2SF a) as [sa|sa| |sa ma ea]; cbn [nonzero_signed]; try contradiction;
    intros ->; destruct (Prim2SF b) as [[]|[]| |[] mb eb]; cbn; intros H;
    try discriminate; reflexivity.
Qed.

Lemma add_positive (a b : float) :
  nonzero_signed false (Prim2SF a) -> nonzero_signed false (Prim2SF b) ->
  nonzero_signed false (Prim2SF (a + b)).
Proof.
  rewrite add_spec. intros Ha Hb.
  destruct (Prim2SF a) as [sa|sa| |sa ma ea] eqn:Ea; cbn [nonzero_signed] in Ha;
    try contradiction; subst sa;
    destruct (Prim2SF b) as [sb|sb| |sb mb eb] eqn:Eb; cbn [nonzero_signed] in Hb;
    try contradiction; subst sb; try reflexivity.
  unfold SF64add, SFadd. cbn [cond_Zopp].
  destruct (valid_finite a _ _ _ Ea) as (Hea & _).
  destruct (valid_finite b _ _ _ Eb) as (Heb & _).
  apply binary_normalize_pos; lia.
Qed.

(** Addition is monotone in both arguments on the positive Numbers. *)
Lemma add_mono_positive (a b c d : float) :
  nonzero_signed false (Prim2SF a) -> nonzero_signed false (Prim2SF c) ->
  (a <=? b) = true -> (c <=? d) = true -> (a + c <=? b + d) = true.
Proof.
  intros Ha Hc Hab Hcd.
  pose proof (leb_positive a b Ha Hab) as Hb.
  pose proof (leb_positive c d Hc Hcd) as Hd.
  pose proof (add_positive a c Ha Hc) as Hac.
  pose proof (add_positive b d Hb Hd) as Hbd.
  destruct (Prim2SF c) as [sc|sc| |sc mc ec] eqn:Ec; cbn [nonzero_signed] in Hc;
    try contradiction; subst sc.
  - (* c is infinite, and so is d *)
    rewrite leb_spec in Hcd. rewrite Ec in Hcd.
    destruct (Prim2SF d) as [sd|sd| |sd md ed] eqn:Ed; cbn [nonzero_signed] in Hd;
      try contradiction; subst sd; try discriminate.
    rewrite leb_spec, !add_spec, Ec, Ed.
    destruct (Prim2SF a) as [sa|sa| |sa ma ea]; cbn [nonzero_signed] in Ha;
      try contradiction; subst sa;
      destruct (Prim2SF b) as [sb|sb| |sb mb eb]; cbn [nonzero_signed] in Hb;
      try contradiction; subst sb; reflexivity.
  - apply (leb_trans _ (b + c)).
    + rewrite (add_comm a c), (add_comm b c). now apply (add_mono c a b false mc ec).
    + destruct (Prim2SF b) as [sb|sb| |sb mb eb] eqn:Eb; cbn [nonzero_signed] in Hb;
        try contradiction; subst sb.
      * rewrite leb_spec, !add_spec, Eb, Ec.
        destruct (Prim2SF d) as [sd|sd| |sd md ed]; cbn [nonzero_signed] in Hd;
          try contradiction; subst sd; reflexivity.
      * now apply (add_mono b c d false mb eb).
Qed.

(** A sum of values that are each at least (at most) [c] is at least (at
    most) the sum of as many copies of [c]. *)
Lemma fold_add_lower {A} (f : A -> float) (c : float) (l : list A) :
  nonzero_signed false (Prim2SF c) ->
  Forall (fun s => (c <=? f s) = true) l ->
  forall lo acc,
    nonzero_signed false (Prim2SF lo) -> (lo <=? acc) = true ->
    (fold_left add (replicate (length l) c) lo
       <=? fold_left (fun sum s => sum + f s) l acc) = true.
Proof.
  intros Hc. induction 1 as [|s l Hs _ IH]; intros lo acc Hlo Hle; cbn; [exact Hle|].
  apply IH; [now apply add_positive|now apply add_mono_positive].
Qed.

Lemma fold_add_upper {A} (f : A -> float) (c : float) (l : list A) :
  Forall (fun s => nonzero_signed false (Prim2SF (f s)) /\ (f s <=? c) = true) l ->
  forall acc hi,
    nonzero_signed false (Prim2SF acc) -> (acc <=? hi) = true ->
    (fold_left (fun sum s => sum + f s) l acc
       <=? fold_left add (replicate (length l) c) hi) = true.
Proof.
  induction 1 as [|s l [Hp Hs] _ IH]; intros acc hi Hacc Hle; cbn; [exact Hle|].
  apply IH; [now apply add_positive|now apply add_mono_positive].
Qed.


(** **** Quotients by a positive Number *)

Local Open Scope Z_scope.

Lemma new_location_eq (P Q : Z) :
  0 < Q -> new_location Q (P mod Q) = location_of P Q.
Proof.
  intros HQ. pose proof (Z.mod_pos_bound P Q HQ) as Hr.
  unfold new_location, location_of.
  destruct (Z.even Q) eqn:Hev; unfold new_location_even, new_location_odd;
    destruct (Z.eqb_spec (P mod Q) 0) as [Hz|Hz]; try reflexivity.
  f_equal. rewrite <- Z.negb_odd in Hev. apply negb_false_iff in Hev.
  apply Z.odd_spec in Hev. destruct Hev as [k Hk].
  destruct (Z.compare_spec (2 * (P mod Q) + 1) Q);
    destruct (Z.compare_spec (2 * (P mod Q)) Q); try reflexivity; lia.
Qed.

(** The quotient and the remainder that the division of two normal
    positive Numbers hands to the rounding. *)
Lemma div_core_normal (m1 m2 : positive) (e1 e2 : Z) :
  2 ^ 52 <= Zpos m1 < 2 ^ 53 -> 2 ^ 52 <= Zpos m2 < 2 ^ 53 ->
  -1074 <= e1 - e2 - 53 ->
  exists q l,
    SFdiv_core_binary prec emax (Zpos m1) e1 (Zpos m2) e2 = (Zpos q, e1 - e2 - 53, l) /\
    Zpos q = (Zpos m1 * 2 ^ 53) / Zpos m2 /\
    l = location_of (Zpos m1 * 2 ^ 53) (Zpos m2) /\
    e1 - e2 - 53 <= fexp prec emax (Zpos (digits2_pos q) + (e1 - e2 - 53)).
Proof.
  intros H1 H2 Hlo.
  unfold SFdiv_core_binary. cbn [Zdigits2].
  rewrite (digits2_pos_normal m1 H1), (digits2_pos_normal m2 H2), fexp_eq.
  replace (Z.min (Z.max (53 + e1 - (53 + e2) - 53) (-1074)) (e1 - e2))
    with (e1 - e2 - 53) by lia.
  replace (e1 - e2 - (e1 - e2 - 53)) with 53 by lia.
  rewrite Z.shiftl_mul_pow2 by lia.
  set (P := Zpos m1 * 2 ^ 53).
  pose proof (Z_div_mod P (Zpos m2) ltac:(lia)) as Hdm.
  assert (HQ : P / Zpos m2 = fst (Z.div_eucl P (Zpos m2))) by reflexivity.
  assert (HR : P mod Zpos m2 = snd (Z.div_eucl P (Zpos m2))) by reflexivity.
  destruct (Z.div_eucl P (Zpos m2)) as [Q r]. cbn [fst snd] in HQ, HR.
  destruct Hdm as [Hdm Hr]. unfold P in Hdm.
  change (2 ^ 52) with 4503599627370496 in *.
  change (2 ^ 53) with 9007199254740992 in *.
  assert (HQr : 4503599627370496 <= Q) by nia.
  destruct Q as [|Q|Q]; try lia.
  exists Q, (new_location (Zpos m2) r).
  split; [reflexivity|]. split; [now rewrite HQ|]. split.
  - rewrite <- HR. apply new_location_eq. lia.
  - rewrite fexp_eq.
    pose proof (digits2_pos_bounds Q) as [_ Hqhi].
    assert (52 < Zpos (digits2_pos Q)).
    { destruct (Z.le_gt_cases (Zpos (digits2_pos Q)) 52) as [Hc|]; [|lia].
      assert (2 ^ Zpos (digits2_pos Q) <= 2 ^ 52) by (apply Z.pow_le_mono_r; lia).
      change (2 ^ 52) with 4503599627370496 in *. lia. }
    lia.
Qed.

(** Division by a normal positive Number is monotone on the Numbers of at
    least 50. *)
Lemma div_mono (a b c : float) (mc : positive) (ec : Z) :
  Prim2SF c = S754_finite false mc ec -> 2 ^ 52 <= Zpos mc ->
  ge50 a -> (a <=? b)%float = true -> (a / c <=? b / c)%float = true.
Proof.
  intros Hc Hmc Ha Hab.
  destruct (valid_finite c _ _ _ Hc) as (Hec & Hmc' & _).
  assert (Hb : ge50 b) by (eapply leb_trans; [exact Ha|exact Hab]).
  destruct (ge50_shape a Ha) as [Ea|(ma & ea & Ea & Hea & Hma)].
  { (* a is infinite, and so is b *)
    rewrite leb_spec, Ea in Hab. rewrite leb_spec, !div_spec, Ea, Hc.
    destruct (Prim2SF b) as [[]|[]| |[] mb eb]; try discriminate. reflexivity. }
  destruct (valid_finite a _ _ _ Ea) as (Hea' & Hma' & _).
  destruct (div_core_normal ma mc ea ec) as (qa & la & Hqa & Hva & Hla & Haa);
    [lia|lia|lia|].
  assert (Hna : SF64div (S754_finite false ma ea) (S754_finite false mc ec) <> S754_nan).
  { unfold SF64div, SFdiv. cbn [xorb]. rewrite Hqa.
    eapply signed_as_not_nan, binary_round_aux_signed. lia. }
  destruct (ge50_shape b Hb) as [Eb|(mb & eb & Eb & Heb & Hmb)].
  { rewrite leb_spec, !div_spec, Ea, Eb, Hc.
    now apply SFleb_infinity_r. }
  destruct (valid_finite b _ _ _ Eb) as (Heb' & Hmb' & _).
  destruct (div_core_normal mb mc eb ec) as (qb & lb & Hqb & Hvb & Hlb & Hab');
    [lia|lia|lia|].
  destruct (canonical_finite a _ _ _ Ea) as [Hca _].
  destruct (canonical_finite b _ _ _ Eb) as [Hcb _].
  rewrite leb_spec, Ea, Eb in Hab.
  pose proof (canonical_order ma mb ea eb Hca Hcb Hab) as Hord.
  rewrite leb_spec, !div_spec, Ea, Eb, Hc.
  unfold SF64div, SFdiv. cbn [xorb]. rewrite Hqa, Hqb.
  apply (binary_round_aux_mono qa qb _ _ la lb
           (Zpos ma * 2 ^ 53) (Zpos mc) (Zpos mb * 2 ^ 53) (Zpos mc));
    try assumption; try lia.
  replace (Z.min (ea - ec - 53) (eb - ec - 53)) with (Z.min ea eb - ec - 53) by lia.
  replace (ea - ec - 53 - (Z.min ea eb - ec - 53)) with (ea - Z.min ea eb) by lia.
  replace (eb - ec - 53 - (Z.min ea eb - ec - 53)) with (eb - Z.min ea eb) by lia.
  replace (Zpos ma * 2 ^ 53 * Zpos mc * 2 ^ (ea - Z.min ea eb))
    with (Zpos ma * 2 ^ (ea - Z.min ea eb) * (2 ^ 53 * Zpos mc)) by ring.
  replace (Zpos mb * 2 ^ 53 * Zpos mc * 2 ^ (eb - Z.min ea eb))
    with (Zpos mb * 2 ^ (eb - Z.min ea eb) * (2 ^ 53 * Zpos mc)) by ring.
  apply Z.mul_le_mono_nonneg_r; [lia|exact Hord].
Qed.


Local Open Scope float_scope.

Lemma zero_add (x : float) : nonzero_signed false (Prim2SF x) -> 0 + x = x.
Proof.
  intros Hx. apply Prim2SF_inj. rewrite add_spec.
  change (Prim2SF 0) with (S754_zero false).
  destruct (Prim2SF x) as [sx|sx| |sx mx ex]; cbn [nonzero_signed] in Hx;
    try contradiction; reflexivity.
Qed.

Lemma ge50_positive (x : float) : ge50 x -> nonzero_signed false (Prim2SF x).
Proof.
  intros Hx. destruct (ge50_shape x Hx) as [->|(m & e & -> & _)]; reflexivity.
Qed.

Lemma sums_table :
  fold_left add (replicate (Nat.pred population_size) 50) 50 = 500000 /\
  fold_left add (replicate (Nat.pred population_size) 0.5) 0.5 = 5000 /\
  fold_left add (replicate (Nat.pred population_size) 0.95) 0.95 = 9499.9999999998945.
Proof. split; [|split]; vm_compute; reflexivity. Qed.

Lemma length_pred {A} (a : A) (l : list A) :
  length (a :: l) = population_size -> length l = Nat.pred population_size.
Proof. cbn [length]. intros <-. reflexivity. Qed.

(** The mean of 10,000 values of at least 50. *)
Lemma mean_floor (v : float) (vs : list float) :
  length (v :: vs) = population_size ->
  Forall (fun v => (50 <=? v) = true) (v :: vs) ->
  (50 <=? fold_left add vs v / of_nat population_size) = true.
Proof.
  intros Hvlen Hvals. destruct sums_table as (T50 & _).
  apply length_pred in Hvlen. apply Forall_cons in Hvals. destruct Hvals as [Hv Hvs].
  pose proof (fold_add_lower (fun x : float => x) 50 vs eq_refl Hvs 50 v eq_refl Hv)
    as Hsum.
  rewrite Hvlen, T50 in Hsum.
  change (fold_left (fun sum s => sum + s) vs v) with (fold_left add vs v) in Hsum.
  change 50 with (500000 / of_nat population_size) at 1.
  apply (div_mono _ _ (of_nat population_size) 5497558138880000 (-39) eq_refl);
    [vm_compute; discriminate|reflexivity|exact Hsum].
Qed.

(** The average retention, in per cent, of 10,000 samples in range. *)
Lemma avgMs_bounds (simulations : list sample) :
  length simulations = population_size ->
  Forall in_range simulations ->
  let avg := fold_left (fun sum s => sum + ms s) simulations 0
               / of_nat population_size * 100 in
  (50 <=? avg) = true /\ (avg <=? 95) = true.
Proof.
  intros Hlen Hall. destruct sums_table as (_ & T05 & T95).
  destruct simulations as [|s l]; [discriminate|].
  apply length_pred in Hlen. apply Forall_cons in Hall. destruct Hall as [Hs Hl].
  destruct Hs as (_ & Hs05 & Hs95).
  assert (Hpos : nonzero_signed false (Prim2SF (ms s))).
  { apply (leb_positive 0.5); [reflexivity|exact Hs05]. }
  cbn [fold_left]. rewrite (zero_add _ Hpos).
  assert (Hl05 : Forall (fun s => (0.5 <=? ms s) = true) l).
  { eapply Forall_impl; [exact Hl|]. intros x Hx. exact (proj1 (proj2 Hx)). }
  assert (Hl95 : Forall (fun s => nonzero_signed false (Prim2SF (ms s)) /\
                                  (ms s <=? 0.95) = true) l).
  { eapply Forall_impl; [exact Hl|]. intros x (_ & Hx05 & Hx95).
    split; [apply (leb_positive 0.5); [reflexivity|exact Hx05]|exact Hx95]. }
  pose proof (fold_add_lower ms 0.5 l eq_refl Hl05 0.5 (ms s) eq_refl Hs05) as Hlow.
  pose proof (fold_add_upper ms 0.95 l Hl95 (ms s) 0.95 Hpos Hs95) as Hsum.
  rewrite Hlen, T05 in Hlow. rewrite Hlen, T95 in Hsum.
  split.
  - change 50 with (5000 / of_nat population_size * 100) at 1.
    apply (mul_mono _ _ 100 7036874417766400 (-46) eq_refl).
    apply (div_mono _ _ (of_nat population_size) 5497558138880000 (-39) eq_refl);
      [vm_compute; discriminate|reflexivity|exact Hlow].
  - apply (leb_trans _ (9499.9999999998945 / of_nat population_size * 100));
      [|reflexivity].
    apply (mul_mono _ _ 100 7036874417766400 (-46) eq_refl).
    apply (div_mono _ _ (of_nat population_size) 5497558138880000 (-39) eq_refl);
      [vm_compute; discriminate| |exact Hsum].
    apply (leb_trans _ 5000); [reflexivity|exact Hlow].
Qed.

(** X16: on a population of 10,000 samples in range the mean value of the
    summary is at least the floor 50, and the average retention, in per
    cent, is between 50 and 95: the rounding errors of the 10,000 additions,
    of the division and of the multiplication never carry an average out of
    the range of the samples. *)
Theorem stats_averages `{MathLib} (simulations : list sample) :
  length simulations = population_size ->
  Forall in_range simulations ->
  exists st,
    stats simulations = Normal st /\
    fle 50 (Stats.mean st) /\ fle 50 (Stats.avgMs st) /\ fle (Stats.avgMs st) 95.
Proof.
  intros Hlen Hall.
  assert (Hne : simulations <> []).
  { intros ->. destruct population_size_succ as [k Hk]. rewrite Hk in Hlen. discriminate. }
  destruct (stats_nonempty simulations Hne) as (total & Htot & Hst).
  eexists. split; [exact Hst|]. cbv zeta. cbn [Stats.mean Stats.avgMs].
  rewrite length_map, length_Array_sort, Hlen. unfold fle. split.
  - assert (Hvals : Forall (fun v => (50 <=? v) = true)
                      (map npv (Array_sort by_npv simulations))).
    { apply Forall_map. rewrite Array_sort_Permutation.
      eapply Forall_impl; [exact Hall|]. intros s Hs. exact (proj1 Hs). }
    assert (Hvlen : length (map npv (Array_sort by_npv simulations)) = population_size).
    { rewrite length_map, length_Array_sort. exact Hlen. }
    destruct (map npv (Array_sort by_npv simulations)) as [|v vs]; [discriminate|].
    cbn [reduce1] in Htot. injection Htot as <-.
    apply (mean_floor v vs Hvlen Hvals).
  - apply (avgMs_bounds simulations Hlen Hall).
Qed.

Lemma stats_averages_witness :
  exists st,
    @stats RefMath.math two_level_population = Normal st /\
    fle 50 (Stats.mean st) /\ fle 50 (Stats.avgMs st) /\ fle (Stats.avgMs st) 95.
Proof.
  apply (@stats_averages RefMath.math two_level_population).
  - apply HistogramClaims.length_cons_replicate.
  - apply Forall_cons. split; [split; [|split]; vm_compute; reflexivity|].
    apply Forall_replicate. split; [|split]; vm_compute; reflexivity.
Defined.

End AverageProperties.

(** ** A whole render *)
Module RenderProperties.

Import JS Dashboard Panels Projection FloatFacts SamplerFacts StatsFacts BinnerFacts
  StatsProperties PanelProperties RoundingMonotone BarOrder FixedMonotone ChartProperties
  AverageProperties.
Local Open Scope float_scope.

(** X17: the memoised values of one render fit together.  For each of the
    four selector values and draws whose variates are not NaN, the render
    returns, every sample is in range, the summary reports a positive
    fraction of exactly 100, a mean of at least 50 and an average retention
    between 50 and 95, every point of the trajectory has
    [p10 <= expected <= p90], no curve of the trajectory falls from a year
    to a later one, and every dot of the scatter is inside the range of the
    samples and on the side of 70 and 78 that its series names. *)
Theorem render_consistent `{MathLib} (scenario : string) (draws : N -> float) (n0 : N) :
  recognized scenario ->
  Forall (fun z => is_nan z = false) (variates draws n0 population_size) ->
  exists m,
    memos scenario draws n0 = (Normal m, (n0 + 20000)%N) /\
    Forall in_range (Memo.simulations m) /\
    Stats.positive (Memo.stats m) = 100 /\
    fle 50 (Stats.mean (Memo.stats m)) /\
    fle 50 (Stats.avgMs (Memo.stats m)) /\
    fle (Stats.avgMs (Memo.stats m)) 95 /\
    Forall within_band (Memo.trajectory m) /\
    StronglySorted not_below (Memo.trajectory m) /\
    Forall (fun d => dot_in_range d /\ dot_in_tier d) (Memo.scatter m).
Proof.
  intros Hrec Hz.
  destruct (simulations_result scenario draws n0 Hrec Hz) as (pop & Hrun & Hlen & Hall).
  destruct (stats_nonempty pop (population_nonempty pop Hlen)) as (total & Htot & Hst).
  match type of Hst with _ = Normal ?r => set (st := r) in * end.
  set (vals := map npv (Array_sort by_npv pop)) in *.
  assert (Hvlen : length vals = population_size).
  { unfold vals. rewrite length_map, length_Array_sort. exact Hlen. }
  assert (Hvals : Forall ge50 vals).
  { apply sorted_vals_Forall. eapply Forall_impl; [exact Hall|].
    intros s Hs. exact (proj1 Hs). }
  assert (Hsorted : StronglySorted fle vals).
  { unfold vals. rewrite map_Array_sort. apply Array_sort_sorted.
    apply Forall_map. eapply Forall_impl; [exact Hall|]. intros s Hs. exact (proj1 Hs). }
  destruct (percentile_values vals Hvlen Hsorted)
    as (a & b & c & P10 & P50 & P90 & Ha & Hb & Hc & Hab & Hbc).
  assert (Ha50 : ge50 a).
  { apply (proj1 (Forall_forall _ _) Hvals). eapply list_elem_of_lookup_2, Ha. }
  assert (Hb50 : ge50 b) by (eapply leb_trans; [exact Ha50|exact Hab]).
  assert (Hc50 : ge50 c) by (eapply leb_trans; [exact Hb50|exact Hbc]).
  assert (S10 : Stats.p10 st = Some a) by exact P10.
  assert (S50 : Stats.median st = Some b) by exact P50.
  assert (S90 : Stats.p90 st = Some c) by exact P90.
  destruct (recognized_factors scenario Hrec) as (fs & Hfs & Hflen & Hpos & Hfsorted).
  pose proof (trajectory_own scenario fs st Hfs) as Htraj.
  eexists. split; [exact (memos_normal scenario draws n0 _ pop st _ Hrun Hst Htraj)|].
  cbn [Memo.simulations Memo.stats Memo.trajectory Memo.scatter].
  split; [exact Hall|]. split.
  { unfold st. cbn [Stats.positive]. unfold percent_where.
    rewrite filter_all, Hlen; [vm_compute; reflexivity|].
    eapply Forall_impl; [exact Hall|]. intros s (Hs & _).
    apply (ltb_leb_trans 0 50); [reflexivity|exact Hs]. }
  split.
  { unfold st. cbn [Stats.mean]. fold vals. rewrite Hvlen.
    assert (Hv50 : Forall (fun v => (50 <=? v) = true) vals) by exact Hvals.
    clearbody vals. destruct vals as [|v vs]; [discriminate|].
    cbn [reduce1] in Htot. injection Htot as <-.
    apply (mean_floor v vs Hvlen Hv50). }
  split; [|split].
  { unfold st. cbn [Stats.avgMs]. rewrite Hlen. apply (avgMs_bounds pop Hlen Hall). }
  { unfold st. cbn [Stats.avgMs]. rewrite Hlen. apply (avgMs_bounds pop Hlen Hall). }
  split; [|split].
  - apply Forall_forall. intros pt Hpt.
    apply elem_of_lookup_imap in Hpt. destruct Hpt as (i & yr & -> & Hyr).
    apply lookup_lt_Some in Hyr. change (length years) with 6%nat in Hyr.
    destruct (lookup_lt_is_Some_2 fs i ltac:(lia)) as (f & Hf).
    pose proof (proj1 (Forall_forall _ _) Hpos f (list_elem_of_lookup_2 _ _ _ Hf)) as Hfp.
    unfold within_band, point_of. cbn [Point.p10 Point.expected Point.p90].
    rewrite Hf, S10, S50, S90. cbn [ToNumber].
    apply point_band; assumption.
  - apply (StronglySorted_imap not_below 6); [reflexivity|].
    intros i j x y Hij Hj.
    destruct (lookup_lt_is_Some_2 fs i ltac:(lia)) as (f & Hf).
    destruct (lookup_lt_is_Some_2 fs j ltac:(lia)) as (f' & Hf').
    pose proof (proj1 (Forall_forall _ _) Hpos f (list_elem_of_lookup_2 _ _ _ Hf)) as Hfp.
    pose proof (proj1 (Forall_forall _ _) Hpos f' (list_elem_of_lookup_2 _ _ _ Hf')) as Hfp'.
    assert (Hle : (f <=? f') = true).
    { destruct (Nat.eq_dec i j) as [->|Hne].
      - rewrite Hf in Hf'. injection Hf' as <-. apply leb_refl.
        destruct (positive_finite_shape f Hfp) as (m & e & Ef).
        apply is_nan_false. rewrite Ef. discriminate.
      - apply (StronglySorted_lookup fle fs Hfsorted i j); [lia|assumption..]. }
    unfold not_below, point_of. cbn [Point.p10 Point.expected Point.p90].
    rewrite Hf, Hf', S10, S50, S90. cbn [ToNumber].
    apply point_growth; assumption.
  - unfold scatter. apply Forall_map.
    eapply Forall_impl; [apply Forall_take, Hall|].
    intros s Hs. apply scatter_point_in_range, Hs.
Qed.

Lemma render_consistent_witness :
  exists m,
    @memos RefMath.math "conservative" (fun _ => 0.25) 0%N = (Normal m, (0 + 20000)%N) /\
    Forall in_range (Memo.simulations m) /\
    Stats.positive (Memo.stats m) = 100 /\
    fle 50 (Stats.mean (Memo.stats m)) /\
    fle 50 (Stats.avgMs (Memo.stats m)) /\
    fle (Stats.avgMs (Memo.stats m)) 95 /\
    Forall within_band (Memo.trajectory m) /\
    StronglySorted not_below (Memo.trajectory m) /\
    Forall (fun d => dot_in_range d /\ dot_in_tier d) (Memo.scatter m).
Proof.
  apply (@render_consistent RefMath.math "conservative" (fun _ => 0.25) 0%N).
  - unfold recognized. rewrite !elem_of_cons. tauto.
  - rewrite (variates_periodic _ 0.25 0.25) by reflexivity.
    apply Forall_replicate. vm_compute. reflexivity.
Defined.

End RenderProperties.

(** ** The indicators of the cards *)
Module IndicatorProperties.

Import JS Dashboard Indicators FloatFacts SamplerFacts StatsFacts BinnerFacts
  StatsProperties PanelProperties RoundingMonotone FixedMonotone ChartProperties
  AverageProperties.
Local Open Scope float_scope.

Lemma SFsub_add_opp (x y : spec_float) : SF64sub x y = SF64add x (SFopp y).
Proof.
  destruct x as [sx|sx| |sx mx ex]; destruct y as [sy|sy| |sy my ey];
    unfold SF64sub, SFsub, SF64add, SFadd; cbn [SFopp]; try reflexivity.
  - destruct sx, sy; reflexivity.
  - destruct sx, sy; reflexivity.
  - f_equal. destruct sy; cbn [negb cond_Zopp]; lia.
Qed.

(** Subtraction of a finite Number is monotone. *)
Lemma sub_mono (a b c : float) (sc : bool) (mc : positive) (ec : Z) :
  Prim2SF c = S754_finite sc mc ec ->
  (a <=? b) = true -> (a - c <=? b - c) = true.
Proof.
  intros Hc Hle.
  assert (Hopp : Prim2SF (- c) = S754_finite (negb sc) mc ec)
    by (rewrite opp_spec, Hc; reflexivity).
  assert (Hsub : forall u, u - c = - c + u).
  { intros u. apply Prim2SF_inj.
    rewrite sub_spec, add_spec, SFsub_add_opp, opp_spec. apply SFadd_comm. }
  rewrite !Hsub. now apply (add_mono (- c) a b (negb sc) mc ec).
Qed.

(** X18: the cards cannot show a downside.  On a population of 10,000
    samples in range the downside probability [100 - positive] is exactly
    0, the return multiple [median / 4.5] and the average multiple
    [mean / 4.5] are at least [50 / 4.5] (11.1 when rounded to one decimal
    as displayed), and the return on investment is at least
    [(50 / 4.5 - 1) * 100], about 1011 per cent. *)
Theorem indicators_floor `{MathLib} (simulations : list sample) :
  length simulations = population_size ->
  Forall in_range simulations ->
  exists st,
    stats simulations = Normal st /\
    downside st = 0 /\
    fle (50 / 4.5) (multiple st) /\
    fle 11.1 (toFixed1_Number (multiple st)) /\
    fle ((50 / 4.5 - 1) * 100) (roi st) /\
    fle (50 / 4.5) (avg_multiple st).
Proof.
  intros Hlen Hall.
  destruct (stats_nonempty simulations (population_nonempty simulations Hlen))
    as (total & Htot & Hst).
  match type of Hst with _ = Normal ?r => set (st := r) in * end.
  set (vals := map npv (Array_sort by_npv simulations)) in *.
  assert (Hvlen : length vals = population_size).
  { unfold vals. rewrite length_map, length_Array_sort. exact Hlen. }
  assert (Hvals : Forall ge50 vals).
  { apply sorted_vals_Forall. eapply Forall_impl; [exact Hall|].
    intros s Hs. exact (proj1 Hs). }
  assert (Hsorted : StronglySorted fle vals).
  { unfold vals. rewrite map_Array_sort. apply Array_sort_sorted.
    apply Forall_map. eapply Forall_impl; [exact Hall|]. intros s Hs. exact (proj1 Hs). }
  destruct (percentile_values vals Hvlen Hsorted)
    as (a & b & c & _ & P50 & _ & _ & Hb & _).
  assert (Hb50 : ge50 b).
  { apply (proj1 (Forall_forall _ _) Hvals). eapply list_elem_of_lookup_2, Hb. }
  assert (S50 : Stats.median st = Some b) by exact P50.
  assert (H45 : Prim2SF 4.5 = S754_finite false 5066549580791808 (-50)) by reflexivity.
  assert (Hmul : (50 / 4.5 <=? b / 4.5) = true).
  { apply (div_mono 50 b 4.5 _ _ H45); [vm_compute; discriminate|reflexivity|exact Hb50]. }
  exists st. split; [exact Hst|]. unfold downside, multiple, roi, avg_multiple, fle.
  rewrite S50. cbn [ToNumber]. split; [|split; [|split; [|split]]].
  - unfold st. cbn [Stats.positive]. unfold percent_where.
    rewrite filter_all, Hlen; [vm_compute; reflexivity|].
    eapply Forall_impl; [exact Hall|]. intros s (Hs & _).
    apply (ltb_leb_trans 0 50); [reflexivity|exact Hs].
  - exact Hmul.
  - change 11.1 with (toFixed1_Number (50 / 4.5)).
    apply toFixed1_mono; [reflexivity|exact Hmul].
  - apply (mul_mono _ _ 100 7036874417766400 (-46) eq_refl).
    apply (sub_mono _ _ 1 false 4503599627370496 (-52) eq_refl). exact Hmul.
  - unfold st. cbn [Stats.mean]. fold vals. rewrite Hvlen.
    assert (Hv50 : Forall (fun v => (50 <=? v) = true) vals) by exact Hvals.
    clearbody vals. destruct vals as [|v vs]; [discriminate|].
    cbn [reduce1] in Htot. injection Htot as <-.
    apply (div_mono 50 _ 4.5 _ _ H45); [vm_compute; discriminate|reflexivity|].
    apply (mean_floor v vs Hvlen Hv50).
Qed.

Lemma indicators_floor_witness :
  exists st,
    @stats RefMath.math two_level_population = Normal st /\
    downside st = 0 /\
    fle (50 / 4.5) (multiple st) /\
    fle 11.1 (toFixed1_Number (multiple st)) /\
    fle ((50 / 4.5 - 1) * 100) (roi st) /\
    fle (50 / 4.5) (avg_multiple st).
Proof.
  apply (@indicators_floor RefMath.math two_level_population).
  - apply HistogramClaims.length_cons_replicate.
  - apply Forall_cons. split; [split; [|split]; vm_compute; reflexivity|].
    apply Forall_replicate. split; [|split]; vm_compute; reflexivity.
Defined.

End IndicatorProperties.

(** ** The dispersion of the summary *)
Module DispersionProperties.

Import JS Dashboard Indicators FloatFacts SamplerFacts StatsFacts BinnerFacts
  RoundingFacts HistogramFacts StatsProperties PanelProperties RoundingMonotone
  FixedMonotone ChartProperties AverageProperties IndicatorProperties.
Local Open Scope float_scope.

Lemma SFadd_signed (x y : spec_float) :
  valid_binary x = true -> valid_binary y = true ->
  signed_as false x -> signed_as false y -> signed_as false (SF64add x y).
Proof.
  intros Vx Vy Hx Hy.
  destruct x as [sx|sx| |sx mx ex]; cbn [signed_as] in Hx; try contradiction; subst sx;
    destruct y as [sy|sy| |sy my ey]; cbn [signed_as] in Hy; try contradiction; subst sy;
    try reflexivity.
  unfold SF64add, SFadd. cbn [cond_Zopp].
  apply nonzero_signed_signed.
  unfold valid_binary, bounded, canonical_mantissa in Vx, Vy.
  apply andb_prop in Vx, Vy. destruct Vx as [Vx _]. destruct Vy as [Vy _].
  apply Z.eqb_eq in Vx, Vy. rewrite fexp_eq in Vx, Vy.
  apply binary_normalize_pos; lia.
Qed.

Lemma add_signed (a b : float) :
  signed_as false (Prim2SF a) -> signed_as false (Prim2SF b) ->
  signed_as false (Prim2SF (a + b)).
Proof.
  intros Ha Hb. rewrite add_spec. apply SFadd_signed; auto using Prim2SF_valid.
Qed.

Lemma div_signed (a c : float) (mc : positive) (ec : Z) :
  Prim2SF c = S754_finite false mc ec ->
  signed_as false (Prim2SF a) -> signed_as false (Prim2SF (a / c)).
Proof.
  intros Hc Ha. rewrite div_spec, Hc.
  destruct (Prim2SF a) as [sa|sa| |sa ma ea]; cbn [signed_as] in Ha;
    try contradiction; subst sa; try reflexivity.
  apply SFdiv_signed; [right; now exists ma, ea|reflexivity].
Qed.

Lemma sqrt_signed (a : float) :
  signed_as false (Prim2SF a) -> signed_as false (Prim2SF (sqrt a)).
Proof.
  intros Ha. rewrite sqrt_spec.
  destruct (Prim2SF a) as [sa|sa| |sa ma ea]; cbn [signed_as] in Ha;
    try contradiction; subst sa; try reflexivity.
  unfold SF64sqrt, SFsqrt, SFsqrt_core_binary.
  match goal with
  | |- context [Z.sqrtrem ?m] =>
      pose proof (Z.sqrtrem_sqrt m) as Hq; pose proof (Z.sqrt_nonneg m) as Hq0;
      destruct (Z.sqrtrem m) as [q r]
  end.
  cbn [fst] in Hq. subst q. now apply binary_round_aux_signed.
Qed.

Lemma signed_nonneg (x : float) : signed_as false (Prim2SF x) -> (0 <=? x) = true.
Proof.
  intros Hx. rewrite leb_spec. change (Prim2SF 0) with (S754_zero false).
  now apply SFleb_zero_l.
Qed.

Lemma fold_add_positive (l : list float) :
  Forall (fun v => nonzero_signed false (Prim2SF v)) l ->
  forall acc, nonzero_signed false (Prim2SF acc) ->
    nonzero_signed false (Prim2SF (fold_left add l acc)).
Proof.
  induction 1 as [|v l Hv _ IH]; intros acc Hacc; cbn [fold_left]; [exact Hacc|].
  apply IH. now apply add_positive.
Qed.

(** The sum of squares of the deviations is a Number that is not
    negative. *)
Lemma fold_squares_signed `{MathLib} (mean : float) (vals : list float) :
  square_not_negative ->
  Forall (fun v => is_nan (v - mean) = false) vals ->
  forall acc, signed_as false (Prim2SF acc) ->
    signed_as false
      (Prim2SF (fold_left (fun sum v => sum + Math_pow2 (v - mean)) vals acc)).
Proof.
  intros Hpow. induction 1 as [|v l Hv _ IH]; intros acc Hacc; cbn [fold_left];
    [exact Hacc|].
  apply IH. apply add_signed; [exact Hacc|]. apply Hpow, Hv.
Qed.

Lemma sub_self (a : float) (m : positive) (e : Z) :
  Prim2SF a = S754_finite false m e -> a - a = 0.
Proof.
  intros Ha. apply Prim2SF_inj. rewrite sub_spec, Ha.
  unfold SF64sub, SFsub. cbn [cond_Zopp]. now rewrite Z.sub_diag.
Qed.

(** X19: the dispersion figures are never negative.  On a population of
    10,000 finite values of at least 50, and a host whose [Math.pow(x, 2)]
    is not negative, the standard deviation of the summary is a Number that
    is at least 0 (never NaN), and so is the spread [p90 - p10] that the
    cards format. *)
Theorem dispersion_not_negative `{MathLib} (simulations : list sample) :
  square_not_negative ->
  length simulations = population_size ->
  Forall finite_value simulations ->
  exists st,
    stats simulations = Normal st /\ fle 0 (Stats.std st) /\ fle 0 (spread st).
Proof.
  intros Hpow Hlen Hall.
  destruct (stats_nonempty simulations (population_nonempty simulations Hlen))
    as (total & Htot & Hst).
  match type of Hst with _ = Normal ?r => set (st := r) in * end.
  set (vals := map npv (Array_sort by_npv simulations)) in *.
  assert (Hvlen : length vals = population_size).
  { unfold vals. rewrite length_map, length_Array_sort. exact Hlen. }
  assert (Hvals : Forall (fun v => ge50 v /\ is_finite v = true) vals).
  { unfold vals. apply Forall_map. rewrite Array_sort_Permutation. exact Hall. }
  assert (Hsorted : StronglySorted fle vals).
  { unfold vals. rewrite map_Array_sort. apply Array_sort_sorted.
    apply Forall_map. eapply Forall_impl; [exact Hall|]. intros s Hs. exact (proj1 Hs). }
  assert (Hlen10 : Prim2SF (of_nat population_size)
                   = S754_finite false 5497558138880000 (-39)) by reflexivity.
  exists st. split; [exact Hst|]. unfold fle. split.
  - (* the standard deviation *)
    unfold st. cbn [Stats.std]. fold vals. rewrite Hvlen.
    apply signed_nonneg, sqrt_signed, (div_signed _ _ _ _ Hlen10).
    apply fold_squares_signed; [exact Hpow| |reflexivity].
    assert (Hmean : is_nan (total / of_nat population_size) = false).
    { apply is_nan_false. eapply signed_as_not_nan.
      apply (div_signed _ _ _ _ Hlen10), nonzero_signed_signed.
      clearbody vals. destruct vals as [|v vs]; [discriminate Htot|].
      cbn [reduce1] in Htot. injection Htot as <-.
      apply Forall_cons in Hvals. destruct Hvals as [[Hv _] Hvs].
      apply fold_add_positive; [|now apply ge50_positive].
      eapply Forall_impl; [exact Hvs|]. intros x [Hx _]. now apply ge50_positive. }
    eapply Forall_impl; [exact Hvals|]. intros v [Hv Hf].
    destruct (finite_shape v Hv Hf) as (m & e & Ev & _).
    apply is_nan_false. rewrite sub_spec, SFsub_add_opp, Ev.
    apply SFadd_finite_not_nan. apply is_nan_false in Hmean.
    destruct (Prim2SF (total / of_nat population_size)); cbn [SFopp]; congruence.
  - (* the spread *)
    destruct (percentile_values vals Hvlen Hsorted)
      as (a & b & c & P10 & _ & P90 & Ha & _ & Hc & Hab & Hbc).
    unfold spread, st. cbn [Stats.p10 Stats.p90]. fold vals.
    rewrite P10, P90. cbn [ToNumber].
    destruct (proj1 (Forall_forall _ _) Hvals a (list_elem_of_lookup_2 _ _ _ Ha))
      as [Ha50 Haf].
    destruct (finite_shape a Ha50 Haf) as (m & e & Ea & _).
    rewrite <- (sub_self a m e Ea).
    apply (sub_mono a c a false m e Ea).
    eapply leb_trans; [exact Hab|exact Hbc].
Qed.

Lemma square_not_negative_reference : @square_not_negative RefMath.math.
Proof.
  intros x Hx. change (@Math_pow2 RefMath.math x) with (x * x).
  rewrite mul_spec. apply is_nan_false in Hx.
  destruct (Prim2SF x) as [[]|[]| |[] m e]; try congruence; try reflexivity;
    unfold SF64mul, SFmul; cbn [xorb]; apply binary_round_aux_signed; lia.
Qed.

Lemma dispersion_not_negative_witness :
  exists st,
    @stats RefMath.math two_level_population = Normal st /\
    fle 0 (Stats.std st) /\ fle 0 (spread st).
Proof.
  apply (@dispersion_not_negative RefMath.math two_level_population).
  - exact square_not_negative_reference.
  - apply HistogramClaims.length_cons_replicate.
  - apply Forall_cons. split; [split; vm_compute; reflexivity|].
    apply Forall_replicate. split; vm_compute; reflexivity.
Defined.

End DispersionProperties.

(** ** The scenario [all] against the scenario [base] *)
Module ScenarioRelations.

Import JS Dashboard Projection FloatFacts SamplerFacts RoundingMonotone SamplerMonotone
  ChartProperties.
Local Open Scope float_scope.

(** A product with a Number that is not negative grows with the other
    factor, and a product with a Number that is not positive falls. *)
Lemma mul_mono_nonneg_r (z f f' : float) :
  (0 <=? z) = true ->
  positive_finite f = true -> positive_finite f' = true -> (f <=? f') = true ->
  (z * f <=? z * f') = true.
Proof.
  intros Hz Hf Hf' Hle.
  destruct (positive_finite_shape f Hf) as (m & e & Ef).
  destruct (positive_finite_shape f' Hf') as (m' & e' & Ef').
  rewrite leb_spec in Hz. change (Prim2SF 0) with (S754_zero false) in Hz.
  destruct (Prim2SF z) as [sz|sz| |sz mz ez] eqn:Ez; try discriminate.
  - rewrite leb_spec, !mul_spec, Ez, Ef, Ef'. destruct sz; reflexivity.
  - destruct sz; [discriminate|]. rewrite leb_spec, !mul_spec, Ez, Ef, Ef'. reflexivity.
  - destruct sz; [discriminate|]. now apply (mul_mono_r f f' z mz ez).
Qed.

Lemma mul_anti_nonpos_r (z f f' : float) :
  (z <=? 0) = true ->
  positive_finite f = true -> positive_finite f' = true -> (f <=? f') = true ->
  (z * f' <=? z * f) = true.
Proof.
  intros Hz Hf Hf' Hle.
  destruct (positive_finite_shape f Hf) as (m & e & Ef).
  destruct (positive_finite_shape f' Hf') as (m' & e' & Ef').
  assert (Hw : (0 <=? - z) = true).
  { rewrite leb_spec in Hz |- *. rewrite opp_spec.
    change (Prim2SF 0) with (S754_zero false) in *.
    destruct (Prim2SF z) as [[]|[]| |[] mz ez]; try discriminate; reflexivity. }
  pose proof (mul_mono_nonneg_r (- z) f f' Hw Hf Hf' Hle) as H.
  rewrite leb_spec, !mul_spec, opp_spec, Ef, Ef', !SFmul_opp_l, SFleb_opp in H.
  now rewrite leb_spec, !mul_spec, Ef, Ef'.
Qed.

(** X20: the scenario [all] is the scenario [base] with a wider spread of
    values.  On the same draws the two populations are built from the same
    variates, they have the same retention and the same risk tier sample by
    sample, the value of [all] is at least that of [base] where the variate
    is not negative and at most that of [base] where it is not positive,
    and the two trajectories of any statistics are equal. *)
Theorem all_widens_base `{MathLib} (draws : N -> float) (n0 : N) :
  let zs := variates draws n0 population_size in
  exists pa pb,
    object_get params_table "all" = Own pa /\
    object_get params_table "base" = Own pb /\
    fst (simulations "all" draws n0) = Normal (map (sample_of pa) zs) /\
    fst (simulations "base" draws n0) = Normal (map (sample_of pb) zs) /\
    (forall z, ms (sample_of pa z) = ms (sample_of pb z)) /\
    (forall z, risk_of (sample_of pa z) = risk_of (sample_of pb z)) /\
    (forall z, (0 <=? z) = true ->
               (npv (sample_of pb z) <=? npv (sample_of pa z)) = true) /\
    (forall z, (z <=? 0) = true ->
               (npv (sample_of pa z) <=? npv (sample_of pb z)) = true) /\
    (forall st, trajectory "all" st = trajectory "base" st).
Proof.
  intros zs.
  exists {| p_mean := 89.4; p_std := 14.3; p_ms := 0.749 |},
         {| p_mean := 89.4; p_std := 11.2; p_ms := 0.749 |}.
  split; [reflexivity|]. split; [reflexivity|].
  assert (Hmean : Prim2SF 89.4 = S754_finite false 6290965729483162 (-46)) by reflexivity.
  split; [|split].
  - unfold simulations.
    change (object_get params_table "all")
      with (Own {| p_mean := 89.4; p_std := 14.3; p_ms := 0.749 |}).
    rewrite simulations_loop_own. reflexivity.
  - unfold simulations.
    change (object_get params_table "base")
      with (Own {| p_mean := 89.4; p_std := 11.2; p_ms := 0.749 |}).
    rewrite simulations_loop_own. reflexivity.
  - split; [reflexivity|]. split; [reflexivity|]. split; [|split].
    + intros z Hz. unfold sample_of. cbn [npv p_mean p_std].
      apply Math_max_mono; [reflexivity|].
      apply (add_mono _ _ _ _ _ _ Hmean).
      apply mul_mono_nonneg_r; [exact Hz|reflexivity..].
    + intros z Hz. unfold sample_of. cbn [npv p_mean p_std].
      apply Math_max_mono; [reflexivity|].
      apply (add_mono _ _ _ _ _ _ Hmean).
      apply mul_anti_nonpos_r; [exact Hz|reflexivity..].
    + intros st. reflexivity.
Qed.

End ScenarioRelations.
